(** * Categorical scatter plot renderer (catscat.js)

    A shallow embedding of [superset/assets/visualizations/catscat.js]
    and the properties of its rendering pipeline.

    Conventions of the embedding.

    - JavaScript numbers are modelled by [number]: rationals extended
      with NaN and the two infinities.  An arithmetic result whose
      magnitude reaches the bound of double precision overflows to an
      infinity; below the bound results are exact: rounding and the
      sign of zero are not modelled.  Pixel sizes (widths, heights,
      positions on the horizontal axis) are computed exactly.
    - Attribute values of data points (color, shape, entity) are
      JavaScript values [jsval]; the coercions the code applies to them
      (unary plus, string concatenation) are [ToNumber] and [ToString].
      The numeric-literal grammar and the number printer of the
      language are taken as parameters.
    - The array handed to the renderer lives in a store of arrays,
      because [sortData] sorts it in place; the DOM below the chart
      container is the second component of the state.
    - [Array.prototype.sort] is taken by the contract the language
      gives it ([ArraySort]): the renderer is verified for every
      implementation, and the examples run with an insertion sort.
    - d3 (version 3) primitives are modelled by the functions prefixed
      [d3_]. *)

From Stdlib Require Import ZArith QArith Qround Lqa Lia Bool Ascii String.
From stdpp Require Import base option list sorting gmap strings.

(** ** JavaScript numbers *)

Section Numbers.
Local Open Scope Q_scope.

Inductive number : Type :=
| NaN : number
| Inf (negative : bool) : number
| Fin (q : Q) : number.

(** Equality of numbers up to the representation of rationals. *)
Definition num_eq (a b : number) : Prop :=
  match a, b with
  | NaN, NaN => True
  | Inf s, Inf t => s = t
  | Fin p, Fin q => p == q
  | _, _ => False
  end.

Definition Qsign_neg (q : Q) : bool := if Qlt_le_dec q 0 then true else false.
Definition Qis_zero (q : Q) : bool := Qeq_bool q 0.
Definition Qltb (a b : Q) : bool := if Qlt_le_dec a b then true else false.
Definition Qleb (a b : Q) : bool := if Qlt_le_dec b a then false else true.

(** The overflow bound of double precision: the largest double is
    [2^1024 - 2^971], and a result of magnitude [2^1024 - 2^970] or more
    is rounded to an infinity. *)
Definition overflow_bound : Q := inject_Z (2 ^ 1024 - 2 ^ 970).

(** The number an arithmetic operation returns when its exact result is
    [q]. *)
Definition finite (q : Q) : number :=
  if Qleb overflow_bound q then Inf false
  else if Qleb q (- overflow_bound) then Inf true
  else Fin q.

Definition num_neg (a : number) : number :=
  match a with
  | NaN => NaN
  | Inf s => Inf (negb s)
  | Fin q => Fin (- q)
  end.

Definition num_add (a b : number) : number :=
  match a, b with
  | NaN, _ | _, NaN => NaN
  | Inf s, Inf t => if Bool.eqb s t then Inf s else NaN
  | Inf s, Fin _ | Fin _, Inf s => Inf s
  | Fin p, Fin q => finite (p + q)
  end.

Definition num_sub (a b : number) : number := num_add a (num_neg b).

Definition num_mul (a b : number) : number :=
  match a, b with
  | NaN, _ | _, NaN => NaN
  | Inf s, Inf t => Inf (xorb s t)
  | Inf s, Fin q | Fin q, Inf s =>
      if Qis_zero q then NaN else Inf (xorb s (Qsign_neg q))
  | Fin p, Fin q => finite (p * q)
  end.

Definition num_div (a b : number) : number :=
  match a, b with
  | NaN, _ | _, NaN => NaN
  | Inf _, Inf _ => NaN
  | Inf s, Fin q => Inf (xorb s (Qsign_neg q))
  | Fin _, Inf _ => Fin 0
  | Fin p, Fin q =>
      if Qis_zero q
      then (if Qis_zero p then NaN else Inf (Qsign_neg p))
      else finite (p / q)
  end.

(** [v > 0] and [v < 0]; both are false on NaN. *)
Definition num_gt0 (v : number) : bool :=
  match v with
  | NaN => false
  | Inf s => negb s
  | Fin q => if Qlt_le_dec 0 q then true else false
  end.

Definition num_lt0 (v : number) : bool :=
  match v with
  | NaN => false
  | Inf s => s
  | Fin q => Qsign_neg q
  end.

(** [v == 0] *)
Definition num_eq0 (v : number) : bool :=
  match v with
  | Fin q => Qis_zero q
  | _ => false
  end.

(** Truthiness of a number: [0] and NaN are falsy. *)
Definition num_truthy (v : number) : bool :=
  match v with
  | NaN => false
  | Inf _ => true
  | Fin q => negb (Qis_zero q)
  end.

Definition is_NaN (v : number) : bool :=
  match v with NaN => true | _ => false end.

Definition Qtrunc (x : Q) : Z :=
  if Qlt_le_dec x 0 then Qceiling x else Qfloor x.

Definition Qrem (a b : Q) : Q := a - b * inject_Z (Qtrunc (a / b)).

(** The remainder operator [a % b]: NaN when the dividend is infinite
    or the divisor is zero, the dividend itself when only the divisor
    is infinite, and otherwise the remainder of the truncated division
    (which floating point computes exactly). *)
Definition num_rem (a b : number) : number :=
  match a, b with
  | NaN, _ | _, NaN => NaN
  | Inf _, _ => NaN
  | Fin p, Inf _ => Fin p
  | Fin p, Fin q => if Qis_zero q then NaN else Fin (Qrem p q)
  end.

End Numbers.

Infix "=n=" := num_eq (at level 70, no associativity).

(** ** JavaScript values *)

Inductive jsval : Type :=
| JUndefined : jsval
| JNull : jsval
| JBool (b : bool) : jsval
| JNumber (n : number) : jsval
| JString (s : string) : jsval.

(** ** Exceptions *)

Inductive exn : Type :=
| TypeError (msg : string) : exn.

Inductive result (A : Type) : Type :=
| Ok (a : A) : result A
| Throw (e : exn) : result A.

Arguments Ok {A} a.
Arguments Throw {A} e.

Local Open Scope string_scope.
Local Open Scope list_scope.

(** ** Data model

    A dataset is an array of series [{key, values: [{y, color, shape,
    entity}, ...]}]. *)

Record point : Type := Point {
  y : Q;
  color : jsval;
  shape : jsval;
  entity : jsval;
}.

Record series : Type := Series {
  key : string;
  values : list point;
}.

(** Property access [v[attr]] on a point. *)
Definition get_attr (attr : string) (v : point) : jsval :=
  if String.eqb attr "y" then JNumber (Fin (y v))
  else if String.eqb attr "color" then color v
  else if String.eqb attr "shape" then shape v
  else if String.eqb attr "entity" then entity v
  else JUndefined.

(** The slice's form data. *)
Record formData : Type := FormData {
  scheme : jsval;
  y_axis_format : jsval;
  y_axis_label : jsval;
  x_axis_label : jsval;
}.

(** ** The DOM

    An element has a tag, a class list, attributes (styles and the text
    content are kept among them) and children. *)

Inductive attr_value : Type :=
| ANum (n : number)
| AStr (s : string)
| AVal (v : jsval)
| ATranslate (x y : jsval)
| ASymbol (type : jsval).

#[warnings="-register-all"]
Inductive node : Type :=
| Node (tag : string) (classes : list string)
       (attrs : list (string * attr_value)) (children : list node).

Definition tag_of (n : node) : string :=
  match n with Node t _ _ _ => t end.
Definition classes_of (n : node) : list string :=
  match n with Node _ c _ _ => c end.
Definition attrs_of (n : node) : list (string * attr_value) :=
  match n with Node _ _ a _ => a end.
Definition children_of (n : node) : list node :=
  match n with Node _ _ _ c => c end.

Definition get_attribute (name : string) (n : node) : option attr_value :=
  snd <$> List.find (fun kv => String.eqb (fst kv) name) (attrs_of n).

(** [selection.attr(name, value)]: sets the attribute, replacing an
    earlier value of the same name. *)
Definition set_attr (name : string) (value : attr_value) (n : node) : node :=
  match n with
  | Node t c a ch =>
      Node t c
        (List.filter (fun kv => negb (String.eqb (fst kv) name)) a
           ++ [(name, value)]) ch
  end.

Definition append_children (n : node) (new : list node) : node :=
  match n with Node t c a ch => Node t c a (ch ++ new) end.

(** All descendants of an element, in document order. *)
Fixpoint descendants (n : node) : list node :=
  match n with
  | Node _ _ _ ch => flat_map (fun c => c :: descendants c) ch
  end.

Definition has_class (cls : string) (n : node) : bool :=
  existsb (String.eqb cls) (classes_of n).

(** [selection.selectAll('.cls')] from one element. *)
Definition selectAll (cls : string) (n : node) : list node :=
  List.filter (has_class cls) (descendants n).

(** [selection.data(data).enter()] of d3 v3 without a key function:
    datum [i] joins the [i]-th selected element, and the enter selection
    holds the data beyond the selected elements, each with its index. *)
Definition d3_enter {A : Type} (selection : list node) (data : list A)
  : list (nat * A) :=
  drop (length selection) (imap (fun i d => (i, d)) data).

(** ** State: the store of arrays and the container's content *)

Definition loc : Type := positive.

Record state : Type := State {
  heap : gmap loc (list series);
  container : list node;
}.

Definition M (A : Type) : Type := state -> result A * state.

Definition ret {A : Type} (a : A) : M A := fun s => (Ok a, s).

Definition bind {A B : Type} (m : M A) (f : A -> M B) : M B :=
  fun s =>
    match m s with
    | (Ok a, s') => f a s'
    | (Throw e, s') => (Throw e, s')
    end.

Definition throw {A : Type} (e : exn) : M A := fun s => (Throw e, s).

Notation "x <- m ;; k" := (bind m (fun x => k))
  (at level 100, m at next level, right associativity).
Notation "m ;;; k" := (bind m (fun _ => k))
  (at level 100, right associativity).

(** Reading an array that does not exist is reading a property of
    [undefined]. *)
Definition read_array (l : loc) : M (list series) :=
  fun s =>
    match heap s !! l with
    | Some a => (Ok a, s)
    | None => (Throw (TypeError "Cannot read property of undefined"), s)
    end.

Definition write_array (l : loc) (a : list series) : M unit :=
  fun s => (Ok tt, State (<[l := a]> (heap s)) (container s)).

Definition set_container (c : list node) : M unit :=
  fun s => (Ok tt, State (heap s) c).

(** A left-to-right map that threads a counter. *)
Definition map_acc {A B S : Type} (f : S -> A -> B * S)
  : S -> list A -> list B * S :=
  fix go (s : S) (l : list A) {struct l} : list B * S :=
    match l with
    | [] => ([], s)
    | x :: r =>
        let '(x', s1) := f s x in
        let '(r', s2) := go s1 r in
        (x' :: r', s2)
    end.

(** [selection.attr(...)] on [selectAll('.cls')]: the elements of class
    [cls] below [n] are visited in document order and the [i]-th of them
    is replaced by [f i] of it.  Returns the new element and the next
    index. *)
Fixpoint update_selected (cls : string) (f : nat -> node -> node)
    (i : nat) (n : node) {struct n} : node * nat :=
  match n with
  | Node t c a ch =>
      let '(ch', j) :=
        map_acc
          (fun i x =>
             let here := has_class cls x in
             let '(x', i2) :=
               update_selected cls f (if here then S i else i) x in
             (if here then f i x' else x', i2))
          i ch in
      (Node t c a ch', j)
  end.

(** ** Printing and reading array indices *)

Definition digit_char (d : N) : ascii := ascii_of_N (48 + d).

Fixpoint N_digits (fuel : nat) (n : N) (acc : string) : string :=
  match fuel with
  | O => acc
  | S fuel' =>
      let acc' := String (digit_char (n mod 10)) acc in
      if (n <? 10)%N then acc' else N_digits fuel' (n / 10) acc'
  end.

(** [n.toString()] for a non-negative integer. *)
Definition N_toString (n : N) : string := N_digits (S (N.size_nat n)) n "".
Definition Nat_toString (n : nat) : string := N_toString (N.of_nat n).

Definition digit_value (c : ascii) : option N :=
  let k := N_of_ascii c in
  if ((48 <=? k) && (k <=? 57))%N then Some (k - 48)%N else None.

Fixpoint parse_digits (s : string) (acc : N) : option N :=
  match s with
  | EmptyString => Some acc
  | String c s' =>
      match digit_value c with
      | Some d => parse_digits s' (10 * acc + d)%N
      | None => None
      end
  end.

(** A property key is an array index when it is the canonical decimal
    form of an integer below [2^32 - 1]. *)
Definition array_index (s : string) : option N :=
  match s with
  | EmptyString => None
  | _ =>
      match parse_digits s 0%N with
      | Some n =>
          if String.eqb (N_toString n) s && (n <? 4294967295)%N
          then Some n else None
      | None => None
      end
  end.

Definition is_array_index (s : string) : bool :=
  match array_index s with Some _ => true | None => false end.

(** ** Arrays *)

(** [Array.prototype.sort(comparefn)].  The language fixes what the
    sort returns, not how it sorts: the result is a rearrangement of the
    array, and when [comparefn] is a consistent comparison function for
    the elements, no element stands behind one it compares less than.
    With any other [comparefn] the order is left to the implementation,
    and the sort need not be stable.  [ArraySort] is this contract; the
    renderer is verified for every implementation of it. *)
Section Comparison.
Context {A : Type} (comparefn : A -> A -> number).

(** [a <CF b], [a =CF b] and [a >CF b] *)
Definition cf_lt (a b : A) : Prop := num_lt0 (comparefn a b) = true.
Definition cf_eq (a b : A) : Prop := num_eq0 (comparefn a b) = true.
Definition cf_gt (a b : A) : Prop := num_gt0 (comparefn a b) = true.

Definition consistent_comparison (l : list A) : Prop :=
  (forall a b, In a l -> In b l -> is_NaN (comparefn a b) = false) /\
  (forall a, In a l -> cf_eq a a) /\
  (forall a b, In a l -> In b l -> cf_eq a b -> cf_eq b a) /\
  (forall a b c, In a l -> In b l -> In c l ->
     cf_eq a b -> cf_eq b c -> cf_eq a c) /\
  (forall a b c, In a l -> In b l -> In c l ->
     cf_lt a b -> cf_lt b c -> cf_lt a c) /\
  (forall a b c, In a l -> In b l -> In c l ->
     cf_gt a b -> cf_gt b c -> cf_gt a c).

(** [a] may stand before [b] in the sorted array: [b] does not compare
    less than [a]. *)
Definition may_precede (a b : A) : Prop := num_lt0 (comparefn b a) = false.

End Comparison.

Class ArraySort : Type := {
  Array_sort : forall {A : Type}, (A -> A -> number) -> list A -> list A;
  Array_sort_perm :
    forall {A : Type} (comparefn : A -> A -> number) (l : list A),
      Array_sort comparefn l ≡ₚ l;
  Array_sort_ordered :
    forall {A : Type} (comparefn : A -> A -> number) (l : list A),
      consistent_comparison comparefn l ->
      StronglySorted (may_precede comparefn) (Array_sort comparefn l);
}.

Arguments Array_sort {_ A} comparefn l.
Arguments Array_sort_perm {_ A} comparefn l.
Arguments Array_sort_ordered {_ A} comparefn l.

(** Two implementations of the contract.  The stable insertion sort
    moves [x] behind [y] only when [comparefn(x, y) > 0]; the examples
    run with it.  The second one sorts downwards and reverses the
    result, which leaves tied elements in reverse order. *)
Fixpoint sort_insert {A : Type} (comparefn : A -> A -> number)
    (x : A) (l : list A) : list A :=
  match l with
  | [] => [x]
  | y :: l' =>
      if num_gt0 (comparefn x y) then y :: sort_insert comparefn x l'
      else x :: l
  end.

Definition insertion_sort {A : Type} (comparefn : A -> A -> number)
    (l : list A) : list A :=
  foldr (sort_insert comparefn) [] l.


(** ** d3 primitives *)

(** [d3.min(array, f)] and [d3.max(array, f)]: undefined values of the
    accessor are skipped; [None] is [undefined]. *)
Definition extremum_step {A B : Type} (better : B -> B -> bool)
    (f : A -> option B) (a : option B) (x : A) : option B :=
  match f x, a with
  | None, _ => a
  | Some b, None => Some b
  | Some b, Some a' => if better b a' then Some b else Some a'
  end.

Definition d3_extremum {A B : Type} (better : B -> B -> bool)
    (array : list A) (f : A -> option B) : option B :=
  foldl (extremum_step better f) None array.

Definition d3_min {A : Type} (array : list A) (f : A -> option Q) : option Q :=
  d3_extremum Qltb array f.

Definition d3_max {A : Type} (array : list A) (f : A -> option Q) : option Q :=
  d3_extremum (fun b a => Qltb a b) array f.

Definition d3_max_nat (array : list nat) : option nat :=
  d3_extremum (fun b a => (a <? b)%nat) array Some.

(** [d3.range(n)] *)
Definition d3_range (n : nat) : list nat := seq 0 n.

(** The keys kept by [d3.set] and by the index of an ordinal scale, in
    insertion order. *)
Definition set_add {K : Type} `{EqDecision K} (keys : list K) (k : K)
  : list K :=
  if decide (k ∈ keys) then keys else keys ++ [k].

Definition insertion_keys {K : Type} `{EqDecision K} (l : list K) : list K :=
  foldl set_add [] l.

(** [d3.set(array).values()].  The set keeps its members as property
    names of an object and [values] enumerates them with [for..in]:
    array indices first, in ascending numeric order, then the other
    names in insertion order. *)
Definition for_in_order (keys : list string) : list string :=
  map N_toString (merge_sort N.le (omap array_index keys))
    ++ List.filter (fun k => negb (is_array_index k)) keys.

Definition d3_set_values (array : list string) : list string :=
  for_in_order (insertion_keys array).

(** [d3.scale.linear().domain([d0, d1]).range([r0, r1])] *)
Definition d3_uninterpolateNumber (a b : number) : number -> number :=
  let b1 := num_sub b a in
  let b2 := if num_truthy b1 then b1 else num_div (Fin 1) b1 in
  fun x => num_div (num_sub x a) b2.

Definition d3_interpolateNumber (a b : number) : number -> number :=
  fun t => num_add (num_mul a (num_sub (Fin 1) t)) (num_mul b t).

Definition d3_scale_linear (domain range : number * number)
  : number -> number :=
  let u := d3_uninterpolateNumber (fst domain) (snd domain) in
  let i := d3_interpolateNumber (fst range) (snd range) in
  fun x => i (u x).

(** [Number(x)] of a value that is a number or undefined. *)
Definition Number_of (o : option Q) : number :=
  match o with Some q => Fin q | None => NaN end.

(** [d3.scale.ordinal().domain(domain)...]: the position of [x] in the
    domain selects the range element, cyclically.  A value outside the
    domain is undefined for a [rangePoints] scale; for an explicit range
    ([implicit = true]) it gets the position after the last one. *)
Definition d3_scale_ordinal {K R : Type} `{EqDecision K}
    (domain : list K) (range : list R) (implicit : bool) (x : K)
  : option R :=
  let dom := insertion_keys domain in
  match list_find (fun d => d = x) dom with
  | Some (k, _) => range !! (k mod length range)
  | None => if implicit then range !! (length dom mod length range) else None
  end.

(** [.rangePoints([start, stop])] with no padding. *)
Definition d3_rangePoints (n : nat) (start stop : Q) : list Q :=
  let step : Q :=
    if (n <? 2)%nat then 0%Q else ((stop - start) / inject_Z (Z.of_nat n - 1))%Q in
  let start' : Q := if (n <? 2)%nat then ((start + stop) / 2)%Q else start in
  map (fun i => (start' + step * inject_Z (Z.of_nat i))%Q) (d3_range n).

Definition d3_svg_symbolTypes : list string :=
  ["circle"; "cross"; "diamond"; "square"; "triangle-down"; "triangle-up"].

(** The elements an axis draws into its group: one tick group per tick
    value and the domain path.  Tick labels are not modelled. *)
Definition d3_svg_axis (ticks : list number) : list node :=
  map (fun t => Node "g" ["tick"] [("value", ANum t)]
                  [Node "line" [] [] []; Node "text" [] [] []]) ticks
    ++ [Node "path" ["domain"] [] []].

Definition lift {A : Type} (r : result A) : M A := fun s => (r, s).

Record padding_t : Type := Padding {
  top : Q;
  left : Q;
  right : Q;
  bottom : Q;
}.

(** The object returned by [computedProps].  [yFormat] is left out: the
    source computes it and does not use it.  [xDomain] and [yDomain] are
    the domains that the scale objects [xScale] and [yScale] carry. *)
Record computed : Type := Computed {
  padding : padding_t;
  sortedData : loc;
  plotWidth : Q;
  plotHeight : Q;
  yScale : number -> number;
  xScale : nat -> jsval;
  xTicks : list nat;
  shapeScale : jsval -> jsval;
  shapeValues : list string;
  colorValues : list string;
  displayXAxis : bool;
  xlabelHeight : Q;
  legendWidth : Q;
  xDomain : list nat;
  yDomain : number * number;
}.

Record slice_t : Type := Slice {
  slice_formData : formData;
  slice_width : Q;
  slice_height : Q;
}.

(** [json.data]: the array of series (by reference) and the optional
    array of reference lines; [None] is an absent or null [yLines]. *)
Record json_t : Type := Json {
  json_data : loc;
  json_yLines : option (list number);
}.

(** ** Instances used in the examples

    The examples run the renderer with the following stand-ins for its
    parameters. *)

(** Unary plus on strings of decimal digits and on words without a
    numeric literal; the empty string is [0]. *)
Definition digits_ToNumber (s : string) : number :=
  match parse_digits s 0%N with
  | Some n => Fin (inject_Z (Z.of_N n))
  | None => NaN
  end.

(** The number printer on integers; the examples print no other
    number. *)
Definition integer_ToString (n : number) : string :=
  match n with
  | NaN => "NaN"
  | Inf s => if s then "-Infinity" else "Infinity"
  | Fin q =>
      let z := Qfloor q in
      if (z <? 0)%Z then String "-" (N_toString (Z.abs_N z))
      else N_toString (Z.abs_N z)
  end.

(** A color lookup that draws a category in the color it names. *)
Definition named_color (s scheme : jsval) : jsval := s.

(** Every legend key measures 50 wide. *)
Definition fixed_bbox (n : node) : Q := 50.

(** An axis without ticks. *)
Definition no_ticks (domain : number * number) : list number := [].

Definition example_fd : formData :=
  FormData (JString "bnbColors") (JString ".3s") (JString "value")
    (JString "group").

Definition mk_point (yv : Q) (c s : string) : point :=
  Point yv (JString c) (JString s) JUndefined.

(** The dataset of the specification's example. *)
Definition example_data : list series :=
  [Series "g1" [mk_point 1 "a" "x"]; Series "g2" [mk_point 5 "b" "y"]].

(** The same two series with the colors exchanged. *)
Definition swapped_data : list series :=
  [Series "g1" [mk_point 1 "b" "x"]; Series "g2" [mk_point 5 "a" "y"]].

(** Two series whose first colors are the numerals 2 and 1. *)
Definition unsorted_data : list series :=
  [Series "g1" [mk_point 1 "2" "x"]; Series "g2" [mk_point 5 "1" "y"]].


(** One series whose points have the colors "10" and "2", in this
    order. *)
Definition numeral_colors_data : list series :=
  [Series "g" [mk_point 1 "10" "x"; mk_point 2 "2" "x"]].


(** Two series in the order of their first colors, 1 and 2. *)
Definition ordered_data : list series :=
  [Series "g2" [mk_point 5 "1" "y"]; Series "g1" [mk_point 1 "2" "x"]].

(** One series whose two points have the same [y]. *)
Definition level_data : list series :=
  [Series "g" [mk_point 3 "a" "x"; mk_point 3 "b" "y"]].

(** Two points at [-2^1023] and [2^1023], both numbers of double
    precision. *)
Definition far_apart_data : list series :=
  [Series "g1" [mk_point (- inject_Z (2 ^ 1023)) "1" "x"];
   Series "g2" [mk_point (inject_Z (2 ^ 1023)) "2" "y"]].

Definition example_state (data : list series) : state :=
  State {[ 1%positive := data ]} [].

Definition example_slice (width height : Q) : slice_t :=
  Slice example_fd width height.

Section Renderer.

(** The numeric-literal grammar behind unary plus on a string, the
    number printer behind string concatenation, the color lookup of
    [modules/colors], the width of an element's bounding box, the tick
    values d3 picks for a linear scale, and the implementation of
    [Array.prototype.sort]. *)
Context (StringToNumber : string -> number)
        (NumberToString : number -> string)
        (getColorFromScheme : jsval -> jsval -> jsval)
        (getBBox_width : node -> Q)
        (d3_linear_ticks : number * number -> list number)
        {array_sort : ArraySort}.

Set Default Proof Using "Type".

(** Forgets the parameters a statement does not mention, so that the
    decision procedures do not pick them up. *)
Ltac forget_parameters :=
  try clear array_sort; try clear d3_linear_ticks; try clear getBBox_width;
  try clear getColorFromScheme; try clear NumberToString;
  try clear StringToNumber.

(** [+v] *)
Definition ToNumber (v : jsval) : number :=
  match v with
  | JUndefined => NaN
  | JNull => Fin 0
  | JBool b => if b then Fin 1 else Fin 0
  | JNumber n => n
  | JString s => StringToNumber s
  end.

(** [v + ""] *)
Definition ToString (v : jsval) : string :=
  match v with
  | JUndefined => "undefined"
  | JNull => "null"
  | JBool b => if b then "true" else "false"
  | JNumber n => NumberToString n
  | JString s => s
  end.

(** [pickFirst(array, attr, defaultValue = null)] *)
Definition pickFirst (array : list point) (attr : string)
    (defaultValue : jsval) : jsval :=
  match array with
  | v :: _ => get_attr attr v
  | [] => defaultValue
  end.

(** The comparator of [sortData]:
    [(a, b) => +pickFirst(a.values, sortBy) - +pickFirst(b.values, sortBy)] *)
Definition sortKey (sortBy : string) (a : series) : number :=
  ToNumber (pickFirst (values a) sortBy JNull).

Definition comparator (sortBy : string) (a b : series) : number :=
  num_sub (sortKey sortBy a) (sortKey sortBy b).

(** [sortData(data, sortBy)]: sorts the array in place and returns it. *)
Definition sortData (data : loc) (sortBy : string) : M loc :=
  arr <- read_array data ;;
  write_array data (Array_sort (comparator sortBy) arr) ;;;
  ret data.

(** [computeTickInterval(data)] *)
Definition computeTickInterval (data : list nat) : result Q :=
  match d3_max_nat data with
  | None => Throw (TypeError "Cannot read property 'toString' of undefined")
  | Some maxValue =>
      let nDigits := String.length (Nat_toString maxValue) in
      let interval : Q := Nat.iter (nDigits - 1) (fun i => (10 * i)%Q) 1%Q in
      Ok (interval / 2)%Q
  end.

(** [d => !(d % interval)] *)
Definition is_tick (interval : Q) (d : nat) : bool :=
  negb (num_truthy (num_rem (Fin (inject_Z (Z.of_nat d))) (Fin interval))).

(** [computedProps({ fd, data, width, height })] *)
Definition computedProps (fd : formData) (data : loc) (width height : Q)
  : M computed :=
  let padding := Padding 20 60 20 60 in
  let plotWidth : Q := (width - (right padding + left padding))%Q in
  let legendWidth := plotWidth in
  let legendHeight : Q := (height * (7 # 100))%Q in
  let xlabelHeight : Q := (height * (3 # 100))%Q in
  let plotHeight : Q :=
    (height - (top padding + bottom padding + legendHeight + xlabelHeight))%Q in
  sortedData <- sortData data "color" ;;
  sorted <- read_array sortedData ;;
  let yMin := d3_min sorted (fun d => d3_min (values d) (fun v => Some (y v))) in
  let yMax := d3_max sorted (fun d => d3_max (values d) (fun v => Some (y v))) in
  let yDomain := (Number_of yMin, Number_of yMax) in
  let yScale := d3_scale_linear yDomain (Fin plotHeight, Fin 0) in
  let xDomain := d3_range (length sorted) in
  let xRange := d3_rangePoints (length xDomain) 0 plotWidth in
  let xScale := fun i =>
    match d3_scale_ordinal xDomain xRange false i with
    | Some x => JNumber (Fin x)
    | None => JUndefined
    end in
  arr <- read_array data ;;
  let colorValuesAll := map (fun d => map (fun v => color v) (values d)) arr in
  let colorValues := d3_set_values (map ToString (concat colorValuesAll)) in
  let shapeValuesAll := map (fun d => map (fun v => shape v) (values d)) arr in
  let shapeValues := d3_set_values (map ToString (concat shapeValuesAll)) in
  let shapeScale := fun v =>
    match d3_scale_ordinal shapeValues d3_svg_symbolTypes true (ToString v) with
    | Some s => JString s
    | None => JUndefined
    end in
  let displayXAxis := true in
  interval <- lift (computeTickInterval xDomain) ;;
  let xTicks := List.filter (is_tick interval) xDomain in
  ret (Computed padding sortedData plotWidth plotHeight yScale xScale xTicks
         shapeScale shapeValues colorValues displayXAxis xlabelHeight
         legendWidth xDomain yDomain).

(** *** The legend *)

Definition paddingY : Q := 20.
Definition paddingX : Q := 16.

(** The row-wrapping pass of [fixUpLegend] over the measured widths:
    the position given to every key. *)
Definition place_key (legendWidth : Q) (st : Q * Q * list (Q * Q)) (width : Q)
  : Q * Q * list (Q * Q) :=
  let '(currentX, currentY, adjustments) := st in
  let '(currentX, currentY) :=
    if Qleb legendWidth (currentX + width)
    then (0%Q, (currentY + paddingY)%Q)
    else (currentX, currentY) in
  let nextPos := (currentX, currentY) in
  ((currentX + (width + paddingX))%Q, currentY, adjustments ++ [nextPos]).

Definition legend_adjustments (legendWidth : Q) (widths : list Q)
  : list (Q * Q) :=
  snd (foldl (place_key legendWidth) (0%Q, paddingY, []) widths).

(** [fixUpLegend(legend, props)] *)
Definition fixUpLegend (legend : node) (plotHeight legendWidth xlabelHeight : Q)
  : node :=
  let legend :=
    set_attr "transform"
      (ATranslate (JNumber (Fin 0)) (JNumber (Fin (plotHeight + xlabelHeight))))
      legend in
  let bboxes := map getBBox_width (selectAll "key" legend) in
  let adjustments := legend_adjustments legendWidth bboxes in
  fst (update_selected "key"
         (fun i k =>
            match adjustments !! i with
            | Some (x, y) =>
                set_attr "transform"
                  (ATranslate (JNumber (Fin x)) (JNumber (Fin y))) k
            | None => k
            end) 0 legend).

Definition color_key (fd : formData) (d : string) : node :=
  Node "g" ["key"; "color"] []
    [Node "circle" ["point"; "key-symbol"]
       [("r", ANum (Fin 5));
        ("fill", AVal (getColorFromScheme (JString d) (scheme fd)))] [];
     Node "text" ["key-text"]
       [("x", ANum (Fin 10)); ("y", ANum (Fin 5)); ("text", AStr d)] []].

Definition shape_key (shapeScale : jsval -> jsval) (d : string) : node :=
  Node "g" ["key"; "shape"] []
    [Node "path" ["point"; "key-symbol"]
       [("d", ASymbol (shapeScale (JString d)))] [];
     Node "text" ["key-text"]
       [("x", ANum (Fin 10)); ("y", ANum (Fin 5)); ("text", AStr d)] []].

(** [renderLegend(legend, props)] *)
Definition renderLegend (legend : node) (fd : formData) (p : computed) : node :=
  let colorsEnter := d3_enter (selectAll "color" legend) (colorValues p) in
  let legend :=
    append_children legend (map (fun e => color_key fd (snd e)) colorsEnter) in
  let shapesEnter := d3_enter (selectAll "shape" legend) (shapeValues p) in
  let legend :=
    append_children legend
      (map (fun e => shape_key (shapeScale p) (snd e)) shapesEnter) in
  fixUpLegend legend (plotHeight p) (legendWidth p) (xlabelHeight p).

(** *** The chart *)

Definition point_mark (fd : formData) (p : computed) (d : point) : node :=
  Node "path" ["point"]
    [("d", ASymbol (shapeScale p (shape d)));
     ("transform",
      ATranslate (JNumber (Fin 0)) (JNumber (yScale p (Fin (y d)))));
     ("style.fill", AVal (getColorFromScheme (color d) (scheme fd)))] [].

Definition band_group (fd : formData) (p : computed) (i : nat) (d : series)
  : node :=
  let band :=
    Node "g" ["band"]
      [("transform", ATranslate (xScale p i) (JNumber (Fin 0)))] [] in
  append_children band
    (map (fun e => point_mark fd p (snd e))
       (d3_enter (selectAll "point" band) (values d))).

Definition line_mark (p : computed) (d : number) : node :=
  Node "line" ["line"]
    [("stroke", AStr "red");
     ("stroke-width", ANum (Fin (3 # 2)));
     ("x1", ANum (Fin 0));
     ("x2", ANum (Fin (plotWidth p)));
     ("y1", ANum (yScale p d));
     ("y2", ANum (yScale p d))] [].

(** The content of the chart group [g], in the order the source appends
    it: the two axis groups and the legend group, the bands, the
    reference lines.  The legend group is filled last; the selections
    made on [g] before that see it empty. *)
Definition chart_group (fd : formData) (p : computed) (sorted : list series)
    (yLines : option (list number)) : node :=
  let g :=
    Node "g" []
      [("transform",
        ATranslate (JNumber (Fin (left (padding p))))
                   (JNumber (Fin (top (padding p)))))] [] in
  let yAxis := Node "g" ["y"; "axis"] [] [] in
  let xAxis :=
    Node "g" ["x"; "axis"]
      [("transform",
        ATranslate (JNumber (Fin 0)) (JNumber (Fin (plotHeight p))))] [] in
  let legend := Node "g" ["legend"] [] [] in
  let yAxis := append_children yAxis (d3_svg_axis (d3_linear_ticks (yDomain p))) in
  let xAxis :=
    if displayXAxis p
    then append_children xAxis
           (d3_svg_axis (map (fun t => Fin (inject_Z (Z.of_nat t))) (xTicks p)))
    else xAxis in
  let g1 := append_children g [yAxis; xAxis; legend] in
  let bands :=
    map (fun e => band_group fd p (fst e) (snd e))
      (d3_enter (selectAll "band" g1) sorted) in
  let g2 := append_children g1 bands in
  let lines :=
    match yLines with
    | Some yLines => map (fun e => line_mark p (snd e))
                       (d3_enter (selectAll "line" g2) yLines)
    | None => []
    end in
  let legend := renderLegend legend fd p in
  append_children
    (append_children (append_children g [yAxis; xAxis; legend]) bands) lines.

Definition axis_label (attrs : list (string * attr_value)) (label : jsval)
  : node :=
  Node "text" []
    (attrs ++ [("style.text-anchor", AStr "middle"); ("text", AVal label)]) [].

(** [scatCatViz(slice, json)].  The tooltip element is appended to the
    document body, outside the container, and the mouse handlers of the
    points change nothing until an event fires; neither is modelled. *)
Definition scatCatViz (slice : slice_t) (json : json_t) : M unit :=
  set_container [] ;;;
  let fd := slice_formData slice in
  let width := slice_width slice in
  let height := slice_height slice in
  let data := json_data json in
  let yLines := json_yLines json in
  p <- computedProps fd data width height ;;
  sorted <- read_array (sortedData p) ;;
  let g := chart_group fd p sorted yLines in
  let yLabel :=
    axis_label
      [("transform", AStr "rotate(-90)");
       ("x", ANum (Fin (0 - plotHeight p / 2)));
       ("y", ANum (Fin (left (padding p) / 5)))]
      (y_axis_label fd) in
  let xLabel :=
    axis_label
      [("x", ANum (Fin (plotWidth p / 2)));
       ("y", ANum (Fin (top (padding p) + plotHeight p
                        + xlabelHeight p * (11 # 10))))]
      (x_axis_label fd) in
  let svg :=
    Node "svg" []
      [("width", ANum (Fin width)); ("height", ANum (Fin height))]
      [g; yLabel; xLabel] in
  set_container [svg].

(** *** The earlier version of the renderer

    The repository holds an earlier version of the same file, without
    legend, axis labels and tick computation.  Its [pickFirst] and
    [sortData] are the ones above. *)

(** [computedProps] of the earlier version.  The object it returns has
    no [xTicks], [shapeValues], [colorValues], [xlabelHeight] and
    [legendWidth]; the earlier renderer reads none of these fields of
    the record, which hold the empty list, the local constants of the
    same names, and zero.  [colorScale] and [yFormat] are left out: the
    source computes them and does not use them. *)
Definition computedProps_earlier (fd : formData) (data : loc)
    (width height : Q) : M computed :=
  let padding := Padding 20 50 20 50 in
  let plotWidth : Q := (width - (right padding + left padding))%Q in
  let plotHeight : Q := (height - (top padding + bottom padding))%Q in
  sortedData <- sortData data "color" ;;
  sorted <- read_array sortedData ;;
  let yMin := d3_min sorted (fun d => d3_min (values d) (fun v => Some (y v))) in
  let yMax := d3_max sorted (fun d => d3_max (values d) (fun v => Some (y v))) in
  let yDomain := (Number_of yMin, Number_of yMax) in
  let yScale := d3_scale_linear yDomain (Fin plotHeight, Fin 0) in
  let xDomain := d3_range (length sorted) in
  let xRange := d3_rangePoints (length xDomain) 0 plotWidth in
  let xScale := fun i =>
    match d3_scale_ordinal xDomain xRange false i with
    | Some x => JNumber (Fin x)
    | None => JUndefined
    end in
  arr <- read_array data ;;
  let colorValuesAll := map (fun d => map (fun v => color v) (values d)) arr in
  let colorValues := d3_set_values (map ToString (concat colorValuesAll)) in
  let shapeValuesAll := map (fun d => map (fun v => shape v) (values d)) arr in
  let shapeValues := d3_set_values (map ToString (concat shapeValuesAll)) in
  let shapeScale := fun v =>
    match d3_scale_ordinal shapeValues d3_svg_symbolTypes true (ToString v) with
    | Some s => JString s
    | None => JUndefined
    end in
  let displayXAxis := false in
  ret (Computed padding sortedData plotWidth plotHeight yScale xScale []
         shapeScale shapeValues colorValues displayXAxis 0 0 xDomain yDomain).

(** The chart group of the earlier version: the legend group stays
    empty, and an x axis, if displayed, has a tick for every index. *)
Definition chart_group_earlier (fd : formData) (p : computed)
    (sorted : list series) (yLines : option (list number)) : node :=
  let g :=
    Node "g" []
      [("transform",
        ATranslate (JNumber (Fin (left (padding p))))
                   (JNumber (Fin (top (padding p)))))] [] in
  let yAxis := Node "g" ["y"; "axis"] [] [] in
  let xAxis :=
    Node "g" ["x"; "axis"]
      [("transform",
        ATranslate (JNumber (Fin 0))
          (JNumber (Fin (plotHeight p + top (padding p) / 2))))] [] in
  let legend := Node "g" ["legend"] [] [] in
  let yAxis := append_children yAxis (d3_svg_axis (d3_linear_ticks (yDomain p))) in
  let xAxis :=
    if displayXAxis p
    then append_children xAxis
           (d3_svg_axis (map (fun t => Fin (inject_Z (Z.of_nat t))) (xDomain p)))
    else xAxis in
  let g1 := append_children g [yAxis; xAxis; legend] in
  let bands :=
    map (fun e => band_group fd p (fst e) (snd e))
      (d3_enter (selectAll "band" g1) sorted) in
  let g2 := append_children g1 bands in
  let lines :=
    match yLines with
    | Some yLines => map (fun e => line_mark p (snd e))
                       (d3_enter (selectAll "line" g2) yLines)
    | None => []
    end in
  append_children g2 lines.

(** [scatCatViz(slice, json)] of the earlier version. *)
Definition scatCatViz_earlier (slice : slice_t) (json : json_t) : M unit :=
  set_container [] ;;;
  let fd := slice_formData slice in
  let width := slice_width slice in
  let height := slice_height slice in
  let data := json_data json in
  let yLines := json_yLines json in
  p <- computedProps_earlier fd data width height ;;
  sorted <- read_array (sortedData p) ;;
  let g := chart_group_earlier fd p sorted yLines in
  let svg :=
    Node "svg" []
      [("width", ANum (Fin width)); ("height", ANum (Fin height))] [g] in
  set_container [svg].

(** ** Notions used in the statements *)

(** The states reached and the results returned. *)
Definition final_state {A : Type} (m : M A) (s : state) : state := snd (m s).
Definition outcome {A : Type} (m : M A) (s : state) : result A := fst (m s).

(** The chart container with its content. *)
Definition root (s : state) : node := Node "div" [] [] (container s).

Definition band_groups (s : state) : list node := selectAll "band" (root s).
Definition point_marks (s : state) : list node :=
  flat_map (selectAll "point") (band_groups s).
Definition reference_lines (s : state) : list node := selectAll "line" (root s).
Definition color_keys (s : state) : list node := selectAll "color" (root s).
Definition shape_keys (s : state) : list node := selectAll "shape" (root s).

Definition total_points (data : list series) : nat :=
  sum_list (map (fun d => length (values d)) data).

Definition all_points (data : list series) : list point :=
  concat (map values data).

(** The distinct elements of a list, each at its first occurrence. *)
Fixpoint first_seen {K : Type} `{EqDecision K} (l : list K) : list K :=
  match l with
  | [] => []
  | x :: l' => x :: List.filter (fun k => negb (bool_decide (k = x))) (first_seen l')
  end.

(** The order of numbers; NaN is not comparable. *)
Definition num_le (a b : number) : Prop :=
  match a, b with
  | NaN, _ | _, NaN => False
  | Inf s, Inf t => s = true \/ t = false
  | Inf s, Fin _ => s = true
  | Fin _, Inf t => t = false
  | Fin p, Fin q => (p <= q)%Q
  end.

(** The object [computedProps] returns for the sorted array [sorted]
    and the tick interval [interval]. *)
Definition props_of (data : loc) (sorted : list series) (width height : Q)
    (interval : Q) : computed :=
  let padding := Padding 20 60 20 60 in
  let plotWidth : Q := (width - (right padding + left padding))%Q in
  let plotHeight : Q :=
    (height - (top padding + bottom padding + height * (7 # 100)
               + height * (3 # 100)))%Q in
  let yMin := d3_min sorted (fun d => d3_min (values d) (fun v => Some (y v))) in
  let yMax := d3_max sorted (fun d => d3_max (values d) (fun v => Some (y v))) in
  let yDomain := (Number_of yMin, Number_of yMax) in
  let xDomain := d3_range (length sorted) in
  let xRange := d3_rangePoints (length xDomain) 0 plotWidth in
  let shapeValues :=
    d3_set_values
      (map ToString (concat (map (fun d => map (fun v => shape v) (values d))
                               sorted))) in
  Computed padding data plotWidth plotHeight
    (d3_scale_linear yDomain (Fin plotHeight, Fin 0))
    (fun i =>
       match d3_scale_ordinal xDomain xRange false i with
       | Some x => JNumber (Fin x)
       | None => JUndefined
       end)
    (List.filter (is_tick interval) xDomain)
    (fun v =>
       match d3_scale_ordinal shapeValues d3_svg_symbolTypes true (ToString v) with
       | Some s => JString s
       | None => JUndefined
       end)
    shapeValues
    (d3_set_values
       (map ToString (concat (map (fun d => map (fun v => color v) (values d))
                                sorted))))
    true (height * (3 # 100))%Q plotWidth xDomain yDomain.

(** The object [computedProps] of the earlier version returns for the
    sorted array [sorted]. *)
Definition props_of_earlier (data : loc) (sorted : list series)
    (width height : Q) : computed :=
  let padding := Padding 20 50 20 50 in
  let plotWidth : Q := (width - (right padding + left padding))%Q in
  let plotHeight : Q := (height - (top padding + bottom padding))%Q in
  let yMin := d3_min sorted (fun d => d3_min (values d) (fun v => Some (y v))) in
  let yMax := d3_max sorted (fun d => d3_max (values d) (fun v => Some (y v))) in
  let yDomain := (Number_of yMin, Number_of yMax) in
  let xDomain := d3_range (length sorted) in
  let xRange := d3_rangePoints (length xDomain) 0 plotWidth in
  let shapeValues :=
    d3_set_values
      (map ToString (concat (map (fun d => map (fun v => shape v) (values d))
                               sorted))) in
  Computed padding data plotWidth plotHeight
    (d3_scale_linear yDomain (Fin plotHeight, Fin 0))
    (fun i =>
       match d3_scale_ordinal xDomain xRange false i with
       | Some x => JNumber (Fin x)
       | None => JUndefined
       end)
    []
    (fun v =>
       match d3_scale_ordinal shapeValues d3_svg_symbolTypes true (ToString v) with
       | Some s => JString s
       | None => JUndefined
       end)
    shapeValues
    (d3_set_values
       (map ToString (concat (map (fun d => map (fun v => color v) (values d))
                                sorted))))
    false 0 0 xDomain yDomain.

(** The sort key of the series is a finite number. *)
Definition finite_key (sortBy : string) (d : series) : Prop :=
  exists q : Q, sortKey sortBy d = Fin q.

(** The rational is within the range of double precision: as the result
    of an operation it does not overflow. *)
Definition in_double_range (q : Q) : Prop :=
  (- overflow_bound < q < overflow_bound)%Q.

(** The row-wrapping pass as a recursion on the widths still to place,
    from the current position. *)
Fixpoint legend_place (legendWidth currentX currentY : Q) (widths : list Q)
  : list (Q * Q) :=
  match widths with
  | [] => []
  | width :: widths' =>
      let '(x, y) :=
        if Qleb legendWidth (currentX + width)
        then (0%Q, (currentY + paddingY)%Q)
        else (currentX, currentY) in
      (x, y) :: legend_place legendWidth (x + (width + paddingX))%Q y widths'
  end.

(** The keys of a legend with the positions given to them, and their
    rows: maximal runs of keys on the same line. *)
Record placed_key : Type := Placed {
  key_width : Q;
  key_x : Q;
  key_y : Q;
}.

Definition placed_keys (legendWidth : Q) (widths : list Q) : list placed_key :=
  zip_with (fun w p => Placed w (fst p) (snd p)) widths
    (legend_adjustments legendWidth widths).

Fixpoint rows_of (keys : list placed_key) : list (list placed_key) :=
  match keys with
  | [] => []
  | k :: keys' =>
      match rows_of keys' with
      | (k' :: row) :: rows =>
          if Qeq_bool (key_y k) (key_y k') then (k :: k' :: row) :: rows
          else [k] :: (k' :: row) :: rows
      | _ => [[k]]
      end
  end.

Definition Qsum (l : list Q) : Q := foldr Qplus 0%Q l.

(** The width a row occupies: its keys and the gaps between them. *)
Definition row_width (row : list placed_key) : Q :=
  (Qsum (map key_width row)
   + paddingX * inject_Z (Z.of_nat (length row - 1)))%Q.

(** The keys placed from the position [(cx, cy)] on, and the condition
    on a row: the first row goes on from [cx] when it stays on the
    current line. *)
Definition keys_from (legendWidth cx cy : Q) (widths : list Q)
  : list placed_key :=
  zip_with (fun w p => Placed w (fst p) (snd p)) widths
    (legend_place legendWidth cx cy widths).

Definition row_ok (legendWidth cx cy : Q) (row : list placed_key) : Prop :=
  match row with
  | [] => True
  | k :: _ =>
      if Qeq_bool cy (key_y k) then (cx + row_width row <= legendWidth)%Q
      else (row_width row <= legendWidth)%Q
  end.

(** The keys of a row stand side by side from [x] on, [paddingX]
    apart. *)
Fixpoint row_positions (x : Q) (row : list placed_key) : Prop :=
  match row with
  | [] => True
  | k :: row' =>
      (key_x k == x)%Q /\
      row_positions (x + (key_width k + paddingX))%Q row'
  end.

(** The elements of class [cls] among the elements [l] and below
    them, in document order. *)
Definition select_below (cls : string) (l : list node) : list node :=
  List.filter (has_class cls) (flat_map (fun c => c :: descendants c) l).

(** The transform [fixUpLegend] gives to the [i]-th key. *)
Definition position_key (adjustments : list (Q * Q)) (i : nat) (k : node)
  : node :=
  match adjustments !! i with
  | Some (x, y) =>
      set_attr "transform" (ATranslate (JNumber (Fin x)) (JNumber (Fin y))) k
  | None => k
  end.

(** The group of the series of rank [i]. *)
Definition band_of (fd : formData) (p : computed) (i : nat) (d : series) : node :=
  Node "g" ["band"]
    [("transform", ATranslate (xScale p i) (JNumber (Fin 0)))]
    (map (point_mark fd p) (values d)).

Definition lines_of (p : computed) (yLines : option (list number)) : list node :=
  match yLines with
  | Some yLines => map (line_mark p) yLines
  | None => []
  end.


(** What a legend key shows: its label and its visual mark (the fill of
    a color key, the symbol of a shape key). *)
Definition key_label (k : node) : option attr_value :=
  match children_of k with
  | [_; t] => get_attribute "text" t
  | _ => None
  end.

Definition key_visual (k : node) : option attr_value :=
  match children_of k with
  | c :: _ =>
      match get_attribute "fill" c with
      | Some v => Some v
      | None => get_attribute "d" c
      end
  | [] => None
  end.

(** The symbol type at a position of the shape domain. *)
Definition symbol_at (i : nat) : jsval :=
  match d3_svg_symbolTypes !! (i mod length d3_svg_symbolTypes) with
  | Some t => JString t
  | None => JUndefined
  end.

Definition named_key (k : string) : bool := negb (is_array_index k).

(** The series of rank [i] stands at the horizontal position [q]. *)
Definition stands_at (p : computed) (i : nat) (q : Q) : Prop :=
  exists x : Q, xScale p i = JNumber (Fin x) /\ (x == q)%Q.



(** The vertical offset of a point mark: the second component of its
    translation. *)
Definition mark_offset (m : node) : option Q :=
  match get_attribute "transform" m with
  | Some (ATranslate (JNumber (Fin x)) (JNumber (Fin y))) =>
      if Qis_zero x then Some y else None
  | _ => None
  end.

(** The legend keys before they are positioned. *)
Definition legend_keys (fd : formData) (p : computed) : list node :=
  map (color_key fd) (colorValues p)
    ++ map (shape_key (shapeScale p)) (shapeValues p).

(** ** Numbers *)

Lemma num_eq_refl a : a =n= a.
Proof. destruct a; simpl; auto. reflexivity. Qed.

Lemma num_eq_sym a b : a =n= b -> b =n= a.
Proof. destruct a, b; simpl; auto. intros H. symmetry. exact H. Qed.

Lemma num_eq_trans a b c : a =n= b -> b =n= c -> a =n= c.
Proof.
  forget_parameters.
  destruct a, b, c; simpl; try tauto; try congruence.
  intros H1 H2. rewrite H1. exact H2.
Qed.

Lemma Qltb_true a b : Qltb a b = true <-> (a < b)%Q.
Proof. unfold Qltb. destruct (Qlt_le_dec a b); split; try done; lra. Qed.

Lemma Qltb_false a b : Qltb a b = false <-> (b <= a)%Q.
Proof. unfold Qltb. destruct (Qlt_le_dec a b); split; try done; lra. Qed.

Lemma Qleb_true a b : Qleb a b = true <-> (a <= b)%Q.
Proof. unfold Qleb. destruct (Qlt_le_dec b a); split; try done; lra. Qed.

Lemma Qleb_false a b : Qleb a b = false <-> (b < a)%Q.
Proof. unfold Qleb. destruct (Qlt_le_dec b a); split; try done; lra. Qed.

Lemma Qis_zero_true q : Qis_zero q = true <-> (q == 0)%Q.
Proof. apply Qeq_bool_iff. Qed.

Lemma Qis_zero_false q : Qis_zero q = false <-> ~ (q == 0)%Q.
Proof.
  unfold Qis_zero. split.
  - apply Qeq_bool_neq.
  - intros H. destruct (Qeq_bool q 0) eqn:E; [|done].
    apply Qeq_bool_iff in E. contradiction.
Qed.

(** ** Overflow *)

Lemma overflow_bound_large : (1000 < overflow_bound)%Q.
Proof. by vm_compute. Qed.

Lemma finite_Fin (q : Q) : in_double_range q -> finite q = Fin q.
Proof.
  forget_parameters.
  intros [H1 H2]. unfold finite.
  rewrite (proj2 (Qleb_false overflow_bound q) H2).
  by rewrite (proj2 (Qleb_false q (- overflow_bound)) H1).
Qed.

Lemma finite_cases (q : Q) :
  (overflow_bound <= q)%Q /\ finite q = Inf false \/
  (q <= - overflow_bound)%Q /\ finite q = Inf true \/
  in_double_range q /\ finite q = Fin q.
Proof.
  forget_parameters.
  unfold finite, in_double_range.
  destruct (Qleb overflow_bound q) eqn:E1.
  { left. split; [by apply Qleb_true|done]. }
  destruct (Qleb q (- overflow_bound)) eqn:E2.
  { right. left. split; [by apply Qleb_true|done]. }
  right. right. apply Qleb_false in E1, E2. by repeat split.
Qed.

(** Overflow keeps the sign. *)
Lemma num_lt0_finite (q : Q) : num_lt0 (finite q) = Qsign_neg q.
Proof.
  forget_parameters.
  pose proof overflow_bound_large as Hb.
  destruct (finite_cases q) as [[H ->]|[[H ->]|[_ ->]]]; [| |done];
    cbn [num_lt0]; unfold Qsign_neg; destruct (Qlt_le_dec q 0); try done; lra.
Qed.

Lemma num_gt0_finite (q : Q) : num_gt0 (finite q) = Qltb 0 q.
Proof.
  forget_parameters.
  pose proof overflow_bound_large as Hb.
  destruct (finite_cases q) as [[H ->]|[[H ->]|[_ ->]]]; [| |done];
    cbn [num_gt0 negb]; unfold Qltb; destruct (Qlt_le_dec 0 q); try done; lra.
Qed.

Lemma num_eq0_finite (q : Q) : num_eq0 (finite q) = Qis_zero q.
Proof.
  forget_parameters.
  pose proof overflow_bound_large as Hb.
  destruct (finite_cases q) as [[H ->]|[[H ->]|[_ ->]]]; [| |done];
    cbn [num_eq0]; symmetry; apply Qis_zero_false; lra.
Qed.

Lemma is_NaN_finite (q : Q) : is_NaN (finite q) = false.
Proof.
  forget_parameters.
  by destruct (finite_cases q) as [[_ ->]|[[_ ->]|[_ ->]]].
Qed.

(** A number that is not NaN is negative, zero or positive, and only
    one of the three. *)
Lemma num_sign_cases (v : number) :
  is_NaN v = false ->
  num_lt0 v = true /\ num_eq0 v = false /\ num_gt0 v = false \/
  num_lt0 v = false /\ num_eq0 v = true /\ num_gt0 v = false \/
  num_lt0 v = false /\ num_eq0 v = false /\ num_gt0 v = true.
Proof.
  forget_parameters.
  destruct v as [|[]|q]; cbn [is_NaN num_lt0 num_eq0 num_gt0 negb];
    [done|auto|auto|]. intros _.
  unfold Qsign_neg. destruct (Qlt_le_dec q 0) as [Hn|Hn].
  - left. split; [done|]. split; [apply Qis_zero_false; lra|].
    destruct (Qlt_le_dec 0 q); [lra|done].
  - right. destruct (Qlt_le_dec 0 q) as [Hp|Hp].
    + right. split; [done|]. split; [apply Qis_zero_false; lra|done].
    + left. split; [done|]. split; [apply Qis_zero_true; lra|done].
Qed.

Lemma num_le_refl a : is_NaN a = false -> num_le a a.
Proof. destruct a as [|[]|q]; simpl; try done; auto. lra. Qed.

Lemma num_le_trans a b c : num_le a b -> num_le b c -> num_le a c.
Proof.
  forget_parameters.
  destruct a as [|[]|p], b as [|[]|q], c as [|[]|r]; simpl;
    try (intuition congruence).
  lra.
Qed.

Lemma num_le_total a b :
  is_NaN a = false -> is_NaN b = false -> num_le a b \/ num_le b a.
Proof.
  destruct a as [|[]|p], b as [|[]|q]; simpl; try done; auto.
  intros _ _. destruct (Qlt_le_dec p q); [left|right]; lra.
Qed.

(** ** The state monad *)

Lemma sortData_run (s : state) (data : loc) (sortBy : string) (arr : list series) :
  heap s !! data = Some arr ->
  sortData data sortBy s =
    (Ok data,
     State (<[data := Array_sort (comparator sortBy) arr]> (heap s))
       (container s)).
Proof.
  intros H. unfold sortData, bind, read_array, write_array, ret.
  rewrite H. reflexivity.
Qed.

Lemma sortData_missing (s : state) (data : loc) (sortBy : string) :
  heap s !! data = None ->
  exists e, sortData data sortBy s = (Throw e, s).
Proof.
  intros H. unfold sortData, bind, read_array. rewrite H. eauto.
Qed.

(** ** Sorting *)

Lemma sort_insert_perm {A : Type} (cmp : A -> A -> number) x l :
  sort_insert cmp x l ≡ₚ x :: l.
Proof.
  induction l as [|z l IH]; simpl; [done|].
  destruct (num_gt0 (cmp x z)); [|done].
  rewrite IH. apply Permutation_swap.
Qed.

Lemma insertion_sort_perm {A : Type} (cmp : A -> A -> number) l :
  insertion_sort cmp l ≡ₚ l.
Proof.
  induction l as [|x l IH]; simpl; [done|].
  rewrite sort_insert_perm. by rewrite IH.
Qed.

Lemma Array_sort_length {A : Type} (cmp : A -> A -> number) l :
  length (Array_sort cmp l) = length l.
Proof. by rewrite Array_sort_perm. Qed.

Lemma Array_sort_nil {A : Type} (cmp : A -> A -> number) :
  Array_sort cmp [] = [].
Proof. apply Permutation_nil_r, Array_sort_perm. Qed.

Lemma Array_sort_nil_inv {A : Type} (cmp : A -> A -> number) l :
  Array_sort cmp l = [] -> l = [].
Proof.
  intros H. apply (f_equal length) in H. rewrite Array_sort_length in H.
  by destruct l.
Qed.

(** ** The tick interval *)

Lemma d3_extremum_nat_acc (l : list nat) (a : nat) :
  foldl (extremum_step (fun b a => (a <? b)%nat) Some) (Some a) l
  = Some (a `max` max_list l).
Proof.
  revert a. induction l as [|x l IH]; intros a; cbn [foldl].
  - simpl. f_equal. lia.
  - unfold extremum_step at 2.
    destruct (Nat.ltb_spec a x); rewrite IH; simpl; f_equal; lia.
Qed.

Lemma d3_max_nat_spec (l : list nat) :
  l <> [] -> d3_max_nat l = Some (max_list l).
Proof.
  destruct l as [|x l]; [done|]. intros _.
  unfold d3_max_nat, d3_extremum. cbn [foldl].
  apply d3_extremum_nat_acc.
Qed.

Lemma d3_max_nat_nil : d3_max_nat [] = None.
Proof. reflexivity. Qed.

Lemma max_list_seq (a n : nat) : max_list (seq a (S n)) = (a + n)%nat.
Proof.
  revert a. induction n as [|n IH]; intros a.
  - simpl. lia.
  - change (seq a (S (S n))) with (a :: seq (S a) (S n)).
    change (max_list (a :: seq (S a) (S n)))
      with (a `max` max_list (seq (S a) (S n))).
    rewrite IH. lia.
Qed.

Lemma max_list_d3_range (n : nat) : max_list (d3_range (S n)) = n.
Proof. apply (max_list_seq 0 n). Qed.

Lemma pos_lt_pow2_size (p : positive) :
  (N.pos p < 2 ^ N.of_nat (Pos.size_nat p))%N.
Proof.
  induction p as [p IH|p IH|]; cbn [Pos.size_nat];
    rewrite ?Nat2N.inj_succ, ?N.pow_succ_r'; lia.
Qed.

Lemma N_lt_pow10_size (n : N) : (n < 10 ^ N.of_nat (S (N.size_nat n)))%N.
Proof.
  assert (H2 : forall k, (2 ^ k <= 10 ^ k)%N).
  { intros k. apply N.pow_le_mono_l. lia. }
  rewrite Nat2N.inj_succ, N.pow_succ_r'.
  destruct n as [|p]; simpl N.size_nat.
  - simpl. lia.
  - pose proof (pos_lt_pow2_size p). specialize (H2 (N.of_nat (Pos.size_nat p))).
    lia.
Qed.

(** The printer produces as many characters as the number has decimal
    digits. *)
Lemma N_digits_length (fuel : nat) (n : N) (acc : string) :
  (0 < fuel)%nat ->
  (n < 10 ^ N.of_nat fuel)%N ->
  exists d : nat,
    String.length (N_digits fuel n acc) = (d + String.length acc)%nat /\
    (1 <= d)%nat /\
    (n < 10 ^ N.of_nat d)%N /\
    (n = 0%N \/ (10 ^ N.of_nat (d - 1) <= n)%N).
Proof.
  revert n acc. induction fuel as [|fuel IH]; intros n acc Hfuel Hn.
  - lia.
  - cbn [N_digits]. destruct (N.ltb_spec n 10) as [Hlt|Hge].
    + exists 1%nat. simpl. repeat split; try lia.
    + assert (Hdiv : (n / 10 < 10 ^ N.of_nat fuel)%N).
      { apply N.Div0.div_lt_upper_bound.
        rewrite Nat2N.inj_succ, N.pow_succ_r' in Hn. lia. }
      assert (Hpos : (0 < fuel)%nat).
      { destruct fuel; [|lia]. simpl in Hdiv.
        assert (1 <= n / 10)%N by (apply N.div_le_lower_bound; lia). lia. }
      destruct (IH (n / 10)%N (String (digit_char (n mod 10)) acc) Hpos Hdiv)
        as (d & Hlen & Hd & Hup & Hlow).
      exists (S d). rewrite Hlen. simpl String.length.
      assert (Hn10 : (10 * (n / 10) <= n < 10 * (n / 10) + 10)%N).
      { pose proof (N.Div0.div_mod n 10) as E.
        pose proof (N.mod_lt n 10 ltac:(lia)) as L.
        pose proof (N.le_0_l (n mod 10)) as L0.
        set (q := (n / 10)%N) in *. set (r := (n mod 10)%N) in *.
        clearbody q r. lia. }
      repeat split; try lia.
      * rewrite Nat2N.inj_succ, N.pow_succ_r'. lia.
      * right. replace (S d - 1)%nat with (S (d - 1)) by lia.
        rewrite Nat2N.inj_succ, N.pow_succ_r'.
        destruct Hlow as [H0|Hlow]; [|lia].
        assert (n < 10)%N by lia. lia.
Qed.

Lemma Nat_toString_length (m : nat) :
  let d := String.length (Nat_toString m) in
  (1 <= d)%nat /\ (m < 10 ^ d)%nat /\ (m = 0%nat \/ 10 ^ (d - 1) <= m)%nat.
Proof.
  pose proof (N_digits_length (S (N.size_nat (N.of_nat m))) (N.of_nat m) ""
                (Nat.lt_0_succ _) (N_lt_pow10_size (N.of_nat m))) as H.
  destruct H as (d & Hlen & Hd & Hup & Hlow).
  change (String.length "") with 0%nat in Hlen. rewrite Nat.add_0_r in Hlen.
  fold (N_toString (N.of_nat m)) in Hlen. fold (Nat_toString m) in Hlen.
  rewrite Hlen. cbv zeta. split; [done|].
  assert (Hpow : forall k : nat, N.of_nat (10 ^ k) = (10 ^ N.of_nat k)%N).
  { intros k. rewrite Nat2N.inj_pow. reflexivity. }
  rewrite <- Hpow in Hup. rewrite <- Hpow in Hlow.
  split; [lia|]. destruct Hlow; [left|right]; lia.
Qed.

Lemma iter_times10 (k : nat) :
  (Nat.iter k (fun i => 10 * i) 1 == inject_Z (10 ^ Z.of_nat k))%Q.
Proof.
  induction k as [|k IH].
  - reflexivity.
  - rewrite Nat2Z.inj_succ, Z.pow_succ_r by lia.
    rewrite Nat.iter_succ. cbv beta.
    rewrite inject_Z_mult.
    apply Qmult_comp; [reflexivity | exact IH].
Qed.

Lemma Qtrunc_Z (x : Q) (k : Z) : (x == inject_Z k)%Q -> Qtrunc x = k.
Proof.
  intros H. unfold Qtrunc. destruct (Qlt_le_dec x 0).
  - rewrite H. apply Qceiling_Z.
  - rewrite H. apply Qfloor_Z.
Qed.

(** A non-negative number has remainder zero exactly when it is an
    integer multiple of the positive divisor. *)
Lemma Qrem_zero (a b : Q) :
  (0 < b)%Q ->
  (Qrem a b == 0)%Q <-> exists k : Z, (a == inject_Z k * b)%Q.
Proof.
  intros Hb. unfold Qrem. split.
  - intros H. exists (Qtrunc (a / b)). lra.
  - intros [k Hk].
    assert (Hq : (a / b == inject_Z k)%Q).
    { rewrite Hk. field. lra. }
    rewrite (Qtrunc_Z _ _ Hq). lra.
Qed.

Lemma is_tick_spec (interval : Q) (d : nat) :
  (0 < interval)%Q ->
  is_tick interval d = true <->
  exists k : Z, (inject_Z (Z.of_nat d) == inject_Z k * interval)%Q.
Proof.
  intros Hpos. unfold is_tick, num_rem, num_truthy.
  assert (Hz : Qis_zero interval = false) by (apply Qis_zero_false; lra).
  rewrite Hz, negb_involutive, Qis_zero_true.
  apply Qrem_zero, Hpos.
Qed.

Lemma pow10_pos (k : nat) : (0 < inject_Z (10 ^ Z.of_nat k))%Q.
Proof.
  change 0%Q with (inject_Z 0). rewrite <- Zlt_Qlt.
  apply Z.pow_pos_nonneg; lia.
Qed.

Lemma computeTickInterval_spec (data : list nat) :
  data <> [] ->
  exists interval : Q,
    computeTickInterval data = Ok interval /\
    (interval ==
       inject_Z (10 ^ Z.of_nat
                   (String.length (Nat_toString (max_list data)) - 1)) / 2)%Q /\
    (0 < interval)%Q.
Proof.
  intros Hne. unfold computeTickInterval.
  rewrite (d3_max_nat_spec _ Hne). eexists. split; [reflexivity|].
  pose proof (iter_times10
                (String.length (Nat_toString (max_list data)) - 1)) as Hit.
  pose proof (pow10_pos
                (String.length (Nat_toString (max_list data)) - 1)) as Hp.
  rewrite Hit. split; [reflexivity|].
  apply Qlt_shift_div_l; lra.
Qed.

Lemma computeTickInterval_nil :
  computeTickInterval [] =
    Throw (TypeError "Cannot read property 'toString' of undefined").
Proof. reflexivity. Qed.

(** All indices are ticks when the interval is one half. *)
Lemma is_tick_half (interval : Q) (d : nat) :
  (interval == 1 # 2)%Q -> is_tick interval d = true.
Proof.
  intros H. apply is_tick_spec; [lra|].
  exists (2 * Z.of_nat d)%Z. rewrite H, inject_Z_mult. field.
Qed.

Lemma filter_all_true {A : Type} (f : A -> bool) (l : list A) :
  (forall x, In x l -> f x = true) -> List.filter f l = l.
Proof.
  induction l as [|x l IH]; simpl; intros H; [done|].
  rewrite (H x) by auto. f_equal. apply IH. auto.
Qed.

(** ** Running [computedProps] and [scatCatViz] *)

Lemma d3_range_nonempty {A : Type} (l : list A) :
  l <> [] -> d3_range (length l) <> [].
Proof. destruct l; [done|]. intros _. discriminate. Qed.

Lemma computedProps_run (s : state) (fd : formData) (data : loc)
    (width height : Q) (arr : list series) :
  heap s !! data = Some arr ->
  arr <> [] ->
  let sorted := Array_sort (comparator "color") arr in
  exists interval : Q,
    computeTickInterval (d3_range (length sorted)) = Ok interval /\
    computedProps fd data width height s =
      (Ok (props_of data sorted width height interval),
       State (<[data := sorted]> (heap s)) (container s)).
Proof.
  intros H Hne sorted.
  assert (Hs : sorted <> []).
  { intros E. apply Hne. eapply Array_sort_nil_inv, E. }
  destruct (computeTickInterval_spec _ (d3_range_nonempty _ Hs))
    as (interval & Hi & _).
  exists interval. split; [exact Hi|].
  unfold computedProps, bind. rewrite (sortData_run _ _ _ _ H).
  unfold read_array. cbn [heap container]. rewrite lookup_insert_eq.
  cbn [heap container]. rewrite lookup_insert_eq.
  unfold lift. fold sorted. rewrite Hi. reflexivity.
Qed.

Lemma computedProps_empty (s : state) (fd : formData) (data : loc)
    (width height : Q) :
  heap s !! data = Some [] ->
  computedProps fd data width height s =
    (Throw (TypeError "Cannot read property 'toString' of undefined"),
     State (<[data := []]> (heap s)) (container s)).
Proof.
  intros H. unfold computedProps, bind. rewrite (sortData_run _ _ _ _ H).
  rewrite Array_sort_nil.
  unfold read_array. cbn [heap container]. rewrite lookup_insert_eq.
  cbn [heap container]. rewrite lookup_insert_eq. reflexivity.
Qed.

Lemma computedProps_missing (s : state) (fd : formData) (data : loc)
    (width height : Q) :
  heap s !! data = None ->
  exists e, computedProps fd data width height s = (Throw e, s).
Proof.
  intros H. unfold computedProps, bind.
  destruct (sortData_missing s data "color" H) as [e He].
  rewrite He. eauto.
Qed.

(** A render of a non-empty dataset completes: the array is left sorted
    and the container holds the chart. *)
Lemma scatCatViz_run (s : state) (slice : slice_t) (json : json_t)
    (arr : list series) :
  heap s !! json_data json = Some arr ->
  arr <> [] ->
  let sorted := Array_sort (comparator "color") arr in
  exists (interval : Q) (svgAttrs a1 a2 : list (string * attr_value))
         (l1 l2 : jsval),
    computeTickInterval (d3_range (length sorted)) = Ok interval /\
    let p := props_of (json_data json) sorted (slice_width slice)
               (slice_height slice) interval in
    scatCatViz slice json s =
      (Ok tt,
       State (<[json_data json := sorted]> (heap s))
         [Node "svg" [] svgAttrs
            [chart_group (slice_formData slice) p sorted (json_yLines json);
             axis_label a1 l1; axis_label a2 l2]]).
Proof.
  intros H Hne sorted.
  destruct (computedProps_run (State (heap s) []) (slice_formData slice)
              (json_data json) (slice_width slice) (slice_height slice)
              arr H Hne) as (interval & Hi & Hrun).
  exists interval. do 5 eexists. split; [exact Hi|].
  cbv zeta. unfold scatCatViz, bind at 1. unfold set_container at 1.
  unfold bind at 1. rewrite Hrun. fold sorted.
  unfold bind, read_array. cbn [heap container sortedData props_of].
  rewrite lookup_insert_eq. unfold set_container. cbn [heap container].
  reflexivity.
Qed.

Lemma scatCatViz_empty (s : state) (slice : slice_t) (json : json_t) :
  heap s !! json_data json = Some [] ->
  scatCatViz slice json s =
    (Throw (TypeError "Cannot read property 'toString' of undefined"),
     State (<[json_data json := []]> (heap s)) []).
Proof.
  intros H. unfold scatCatViz, bind at 1. unfold set_container at 1.
  unfold bind at 1.
  rewrite (computedProps_empty (State (heap s) []) _ _ _ _ H). reflexivity.
Qed.

(** ** Properties of the sort *)

Section SortFacts.
Context {A : Type} (cmp : A -> A -> number).

(** *** Consistent comparison functions *)

Lemma cf_cases (l : list A) (a b : A) :
  consistent_comparison cmp l -> In a l -> In b l ->
  cf_lt cmp a b /\ ~ cf_eq cmp a b /\ ~ cf_gt cmp a b \/
  ~ cf_lt cmp a b /\ cf_eq cmp a b /\ ~ cf_gt cmp a b \/
  ~ cf_lt cmp a b /\ ~ cf_eq cmp a b /\ cf_gt cmp a b.
Proof.
  forget_parameters.
  intros (Hnan & _) Ha Hb. unfold cf_lt, cf_eq, cf_gt.
  destruct (num_sign_cases (cmp a b) (Hnan a b Ha Hb))
    as [(-> & -> & ->)|[(-> & -> & ->)|(-> & -> & ->)]]; auto.
Qed.

Lemma cf_lt_gt (l : list A) (a b : A) :
  consistent_comparison cmp l -> In a l -> In b l ->
  cf_lt cmp a b -> cf_gt cmp b a.
Proof.
  forget_parameters.
  intros Hc Ha Hb Hab.
  pose proof Hc as (_ & Hrefl & Hsym & _ & Hlt & _).
  destruct (cf_cases l b a Hc Hb Ha) as [(Hba & _)|[(_ & Hba & _)|(_ & _ & Hba)]];
    [exfalso|exfalso|done].
  - pose proof (Hlt a b a Ha Hb Ha Hab Hba) as Haa.
    destruct (cf_cases l a a Hc Ha Ha) as [(_ & Hn & _)|[(Hn & _)|(Hn & _)]];
      [apply Hn, Hrefl, Ha|by apply Hn|by apply Hn].
  - pose proof (Hsym b a Hb Ha Hba) as Hab'.
    destruct (cf_cases l a b Hc Ha Hb) as [(_ & Hn & _)|[(Hn & _)|(Hn & _)]];
      by apply Hn.
Qed.

Lemma cf_gt_lt (l : list A) (a b : A) :
  consistent_comparison cmp l -> In a l -> In b l ->
  cf_gt cmp a b -> cf_lt cmp b a.
Proof.
  forget_parameters.
  intros Hc Ha Hb Hab.
  pose proof Hc as (_ & Hrefl & Hsym & _ & _ & Hgt).
  destruct (cf_cases l b a Hc Hb Ha) as [(Hba & _)|[(_ & Hba & _)|(_ & _ & Hba)]];
    [done|exfalso|exfalso].
  - pose proof (Hsym b a Hb Ha Hba) as Hab'.
    destruct (cf_cases l a b Hc Ha Hb) as [(_ & _ & Hn)|[(_ & _ & Hn)|(_ & Hn & _)]];
      by apply Hn.
  - pose proof (Hgt a b a Ha Hb Ha Hab Hba) as Haa.
    destruct (cf_cases l a a Hc Ha Ha) as [(_ & _ & Hn)|[(_ & _ & Hn)|(_ & Hn & _)]];
      [by apply Hn|by apply Hn|apply Hn, Hrefl, Ha].
Qed.

Lemma cf_lt_eq (l : list A) (a b c : A) :
  consistent_comparison cmp l -> In a l -> In b l -> In c l ->
  cf_lt cmp a b -> cf_eq cmp b c -> cf_lt cmp a c.
Proof.
  forget_parameters.
  intros Hc Ha Hb Hcl Hab Hbc.
  pose proof Hc as (_ & _ & Hsym & Heq & Hlt & _).
  destruct (cf_cases l a c Hc Ha Hcl) as [(Hac & _)|[(_ & Hac & _)|(_ & _ & Hac)]];
    [done|exfalso|exfalso].
  - pose proof (Hsym a c Ha Hcl Hac) as Hca.
    pose proof (Hsym b a Hb Ha (Heq b c a Hb Hcl Ha Hbc Hca)) as Hab'.
    destruct (cf_cases l a b Hc Ha Hb) as [(_ & Hn & _)|[(Hn & _)|(Hn & _)]];
      by apply Hn.
  - pose proof (cf_gt_lt l a c Hc Ha Hcl Hac) as Hca.
    pose proof (cf_lt_gt l c b Hc Hcl Hb (Hlt c a b Hcl Ha Hb Hca Hab)) as Hbc'.
    destruct (cf_cases l b c Hc Hb Hcl) as [(_ & _ & Hn)|[(_ & _ & Hn)|(_ & Hn & _)]];
      by apply Hn.
Qed.

Lemma may_precede_trans (l : list A) (a b c : A) :
  consistent_comparison cmp l -> In a l -> In b l -> In c l ->
  may_precede cmp a b -> may_precede cmp b c -> may_precede cmp a c.
Proof.
  forget_parameters.
  unfold may_precede. intros Hc Ha Hb Hcl Hab Hbc.
  pose proof Hc as (_ & _ & Hsym & _ & Hlt & _).
  destruct (num_lt0 (cmp c a)) eqn:Hca; [exfalso|done].
  destruct (cf_cases l b a Hc Hb Ha) as [(Hba & _)|[(_ & Hba & _)|(_ & _ & Hba)]].
  - unfold cf_lt in Hba. congruence.
  - pose proof (cf_lt_eq l c a b Hc Hcl Ha Hb Hca (Hsym b a Hb Ha Hba)) as Hcb.
    unfold cf_lt in Hcb. congruence.
  - pose proof (Hlt c a b Hcl Ha Hb Hca (cf_gt_lt l b a Hc Hb Ha Hba)) as Hcb.
    unfold cf_lt in Hcb. congruence.
Qed.




(** *** The two implementations meet the contract *)

Lemma sort_insert_ordered (l0 : list A) (x : A) (l : list A) :
  consistent_comparison cmp l0 ->
  In x l0 -> (forall z, In z l -> In z l0) ->
  StronglySorted (may_precede cmp) l ->
  StronglySorted (may_precede cmp) (sort_insert cmp x l).
Proof.
  forget_parameters.
  intros Hc Hx. induction l as [|z l IH]; intros Hin Hs; cbn [sort_insert].
  - repeat constructor.
  - inversion Hs as [|? ? Hs' Hall]; subst.
    assert (Hz : In z l0) by (apply Hin; by left).
    destruct (num_gt0 (cmp x z)) eqn:Hgt.
    + constructor.
      * apply IH; [|done]. intros w Hw. apply Hin. by right.
      * rewrite sort_insert_perm. constructor; [|done].
        unfold may_precede.
        destruct (cf_cases l0 x z Hc Hx Hz)
          as [(_ & _ & Hn)|[(_ & _ & Hn)|(Hn & _)]];
          [by destruct Hn|by destruct Hn|].
        unfold cf_lt in Hn. by destruct (num_lt0 (cmp x z)).
    + assert (Hxz : may_precede cmp x z).
      { unfold may_precede. destruct (num_lt0 (cmp z x)) eqn:E; [|done].
        pose proof (cf_lt_gt l0 z x Hc Hz Hx E) as Hc'.
        unfold cf_gt in Hc'. congruence. }
      constructor; [done|]. constructor; [done|].
      apply Forall_forall. intros w Hw. rewrite Forall_forall in Hall.
      apply (may_precede_trans l0 x z w Hc Hx Hz); [|done|by apply Hall].
      apply Hin. right. by apply list_elem_of_In.
Qed.

Lemma insertion_sort_ordered (l : list A) :
  consistent_comparison cmp l ->
  StronglySorted (may_precede cmp) (insertion_sort cmp l).
Proof.
  forget_parameters.
  intros Hc.
  enough (Hgo : forall l', (forall z, In z l' -> In z l) ->
            StronglySorted (may_precede cmp) (insertion_sort cmp l'))
    by (apply Hgo; auto).
  induction l' as [|x l' IH]; intros Hin; [constructor|].
  cbn [insertion_sort foldr]. fold (insertion_sort cmp l').
  apply (sort_insert_ordered l); [done|apply Hin; by left| |].
  - intros z Hz. apply Hin. right.
    apply list_elem_of_In. rewrite <- (insertion_sort_perm cmp l').
    by apply list_elem_of_In.
  - apply IH. intros z Hz. apply Hin. by right.
Qed.

End SortFacts.




(** *** The comparator of [sortData] *)

Lemma comparator_lt (sortBy : string) (a b : series) (p q : Q) :
  sortKey sortBy a = Fin p -> sortKey sortBy b = Fin q ->
  cf_lt (comparator sortBy) a b <-> (p < q)%Q.
Proof.
  forget_parameters.
  intros Ha Hb. unfold cf_lt, comparator. rewrite Ha, Hb.
  cbn [num_sub num_neg num_add]. rewrite num_lt0_finite. unfold Qsign_neg.
  destruct (Qlt_le_dec (p + - q) 0); split; try done; intros; lra.
Qed.

Lemma comparator_gt (sortBy : string) (a b : series) (p q : Q) :
  sortKey sortBy a = Fin p -> sortKey sortBy b = Fin q ->
  cf_gt (comparator sortBy) a b <-> (q < p)%Q.
Proof.
  forget_parameters.
  intros Ha Hb. unfold cf_gt, comparator. rewrite Ha, Hb.
  cbn [num_sub num_neg num_add]. rewrite num_gt0_finite. unfold Qltb.
  destruct (Qlt_le_dec 0 (p + - q)); split; try done; intros; lra.
Qed.

Lemma comparator_eq (sortBy : string) (a b : series) (p q : Q) :
  sortKey sortBy a = Fin p -> sortKey sortBy b = Fin q ->
  cf_eq (comparator sortBy) a b <-> (p == q)%Q.
Proof.
  forget_parameters.
  intros Ha Hb. unfold cf_eq, comparator. rewrite Ha, Hb.
  cbn [num_sub num_neg num_add]. rewrite num_eq0_finite, Qis_zero_true.
  split; intros; lra.
Qed.

(** On series with finite sort keys the comparator is a consistent
    comparison function. *)
Lemma comparator_consistent (sortBy : string) (l : list series) :
  Forall (finite_key sortBy) l ->
  consistent_comparison (comparator sortBy) l.
Proof.
  forget_parameters.
  intros Hfin.
  assert (Hkey : forall a, In a l -> exists p, sortKey sortBy a = Fin p).
  { intros a Ha. rewrite Forall_forall in Hfin.
    apply Hfin. by apply list_elem_of_In. }
  split; [|split; [|split; [|split; [|split]]]].
  - intros a b Ha Hb.
    destruct (Hkey a Ha) as [p Hp], (Hkey b Hb) as [q Hq].
    unfold comparator. rewrite Hp, Hq. apply is_NaN_finite.
  - intros a Ha. destruct (Hkey a Ha) as [p Hp].
    apply (comparator_eq sortBy a a p p Hp Hp). reflexivity.
  - intros a b Ha Hb.
    destruct (Hkey a Ha) as [p Hp], (Hkey b Hb) as [q Hq].
    rewrite (comparator_eq sortBy a b p q Hp Hq),
      (comparator_eq sortBy b a q p Hq Hp). intros; lra.
  - intros a b c Ha Hb Hc.
    destruct (Hkey a Ha) as [p Hp], (Hkey b Hb) as [q Hq],
      (Hkey c Hc) as [r Hr].
    rewrite (comparator_eq sortBy a b p q Hp Hq),
      (comparator_eq sortBy b c q r Hq Hr),
      (comparator_eq sortBy a c p r Hp Hr). intros; lra.
  - intros a b c Ha Hb Hc.
    destruct (Hkey a Ha) as [p Hp], (Hkey b Hb) as [q Hq],
      (Hkey c Hc) as [r Hr].
    rewrite (comparator_lt sortBy a b p q Hp Hq),
      (comparator_lt sortBy b c q r Hq Hr),
      (comparator_lt sortBy a c p r Hp Hr). intros; lra.
  - intros a b c Ha Hb Hc.
    destruct (Hkey a Ha) as [p Hp], (Hkey b Hb) as [q Hq],
      (Hkey c Hc) as [r Hr].
    rewrite (comparator_gt sortBy a b p q Hp Hq),
      (comparator_gt sortBy b c q r Hq Hr),
      (comparator_gt sortBy a c p r Hp Hr). intros; lra.
Qed.


(** ** Key sets and ordinal scales *)

Section Keys.
Context {K : Type} `{EqDecision K}.

Lemma filter_filter_bool (f g : K -> bool) (l : list K) :
  List.filter f (List.filter g l) = List.filter (fun x => f x && g x) l.
Proof.
  induction l as [|x l IH]; [done|]. cbn [List.filter].
  destruct (g x); cbn [List.filter]; rewrite ?andb_true_r, ?andb_false_r;
    destruct (f x); by rewrite IH.
Qed.

Lemma foldl_set_add (acc l : list K) :
  foldl set_add acc l =
  acc ++ List.filter (fun k => negb (bool_decide (k ∈ acc))) (first_seen l).
Proof.
  forget_parameters.
  revert acc. induction l as [|x l IH]; intros acc.
  - simpl. by rewrite app_nil_r.
  - cbn [foldl first_seen List.filter]. rewrite IH. unfold set_add.
    rewrite filter_filter_bool. destruct (decide (x ∈ acc)) as [Hin|Hin].
    + rewrite (bool_decide_eq_true_2 _ Hin). cbn [negb]. f_equal.
      apply List.filter_ext. intros k.
      destruct (bool_decide (k ∈ acc)) eqn:E; [done|]. cbn [negb andb].
      apply bool_decide_eq_false in E.
      rewrite bool_decide_eq_false_2; [done|]. congruence.
    + rewrite (bool_decide_eq_false_2 _ Hin). cbn [negb].
      rewrite <- app_assoc. cbn [app]. do 2 f_equal.
      apply List.filter_ext. intros k.
      rewrite <- negb_orb. f_equal.
      apply eq_true_iff_eq. rewrite orb_true_iff, !bool_decide_eq_true.
      rewrite elem_of_app, list_elem_of_singleton. tauto.
Qed.

(** The keys of a set are the distinct members in first-seen order. *)
Lemma insertion_keys_first_seen (l : list K) :
  insertion_keys l = first_seen l.
Proof.
  unfold insertion_keys. rewrite foldl_set_add. cbn [app].
  apply filter_all_true. intros x _.
  rewrite bool_decide_eq_false_2; [done|]. apply not_elem_of_nil.
Qed.

Lemma first_seen_In (l : list K) (x : K) : In x (first_seen l) <-> In x l.
Proof.
  forget_parameters.
  induction l as [|z l IH]; [done|]. cbn [first_seen In].
  rewrite filter_In, IH. split; [tauto|].
  intros [Hz|Hin]; [by left|].
  destruct (decide (x = z)) as [->|Hne]; [by left|].
  right. split; [done|]. by rewrite bool_decide_eq_false_2.
Qed.

Lemma NoDup_filter_bool (f : K -> bool) (l : list K) :
  NoDup l -> NoDup (List.filter f l).
Proof.
  forget_parameters.
  induction 1 as [|x l Hx Hl IH]; cbn [List.filter]; [constructor|].
  destruct (f x); [|done]. constructor; [|done].
  rewrite list_elem_of_In, filter_In, <- list_elem_of_In. tauto.
Qed.

Lemma first_seen_NoDup (l : list K) : NoDup (first_seen l).
Proof.
  induction l as [|z l IH]; cbn [first_seen]; constructor.
  - rewrite list_elem_of_In, filter_In. intros [_ H].
    by rewrite bool_decide_eq_true_2 in H.
  - by apply NoDup_filter_bool.
Qed.

Lemma first_seen_id (l : list K) : NoDup l -> first_seen l = l.
Proof.
  induction 1 as [|x l Hx Hl IH]; [done|]. cbn [first_seen]. f_equal.
  rewrite IH. apply filter_all_true. intros k Hk.
  rewrite bool_decide_eq_false_2; [done|].
  intros ->. apply Hx. by apply list_elem_of_In.
Qed.

(** The position of a key of the domain selects the range element. *)
Lemma d3_scale_ordinal_lookup {R : Type} (domain : list K) (range : list R)
    (implicit : bool) (i : nat) (x : K) :
  NoDup domain ->
  domain !! i = Some x ->
  d3_scale_ordinal domain range implicit x = range !! (i mod length range).
Proof.
  intros Hnd Hi. unfold d3_scale_ordinal.
  rewrite insertion_keys_first_seen, (first_seen_id _ Hnd).
  destruct (list_find (fun d => d = x) domain) as [[j z]|] eqn:E.
  - apply list_find_Some in E as (Hj & -> & Hmin).
    by rewrite (NoDup_lookup _ _ _ _ Hnd Hi Hj).
  - apply list_find_None in E. rewrite Forall_forall in E.
    exfalso. apply (E x); [|done]. by eapply list_elem_of_lookup_2.
Qed.

End Keys.

Lemma d3_rangePoints_lookup (n i : nat) (start stop : Q) :
  (i < n)%nat ->
  d3_rangePoints n start stop !! i =
    Some (((if (n <? 2)%nat then (start + stop) / 2 else start)
           + (if (n <? 2)%nat then 0
              else (stop - start) / inject_Z (Z.of_nat n - 1))
             * inject_Z (Z.of_nat i))%Q).
Proof.
  intros Hi. unfold d3_rangePoints, d3_range.
  rewrite list_lookup_fmap, lookup_seq_lt by done. reflexivity.
Qed.

Lemma d3_rangePoints_length (n : nat) (start stop : Q) :
  length (d3_rangePoints n start stop) = n.
Proof. unfold d3_rangePoints, d3_range. by rewrite length_map, length_seq. Qed.

(** The horizontal position of rank [i]. *)
Lemma xScale_rank (data : loc) (sorted : list series) (width height interval : Q)
    (i : nat) :
  (i < length sorted)%nat ->
  let p := props_of data sorted width height interval in
  exists x : Q,
    xScale p i = JNumber (Fin x) /\
    (x == (if (length sorted <? 2)%nat then plotWidth p / 2
           else plotWidth p / inject_Z (Z.of_nat (length sorted) - 1)
                * inject_Z (Z.of_nat i)))%Q.
Proof.
  intros Hi p. cbn [xScale p props_of].
  rewrite (d3_scale_ordinal_lookup _ _ _ i).
  - unfold d3_range at 1. rewrite d3_rangePoints_length, length_seq.
    rewrite Nat.mod_small by done.
    unfold d3_range. rewrite length_seq.
    rewrite d3_rangePoints_lookup by done.
    eexists. split; [reflexivity|].
    cbn [plotWidth p props_of].
    destruct (length sorted <? 2)%nat.
    + field.
    + unfold Qdiv. ring.
  - apply NoDup_seq.
  - unfold d3_range. by rewrite lookup_seq_lt.
Qed.

(** ** Extrema *)

Section Extremum.
Context {A B : Type} (better : B -> B -> bool) (le : B -> B -> Prop).
Context (le_refl : forall b, le b b)
        (le_trans : forall a b c, le a b -> le b c -> le a c)
        (better_true : forall b a, better b a = true -> le b a)
        (better_false : forall b a, better b a = false -> le a b).

Local Abbreviation step := (extremum_step better).

Lemma d3_extremum_acc (f : A -> option B) (l : list A) (acc : option B) :
  match foldl (step f) acc l with
  | None => acc = None /\ forall x, In x l -> f x = None
  | Some m =>
      (acc = Some m \/ exists x, In x l /\ f x = Some m) /\
      (forall a, acc = Some a -> le m a) /\
      (forall x b, In x l -> f x = Some b -> le m b)
  end.
Proof using le_refl le_trans better_true better_false.
  forget_parameters.
  revert acc. induction l as [|x l IH]; intros acc; cbn [foldl].
  - destruct acc as [a|]; simpl.
    + split; [by left|]. split; [|tauto]. intros ? [= <-]. apply le_refl.
    + tauto.
  - specialize (IH (step f acc x)).
    destruct (foldl (step f) (step f acc x) l) as [m|].
    + destruct IH as (Hm & Hacc & Hl). unfold step in Hm, Hacc.
      destruct (f x) as [b|] eqn:Hfx.
      * assert (Hmb : le m b /\ forall a, acc = Some a -> le m a).
        { destruct acc as [a|].
          - destruct (better b a) eqn:Hb.
            + split; [by apply Hacc|]. intros ? [= <-].
              eapply le_trans; [by apply Hacc|]. by apply better_true.
            + split; [|intros ? [= <-]; by apply Hacc].
              eapply le_trans; [by apply Hacc|]. by apply better_false.
          - split; [by apply Hacc|]. intros ? [=]. }
        split; [|split].
        -- destruct Hm as [Hm|(z & Hz & Hfz)].
           ++ destruct acc as [a|].
              ** destruct (better b a); injection Hm as <-.
                 --- right. exists x. simpl. auto.
                 --- by left.
              ** injection Hm as <-. right. exists x. simpl. auto.
           ++ right. exists z. simpl. auto.
        -- apply (proj2 Hmb).
        -- intros z c [<-|Hz] Hfz; [|by eapply Hl].
           rewrite Hfx in Hfz. injection Hfz as <-. apply (proj1 Hmb).
      * split; [|split].
        -- destruct Hm as [Hm|(z & Hz & Hfz)]; [by left|].
           right. exists z. simpl. auto.
        -- done.
        -- intros z c [<-|Hz] Hfz; [congruence|by eapply Hl].
    + destruct IH as (Hacc & Hl). unfold step in Hacc.
      destruct (f x) as [b|] eqn:Hfx.
      * destruct acc as [a|]; [destruct (better b a)|]; discriminate.
      * split; [done|]. intros z [<-|Hz]; auto.
Qed.

Lemma d3_extremum_spec (f : A -> option B) (l : list A) :
  match d3_extremum better l f with
  | None => forall x, In x l -> f x = None
  | Some m =>
      (exists x, In x l /\ f x = Some m) /\
      (forall x b, In x l -> f x = Some b -> le m b)
  end.
Proof using le_refl le_trans better_true better_false.
  pose proof (d3_extremum_acc f l None) as H. unfold d3_extremum.
  fold (step f). destruct (foldl (step f) None l) as [m|].
  - destruct H as ([H|H] & _ & Hl); [done|]. split; done.
  - apply H.
Qed.

End Extremum.

Lemma all_points_In (data : list series) (v : point) :
  In v (all_points data) <-> exists d, In d data /\ In v (values d).
Proof.
  unfold all_points. rewrite <- flat_map_concat_map. apply in_flat_map.
Qed.

Lemma all_points_perm (l1 l2 : list series) (v : point) :
  l1 ≡ₚ l2 -> In v (all_points l1) <-> In v (all_points l2).
Proof.
  intros Hp. rewrite !all_points_In. split; intros (d & Hd & Hv); exists d;
    (split; [|done]); apply list_elem_of_In; apply list_elem_of_In in Hd.
  - by rewrite <- Hp.
  - by rewrite Hp.
Qed.

(** The nested minimum and maximum over all points of a dataset. *)
Lemma yMin_spec (data : list series) :
  match d3_min data (fun d => d3_min (values d) (fun v => Some (y v))) with
  | None => all_points data = []
  | Some m =>
      (exists v, In v (all_points data) /\ y v = m) /\
      (forall v, In v (all_points data) -> (m <= y v)%Q)
  end.
Proof.
  assert (Hin : forall d,
    match d3_min (values d) (fun v => Some (y v)) with
    | None => values d = []
    | Some m => (exists v, In v (values d) /\ y v = m) /\
                (forall v, In v (values d) -> (m <= y v)%Q)
    end).
  { intros d. unfold d3_min.
    pose proof (d3_extremum_spec Qltb Qle Qle_refl Qle_trans
                  (fun b a H => Qlt_le_weak _ _ (proj1 (Qltb_true b a) H))
                  (fun b a H => proj1 (Qltb_false b a) H)
                  (fun v => Some (y v)) (values d)) as H.
    destruct (d3_extremum Qltb (values d) _) as [m|].
    - destruct H as ((v & Hv & [= Hy]) & Hl). split; [eauto|].
      intros w Hw. by eapply Hl.
    - destruct (values d) as [|v l]; [done|].
      specialize (H v (or_introl eq_refl)). discriminate. }
  unfold d3_min at 1.
  pose proof (d3_extremum_spec Qltb Qle Qle_refl Qle_trans
                (fun b a H => Qlt_le_weak _ _ (proj1 (Qltb_true b a) H))
                (fun b a H => proj1 (Qltb_false b a) H)
                (fun d => d3_min (values d) (fun v => Some (y v))) data) as H.
  destruct (d3_extremum Qltb data _) as [m|].
  - destruct H as ((d & Hd & Hfd) & Hl). split.
    + specialize (Hin d). rewrite Hfd in Hin.
      destruct Hin as ((v & Hv & Hy) & _). exists v. split; [|done].
      apply all_points_In. eauto.
    + intros v (d' & Hd' & Hv)%all_points_In.
      specialize (Hin d').
      destruct (d3_min (values d') _) as [b|] eqn:E.
      * eapply Qle_trans; [by eapply Hl|]. by apply Hin.
      * rewrite Hin in Hv. destruct Hv.
  - unfold all_points. induction data as [|d l IH]; [done|].
    cbn [map concat].
    pose proof (H d (or_introl eq_refl)) as Hd. specialize (Hin d).
    rewrite Hd in Hin. rewrite Hin. cbn [app]. apply IH.
    intros x Hx. apply H. by right.
Qed.

Lemma yMax_spec (data : list series) :
  match d3_max data (fun d => d3_max (values d) (fun v => Some (y v))) with
  | None => all_points data = []
  | Some m =>
      (exists v, In v (all_points data) /\ y v = m) /\
      (forall v, In v (all_points data) -> (y v <= m)%Q)
  end.
Proof.
  set (ge := fun a b : Q => (b <= a)%Q).
  assert (ge_refl : forall b, ge b b) by (intros; apply Qle_refl).
  assert (ge_trans : forall a b c, ge a b -> ge b c -> ge a c).
  { unfold ge. intros a b c ? ?. by eapply Qle_trans. }
  assert (bt : forall b a, Qltb a b = true -> ge b a).
  { intros b a Hb. apply Qltb_true in Hb. by apply Qlt_le_weak. }
  assert (bf : forall b a, Qltb a b = false -> ge a b).
  { intros b a Hb. by apply Qltb_false in Hb. }
  assert (Hin : forall d,
    match d3_max (values d) (fun v => Some (y v)) with
    | None => values d = []
    | Some m => (exists v, In v (values d) /\ y v = m) /\
                (forall v, In v (values d) -> (y v <= m)%Q)
    end).
  { intros d. unfold d3_max.
    pose proof (d3_extremum_spec (fun b a => Qltb a b) ge ge_refl ge_trans
                  bt bf (fun v => Some (y v)) (values d)) as H.
    destruct (d3_extremum _ (values d) _) as [m|].
    - destruct H as ((v & Hv & [= Hy]) & Hl). split; [eauto|].
      intros w Hw. by eapply (Hl w).
    - destruct (values d) as [|v l]; [done|].
      specialize (H v (or_introl eq_refl)). discriminate. }
  unfold d3_max at 1.
  pose proof (d3_extremum_spec (fun b a => Qltb a b) ge ge_refl ge_trans
                bt bf
                (fun d => d3_max (values d) (fun v => Some (y v))) data) as H.
  destruct (d3_extremum _ data _) as [m|].
  - destruct H as ((d & Hd & Hfd) & Hl). split.
    + specialize (Hin d). rewrite Hfd in Hin.
      destruct Hin as ((v & Hv & Hy) & _). exists v. split; [|done].
      apply all_points_In. eauto.
    + intros v (d' & Hd' & Hv)%all_points_In.
      specialize (Hin d').
      destruct (d3_max (values d') _) as [b|] eqn:E.
      * eapply Qle_trans; [by apply Hin|]. by eapply (Hl d').
      * rewrite Hin in Hv. destruct Hv.
  - unfold all_points. induction data as [|d l IH]; [done|].
    cbn [map concat].
    pose proof (H d (or_introl eq_refl)) as Hd. specialize (Hin d).
    rewrite Hd in Hin. rewrite Hin. cbn [app]. apply IH.
    intros x Hx. apply H. by right.
Qed.

(** ** The linear scale *)

Lemma d3_scale_linear_Fin (lo hi r0 x : Q) :
  (lo < hi)%Q -> (lo <= x <= hi)%Q ->
  in_double_range (hi - lo) -> in_double_range r0 ->
  exists v : Q,
    d3_scale_linear (Fin lo, Fin hi) (Fin r0, Fin 0) (Fin x) = Fin v /\
    (v == r0 * (1 - (x - lo) / (hi - lo)))%Q.
Proof.
  forget_parameters.
  intros Hlt [Hx1 Hx2] [Hd1 Hd2] [Hr1 Hr2].
  pose proof overflow_bound_large as Hb.
  assert (Hz : Qis_zero (hi + - lo) = false) by (apply Qis_zero_false; lra).
  set (t := ((x + - lo) / (hi + - lo))%Q).
  assert (Ht : (t * (hi + - lo) == x + - lo)%Q) by (unfold t; field; lra).
  assert (Ht0 : (0 <= t)%Q) by (unfold t; apply Qle_shift_div_l; lra).
  assert (Ht1 : (t <= 1)%Q) by (unfold t; apply Qle_shift_div_r; lra).
  unfold d3_scale_linear, d3_uninterpolateNumber, d3_interpolateNumber.
  cbn [fst snd num_sub num_neg num_add].
  rewrite (finite_Fin (hi + - lo)) by (split; lra).
  cbn [num_truthy]. rewrite Hz. cbn [negb].
  rewrite (finite_Fin (x + - lo)) by (split; lra).
  cbn [num_div]. rewrite Hz. fold t.
  rewrite (finite_Fin t) by (split; lra).
  cbn [num_neg num_add]. rewrite (finite_Fin (1 + - t)) by (split; lra).
  cbn [num_mul].
  rewrite (finite_Fin (r0 * (1 + - t))) by (split; nra).
  rewrite (finite_Fin (0 * t)) by (split; lra).
  cbn [num_add].
  rewrite (finite_Fin (r0 * (1 + - t) + 0 * t)) by (split; nra).
  eexists. split; [reflexivity|].
  unfold t, Qminus. field. lra.
Qed.

(** A scale with a domain of one value: the values of the domain go to
    the start of the range. *)
Lemma d3_scale_linear_flat (lo hi r0 x : Q) :
  (hi - lo == 0)%Q -> (x - lo == 0)%Q -> in_double_range r0 ->
  d3_scale_linear (Fin lo, Fin hi) (Fin r0, Fin 0) (Fin x) =n= Fin r0.
Proof.
  forget_parameters.
  intros Hz Hx [Hr1 Hr2].
  pose proof overflow_bound_large as Hb.
  assert (Hz' : Qis_zero (hi + - lo) = true) by (apply Qis_zero_true; lra).
  unfold d3_scale_linear, d3_uninterpolateNumber, d3_interpolateNumber.
  cbn [fst snd num_sub num_neg num_add].
  rewrite (finite_Fin (hi + - lo)) by (split; lra).
  cbn [num_truthy]. rewrite Hz'. cbn [negb num_div]. rewrite Hz'.
  change (Qis_zero 1) with false. cbv iota.
  change (Qsign_neg 1) with false.
  rewrite (finite_Fin (x + - lo)) by (split; lra).
  cbn [num_div num_neg num_add].
  rewrite (finite_Fin (1 + - 0)) by (split; lra).
  cbn [num_mul].
  rewrite (finite_Fin (r0 * (1 + - 0))) by (split; lra).
  rewrite (finite_Fin (0 * 0)) by (split; lra).
  cbn [num_add].
  rewrite (finite_Fin (r0 * (1 + - 0) + 0 * 0)) by (split; lra).
  cbn [num_eq]. ring.
Qed.

(** ** Legend packing *)

Lemma foldl_place_key (legendWidth : Q) (widths : list Q)
    (cx cy : Q) (adj : list (Q * Q)) :
  snd (foldl (place_key legendWidth) (cx, cy, adj) widths) =
  adj ++ legend_place legendWidth cx cy widths.
Proof.
  revert cx cy adj. induction widths as [|w ws IH]; intros cx cy adj.
  - simpl. by rewrite app_nil_r.
  - cbn [foldl legend_place]. unfold place_key at 2.
    destruct (Qleb legendWidth (cx + w)); rewrite IH, <- app_assoc; done.
Qed.

Lemma legend_adjustments_place (legendWidth : Q) (widths : list Q) :
  legend_adjustments legendWidth widths =
  legend_place legendWidth 0 paddingY widths.
Proof. unfold legend_adjustments. by rewrite foldl_place_key. Qed.

Lemma legend_adjustments_length (legendWidth : Q) (widths : list Q) :
  length (legend_adjustments legendWidth widths) = length widths.
Proof.
  rewrite legend_adjustments_place. generalize 0%Q paddingY.
  induction widths as [|w ws IH]; intros cx cy; [done|].
  cbn [legend_place]. destruct (Qleb legendWidth (cx + w)); simpl; by rewrite IH.
Qed.

Lemma row_width_cons (k k' : placed_key) (row : list placed_key) :
  (row_width (k :: k' :: row) ==
   key_width k + paddingX + row_width (k' :: row))%Q.
Proof.
  unfold row_width. cbn [map Qsum foldr length].
  replace (S (S (length row)) - 1)%nat with (S (length row)) by lia.
  replace (S (length row) - 1)%nat with (length row) by lia.
  rewrite Nat2Z.inj_succ. unfold Z.succ. rewrite inject_Z_plus. ring.
Qed.

Lemma row_width_single (k : placed_key) : (row_width [k] == key_width k)%Q.
Proof. unfold row_width. cbn [map Qsum foldr length]. simpl. ring. Qed.

Lemma rows_from_ok (legendWidth : Q) (widths : list Q) (cx cy : Q) :
  Forall (fun w => (w <= legendWidth)%Q) widths ->
  match rows_of (keys_from legendWidth cx cy widths) with
  | [] => True
  | row :: rows =>
      row_ok legendWidth cx cy row /\
      Forall (fun r => (row_width r <= legendWidth)%Q) rows
  end.
Proof.
  intros Hw. revert cx cy.
  induction Hw as [|w ws Hle Hws IH]; intros cx cy; [done|].
  unfold keys_from. cbn [legend_place].
  set (wrap := Qleb legendWidth (cx + w)).
  set (x := if wrap then 0%Q else cx).
  set (yy := if wrap then (cy + paddingY)%Q else cy).
  assert (Hxy : (if wrap then (0%Q, (cy + paddingY)%Q) else (cx, cy)) = (x, yy)).
  { unfold x, yy. by destruct wrap. }
  rewrite Hxy. cbn [zip_with fst snd].
  fold (keys_from legendWidth (x + (w + paddingX)) yy ws).
  specialize (IH (x + (w + paddingX))%Q yy).
  assert (Hsingle : row_ok legendWidth cx cy [Placed w x yy]).
  { unfold row_ok. cbn [key_y].
    pose proof (row_width_single (Placed w x yy)) as Hrs. cbn [key_width] in Hrs.
    unfold x, yy, wrap in *. destruct (Qleb legendWidth (cx + w)) eqn:E.
    - assert (Hf : Qeq_bool cy (cy + paddingY) = false).
      { destruct (Qeq_bool cy (cy + paddingY)) eqn:E'; [|done].
        apply Qeq_bool_iff in E'. unfold paddingY in E'. lra. }
      rewrite Hf. lra.
    - rewrite Qeq_bool_refl. apply Qleb_false in E. lra. }
  cbn [rows_of].
  destruct (rows_of (keys_from legendWidth (x + (w + paddingX)) yy ws))
    as [|[|k' row] rows]; [by split|by split|].
  destruct IH as [Hrow Hrows]. cbn [key_y].
  destruct (Qeq_bool yy (key_y k')) eqn:Ey.
  - split; [|done]. unfold row_ok in *. cbn [key_y]. rewrite Ey in Hrow.
    pose proof (row_width_cons (Placed w x yy) k' row) as Hrc.
    cbn [key_width] in Hrc. clear Hsingle.
    unfold x, yy, wrap in *. destruct (Qleb legendWidth (cx + w)) eqn:E.
    + assert (Hf : Qeq_bool cy (cy + paddingY) = false).
      { destruct (Qeq_bool cy (cy + paddingY)) eqn:E'; [|done].
        apply Qeq_bool_iff in E'. unfold paddingY in E'. lra. }
      rewrite Hf. lra.
    + rewrite Qeq_bool_refl. lra.
  - split; [done|]. constructor; [|done].
    unfold row_ok in Hrow. by rewrite Ey in Hrow.
Qed.

Lemma rows_of_nonempty (keys : list placed_key) :
  Forall (fun r => r <> []) (rows_of keys).
Proof.
  induction keys as [|k keys IH]; [constructor|]. cbn [rows_of].
  destruct (rows_of keys) as [|[|k' row] rows].
  - by repeat constructor.
  - by repeat constructor.
  - inversion IH; subst.
    destruct (Qeq_bool (key_y k) (key_y k')); by repeat constructor.
Qed.

(** The rows partition the keys, in order. *)
Lemma concat_rows_of (keys : list placed_key) : concat (rows_of keys) = keys.
Proof.
  induction keys as [|k keys IH]; [done|]. cbn [rows_of].
  pose proof (rows_of_nonempty keys) as Hne.
  destruct (rows_of keys) as [|[|k' row] rows]; cbn [concat app] in *.
  - by rewrite <- IH.
  - by inversion Hne.
  - destruct (Qeq_bool (key_y k) (key_y k')); cbn [concat app];
      by rewrite <- IH.
Qed.

(** ** The DOM *)

Lemma node_induction (P : node -> Prop) :
  (forall t c a ch, Forall P ch -> P (Node t c a ch)) ->
  forall n, P n.
Proof.
  intros H. fix IH 1. intros [t c a ch]. apply H.
  induction ch as [|x ch IHch]; constructor; [apply IH|apply IHch].
Qed.

Lemma selectAll_Node (cls t : string) c a ch :
  selectAll cls (Node t c a ch) = select_below cls ch.
Proof. reflexivity. Qed.

Lemma select_below_cons (cls : string) (x : node) (l : list node) :
  select_below cls (x :: l) =
  (if has_class cls x then [x] else []) ++ selectAll cls x
    ++ select_below cls l.
Proof.
  unfold select_below, selectAll. cbn [flat_map app List.filter].
  rewrite List.filter_app. by destruct (has_class cls x).
Qed.

Lemma select_below_app (cls : string) (l1 l2 : list node) :
  select_below cls (l1 ++ l2) = select_below cls l1 ++ select_below cls l2.
Proof.
  unfold select_below. by rewrite flat_map_app, List.filter_app.
Qed.

Lemma select_below_nil (cls : string) : select_below cls [] = [].
Proof. reflexivity. Qed.

(** A list of elements of the class, none with such an element below,
    is selected as it is; a list of elements outside the class, with
    none below, contributes nothing. *)
Lemma select_below_all (cls : string) (l : list node) :
  Forall (fun x => has_class cls x = true /\ selectAll cls x = []) l ->
  select_below cls l = l.
Proof.
  induction 1 as [|x l [Hc Hs] _ IH]; [done|].
  rewrite select_below_cons, Hc, Hs, IH. done.
Qed.

Lemma select_below_none (cls : string) (l : list node) :
  Forall (fun x => has_class cls x = false /\ selectAll cls x = []) l ->
  select_below cls l = [].
Proof.
  induction 1 as [|x l [Hc Hs] _ IH]; [done|].
  rewrite select_below_cons, Hc, Hs, IH. done.
Qed.

Lemma select_below_axis (cls : string) (ticks : list number) :
  String.eqb cls "tick" = false ->
  String.eqb cls "domain" = false ->
  select_below cls (d3_svg_axis ticks) = [].
Proof.
  intros Ht Hd. apply select_below_none. unfold d3_svg_axis.
  apply Forall_app. split.
  - apply Forall_forall. intros x (t & -> & _)%list_elem_of_fmap.
    unfold has_class, selectAll. simpl. by rewrite Ht.
  - repeat constructor. unfold has_class. simpl. by rewrite Hd.
Qed.

Lemma d3_enter_nil {A : Type} (data : list A) :
  map snd (d3_enter [] data) = data.
Proof.
  unfold d3_enter. cbn [length]. rewrite drop_0.
  apply list_eq. intros i.
  rewrite list_lookup_fmap, list_lookup_imap.
  by destruct (data !! i).
Qed.

Lemma d3_enter_nil_fst {A : Type} (data : list A) :
  map fst (d3_enter [] data) = seq 0 (length data).
Proof.
  unfold d3_enter. cbn [length]. rewrite drop_0.
  apply list_eq. intros i.
  rewrite list_lookup_fmap, list_lookup_imap.
  destruct (data !! i) eqn:E; simpl.
  - rewrite lookup_seq_lt; [done|]. by eapply lookup_lt_Some.
  - symmetry. apply lookup_seq_ge. by apply lookup_ge_None.
Qed.

(** Elements without a selected element below are left alone. *)
Lemma update_selected_none (cls : string) (f : nat -> node -> node) (n : node) :
  selectAll cls n = [] -> forall i, update_selected cls f i n = (n, i).
Proof.
  induction n as [t c a ch IH] using node_induction. intros Hsel i.
  rewrite selectAll_Node in Hsel. cbn [update_selected].
  match goal with |- context [map_acc ?g i ch] => set (G := g) end.
  enough (Hgo : map_acc G i ch = (ch, i)) by (by rewrite Hgo).
  revert i. induction IH as [|x ch Hx _ IHch]; intros i; [done|].
  rewrite select_below_cons in Hsel.
  apply app_eq_nil in Hsel as [Hh Hsel]. apply app_eq_nil in Hsel as [Hx' Hch].
  destruct (has_class cls x) eqn:Hc; [done|].
  cbn [map_acc]. unfold G at 1. rewrite Hc, (Hx Hx' i).
  fold (map_acc G). by rewrite (IHch Hch i).
Qed.

(** Selected children without a selected element below get consecutive
    indices. *)
Lemma update_selected_children (cls : string) (f : nat -> node -> node)
    (t : string) c a (ch : list node) :
  Forall (fun x => has_class cls x = true /\ selectAll cls x = []) ch ->
  fst (update_selected cls f 0 (Node t c a ch)) = Node t c a (imap f ch).
Proof.
  intros H. cbn [update_selected].
  match goal with |- context [map_acc ?g 0%nat ch] => set (G := g) end.
  enough (Hgo : forall i g,
            (forall j x, g j x = f (i + j)%nat x) ->
            map_acc G i ch = (imap g ch, (i + length ch)%nat)).
  { by rewrite (Hgo 0%nat f). }
  induction H as [|x ch [Hc Hs] _ IHch]; intros i g Hg.
  - simpl. by rewrite Nat.add_0_r.
  - cbn [map_acc]. unfold G at 1. rewrite Hc, (update_selected_none _ _ _ Hs).
    fold (map_acc G). rewrite (IHch (S i) (g ∘ S)).
    + cbn [imap length]. rewrite Hg, Nat.add_0_r. f_equal. lia.
    + intros j y. unfold compose. rewrite Hg. f_equal. lia.
Qed.

Lemma map_d3_enter_nil {A B : Type} (g : nat -> A -> B) (data : list A) :
  map (fun e => g (fst e) (snd e)) (d3_enter [] data) = imap g data.
Proof.
  unfold d3_enter. cbn [length]. rewrite drop_0.
  apply list_eq. intros i.
  rewrite list_lookup_fmap, !list_lookup_imap.
  by destruct (data !! i).
Qed.

Lemma map_snd_d3_enter_nil {A B : Type} (g : A -> B) (data : list A) :
  map (fun e => g (snd e)) (d3_enter [] data) = map g data.
Proof.
  rewrite (map_d3_enter_nil (fun _ => g)).
  apply list_eq. intros i. by rewrite list_lookup_imap, list_lookup_fmap.
Qed.

Lemma Forall_imap {A B : Type} (P : B -> Prop) (g : nat -> A -> B) (l : list A) :
  (forall i x, P (g i x)) -> Forall P (imap g l).
Proof.
  intros H. apply Forall_lookup. intros i y.
  rewrite list_lookup_imap. destruct (l !! i); intros [= <-]. apply H.
Qed.

Lemma Forall_imap_from {A B : Type} (P0 : A -> Prop) (P : B -> Prop)
    (g : nat -> A -> B) (l : list A) :
  Forall P0 l -> (forall i x, P0 x -> P (g i x)) -> Forall P (imap g l).
Proof.
  intros Hl H. apply Forall_lookup. intros i z.
  rewrite list_lookup_imap. destruct (l !! i) as [x|] eqn:E; intros [= <-].
  apply H. eapply Forall_lookup_1; eauto.
Qed.

Lemma Forall_map_all {A B : Type} (P : B -> Prop) (g : A -> B) (l : list A) :
  (forall x, P (g x)) -> Forall P (map g l).
Proof. intros H. apply Forall_fmap, Forall_forall. intros; apply H. Qed.

Lemma position_key_class (adj : list (Q * Q)) (i : nat) (cls : string) (k : node) :
  has_class cls (position_key adj i k) = has_class cls k /\
  selectAll cls (position_key adj i k) = selectAll cls k.
Proof.
  unfold position_key. destruct (adj !! i) as [[x yy]|]; [|done].
  by destruct k.
Qed.

Lemma band_group_band_of (fd : formData) (p : computed) (i : nat) (d : series) :
  band_group fd p i d = band_of fd p i d.
Proof.
  unfold band_group, band_of. cbn [selectAll descendants flat_map List.filter].
  rewrite map_snd_d3_enter_nil. reflexivity.
Qed.

(** The legend: the color keys, then the shape keys, each positioned. *)
Lemma renderLegend_structure (fd : formData) (p : computed) :
  renderLegend (Node "g" ["legend"] [] []) fd p =
  Node "g" ["legend"]
    [("transform",
      ATranslate (JNumber (Fin 0))
        (JNumber (Fin (plotHeight p + xlabelHeight p))))]
    (imap (position_key
             (legend_adjustments (legendWidth p)
                (map getBBox_width (legend_keys fd p))))
       (legend_keys fd p)).
Proof.
  unfold renderLegend.
  change (selectAll "color" (Node "g" ["legend"] [] [])) with (@nil node).
  rewrite map_snd_d3_enter_nil. cbn [append_children app].
  rewrite selectAll_Node, select_below_none.
  2:{ apply Forall_map_all. intros d. by split. }
  rewrite map_snd_d3_enter_nil. cbn [append_children].
  fold (legend_keys fd p). unfold fixUpLegend.
  cbn [set_attr List.filter app]. rewrite selectAll_Node.
  assert (Hkeys : Forall (fun x => has_class "key" x = true /\
                                   selectAll "key" x = [])
                    (legend_keys fd p)).
  { unfold legend_keys. apply Forall_app.
    split; apply Forall_map_all; intros d; by split. }
  rewrite (select_below_all _ _ Hkeys).
  apply (update_selected_children "key" _ _ _ _ _ Hkeys).
Qed.

Lemma selectAll_legend0 (cls : string) :
  selectAll cls (Node "g" ["legend"] [] []) = [].
Proof. reflexivity. Qed.

(** The chart group: axes, legend, bands, lines. *)
Lemma chart_group_structure (fd : formData) (p : computed)
    (sorted : list series) (yLines : option (list number)) :
  exists gAttrs xAttrs (xAxisContent : list node),
    chart_group fd p sorted yLines =
      Node "g" [] gAttrs
        ([Node "g" ["y"; "axis"] []
            (d3_svg_axis (d3_linear_ticks (yDomain p)));
          Node "g" ["x"; "axis"] xAttrs xAxisContent;
          renderLegend (Node "g" ["legend"] [] []) fd p]
         ++ imap (band_of fd p) sorted ++ lines_of p yLines) /\
    (forall cls, String.eqb cls "tick" = false ->
                 String.eqb cls "domain" = false ->
                 select_below cls xAxisContent = []).
Proof.
  unfold chart_group. cbv zeta.
  set (xAxis := if displayXAxis p then _ else _).
  assert (Hx : exists xAttrs content,
             xAxis = Node "g" ["x"; "axis"] xAttrs content /\
             forall cls, String.eqb cls "tick" = false ->
                         String.eqb cls "domain" = false ->
                         select_below cls content = []).
  { unfold xAxis. destruct (displayXAxis p); cbn [append_children app].
    - do 2 eexists. split; [reflexivity|]. intros. by apply select_below_axis.
    - do 2 eexists. split; [reflexivity|]. done. }
  destruct Hx as (xAttrs & content & -> & Hcontent).
  do 3 eexists. split; [|exact Hcontent].
  cbn [append_children app].
  assert (Hg1 : forall cls a,
            String.eqb cls "tick" = false -> String.eqb cls "domain" = false ->
            String.eqb cls "y" = false -> String.eqb cls "x" = false ->
            String.eqb cls "axis" = false -> String.eqb cls "legend" = false ->
            select_below cls
              [Node "g" ["y"; "axis"] []
                 (d3_svg_axis (d3_linear_ticks (yDomain p)));
               Node "g" ["x"; "axis"] xAttrs content;
               Node "g" ["legend"] a []] = []).
  { intros cls a Ht Hd Hy Hxx Ha Hl.
    rewrite !select_below_cons, !selectAll_Node, select_below_nil.
    rewrite (select_below_axis _ _ Ht Hd), (Hcontent _ Ht Hd).
    unfold has_class. cbn [classes_of existsb]. rewrite Hy, Hxx, Ha, Hl.
    reflexivity. }
  rewrite selectAll_Node, Hg1 by reflexivity.
  rewrite (map_d3_enter_nil (band_group fd p)).
  assert (Hbands : imap (band_group fd p) sorted = imap (band_of fd p) sorted).
  { apply imap_ext. intros. apply band_group_band_of. }
  rewrite Hbands.
  assert (Hlines : match yLines with
                   | Some yLines0 =>
                       map (fun e => line_mark p (snd e))
                         (d3_enter
                            (selectAll "line"
                               (Node "g" []
                                  [("transform",
                                    ATranslate
                                      (JNumber (Fin (left (padding p))))
                                      (JNumber (Fin (top (padding p)))))]
                                  ([Node "g" ["y"; "axis"] []
                                      (d3_svg_axis
                                         (d3_linear_ticks (yDomain p)));
                                    Node "g" ["x"; "axis"] xAttrs content;
                                    Node "g" ["legend"] [] []]
                                   ++ imap (band_of fd p) sorted)))
                            yLines0)
                   | None => []
                   end = lines_of p yLines).
  { destruct yLines as [ys|]; [|done]. unfold lines_of.
    rewrite selectAll_Node, select_below_app, Hg1 by reflexivity.
    rewrite select_below_none.
    - apply map_snd_d3_enter_nil.
    - apply Forall_imap. intros i d. split; [done|].
      unfold band_of. rewrite selectAll_Node. apply select_below_none.
      apply Forall_map_all. intros v. by split. }
  rewrite <- Hlines. reflexivity.
Qed.

(** What a class selector finds in the rendered chart: keys of the
    legend, bands with their points, lines. *)
Lemma selectAll_rendered (s : state) (slice : slice_t) (json : json_t)
    (arr : list series) :
  heap s !! json_data json = Some arr ->
  arr <> [] ->
  let sorted := Array_sort (comparator "color") arr in
  let fd := slice_formData slice in
  exists interval : Q,
    computeTickInterval (d3_range (length sorted)) = Ok interval /\
    let p := props_of (json_data json) sorted (slice_width slice)
               (slice_height slice) interval in
    outcome (computedProps fd (json_data json) (slice_width slice)
               (slice_height slice)) s = Ok p /\
    forall cls : string,
      String.eqb cls "tick" = false -> String.eqb cls "domain" = false ->
      String.eqb cls "y" = false -> String.eqb cls "x" = false ->
      String.eqb cls "axis" = false -> String.eqb cls "legend" = false ->
      selectAll cls (root (final_state (scatCatViz slice json) s)) =
        select_below cls
          (imap (position_key
                   (legend_adjustments (legendWidth p)
                      (map getBBox_width (legend_keys fd p))))
             (legend_keys fd p))
        ++ select_below cls (imap (band_of fd p) sorted)
        ++ select_below cls (lines_of p (json_yLines json)).
Proof.
  intros H Hne sorted fd.
  destruct (scatCatViz_run s slice json arr H Hne)
    as (interval & svgAttrs & a1 & a2 & l1 & l2 & Hi & Hrun).
  exists interval. split; [exact Hi|]. cbv zeta in *. split.
  { destruct (computedProps_run s fd (json_data json) (slice_width slice)
                (slice_height slice) arr H Hne) as (i' & Hi' & Hrun').
    assert (i' = interval) as -> by (unfold sorted in *; congruence).
    unfold outcome. by rewrite Hrun'. }
  intros cls Ht Hd Hy Hx Ha Hl.
  unfold final_state, root. rewrite Hrun. cbn [snd container].
  fold sorted. fold fd.
  destruct (chart_group_structure fd
              (props_of (json_data json) sorted (slice_width slice)
                 (slice_height slice) interval) sorted (json_yLines json))
    as (gAttrs & xAttrs & xc & -> & Hxc).
  rewrite renderLegend_structure.
  rewrite selectAll_Node, select_below_cons, selectAll_Node.
  rewrite !select_below_cons, !selectAll_Node, !select_below_app,
    !select_below_cons, !selectAll_Node, !select_below_nil.
  rewrite (select_below_axis _ _ Ht Hd), (Hxc _ Ht Hd).
  unfold has_class, axis_label. cbn [classes_of existsb].
  rewrite Hy, Hx, Ha, Hl. cbn [orb app]. by rewrite !app_nil_r.
Qed.

Lemma select_below_bands (fd : formData) (p : computed) (sorted : list series) :
  select_below "band" (imap (band_of fd p) sorted) = imap (band_of fd p) sorted.
Proof.
  apply select_below_all, Forall_imap. intros i d. split; [done|].
  unfold band_of. rewrite selectAll_Node. apply select_below_none.
  apply Forall_map_all. intros v. by split.
Qed.

Lemma select_below_keys_none (cls : string) (fd : formData) (p : computed)
    (adj : list (Q * Q)) :
  String.eqb cls "key" = false -> String.eqb cls "color" = false ->
  String.eqb cls "shape" = false -> String.eqb cls "point" = false ->
  String.eqb cls "key-symbol" = false -> String.eqb cls "key-text" = false ->
  select_below cls (imap (position_key adj) (legend_keys fd p)) = [].
Proof.
  intros Hk Hc Hs Hp Hks Hkt. apply select_below_none.
  apply (Forall_imap_from
           (fun k' => has_class cls k' = false /\ selectAll cls k' = [])).
  - unfold legend_keys. apply Forall_app.
    split; apply Forall_map_all; intros d; unfold has_class, selectAll;
      cbn [color_key shape_key classes_of existsb descendants flat_map app
           List.filter has_class];
      rewrite ?Hk, ?Hc, ?Hs, ?Hp, ?Hks, ?Hkt; by cbn.
  - intros i k' Hk'. by rewrite !(proj1 (position_key_class adj i cls k')),
      !(proj2 (position_key_class adj i cls k')).
Qed.

Lemma select_below_lines (cls : string) (p : computed)
    (yLines : option (list number)) :
  select_below cls (lines_of p yLines) =
  if String.eqb cls "line" then lines_of p yLines else [].
Proof.
  destruct (String.eqb cls "line") eqn:E.
  - apply select_below_all. destruct yLines as [ys|]; [|constructor].
    apply Forall_map_all. intros d. unfold has_class, selectAll. cbn.
    by rewrite E.
  - apply select_below_none. destruct yLines as [ys|]; [|constructor].
    apply Forall_map_all. intros d. unfold has_class, selectAll. cbn.
    by rewrite E.
Qed.

Lemma total_points_perm (l1 l2 : list series) :
  l1 ≡ₚ l2 -> total_points l1 = total_points l2.
Proof.
  unfold total_points.
  induction 1 as [|x l l' _ IH|x x' l|l l' l'' _ IH1 _ IH2]; simpl; lia.
Qed.

Lemma flat_map_points_bands (fd : formData) (p : computed) (sorted : list series) :
  flat_map (selectAll "point") (imap (band_of fd p) sorted) =
  flat_map (fun d => map (point_mark fd p) (values d)) sorted.
Proof.
  assert (Hg : forall g : nat -> series -> node,
            (forall i d, selectAll "point" (g i d)
                         = map (point_mark fd p) (values d)) ->
            flat_map (selectAll "point") (imap g sorted) =
            flat_map (fun d => map (point_mark fd p) (values d)) sorted).
  { induction sorted as [|d l IH]; intros g Hg; [done|].
    cbn [imap flat_map]. rewrite Hg. f_equal. apply IH.
    intros i d'. apply Hg. }
  apply Hg. intros i d. unfold band_of. rewrite selectAll_Node.
  apply select_below_all. apply Forall_map_all. intros v. by split.
Qed.


Lemma length_flat_map_points (fd : formData) (p : computed) (l : list series) :
  length (flat_map (fun d => map (point_mark fd p) (values d)) l)
  = total_points l.
Proof.
  unfold total_points. induction l as [|d l IH]; [done|].
  cbn [flat_map map sum_list sum_list_with].
  rewrite length_app, length_map, IH. reflexivity.
Qed.


(** For a dataset with at least one series, [yLines = [3]] draws
    exactly one line, from [x = 0] to [x = plotWidth] at the height
    [yScale(3)]; an empty or absent [yLines] draws none. *)
Theorem reference_lines_drawn (s : state) (slice : slice_t) (data : loc)
    (arr : list series) :
  heap s !! data = Some arr ->
  arr <> [] ->
  exists p : computed,
    outcome (computedProps (slice_formData slice) data (slice_width slice)
               (slice_height slice)) s = Ok p /\
    reference_lines
      (final_state (scatCatViz slice (Json data (Some [Fin 3]))) s)
    = [Node "line" ["line"]
         [("stroke", AStr "red");
          ("stroke-width", ANum (Fin (3 # 2)));
          ("x1", ANum (Fin 0));
          ("x2", ANum (Fin (plotWidth p)));
          ("y1", ANum (yScale p (Fin 3)));
          ("y2", ANum (yScale p (Fin 3)))] []] /\
    reference_lines (final_state (scatCatViz slice (Json data (Some []))) s)
    = [] /\
    reference_lines (final_state (scatCatViz slice (Json data None)) s) = [].
Proof.
  intros H Hne.
  assert (Hlines : forall yLines, exists interval,
            computeTickInterval
              (d3_range (length (Array_sort (comparator "color") arr)))
            = Ok interval /\
            let p := props_of data (Array_sort (comparator "color") arr)
                       (slice_width slice) (slice_height slice) interval in
            outcome (computedProps (slice_formData slice) data
                       (slice_width slice) (slice_height slice)) s = Ok p /\
            reference_lines (final_state (scatCatViz slice (Json data yLines)) s)
            = lines_of p yLines).
  { intros yLines.
    destruct (selectAll_rendered s slice (Json data yLines) arr H Hne)
      as (interval & Hi & Hp & Hsel).
    exists interval. split; [exact Hi|]. split; [exact Hp|].
    unfold reference_lines. rewrite Hsel by reflexivity.
    rewrite select_below_keys_none by reflexivity.
    rewrite select_below_lines. cbn [String.eqb Ascii.eqb Bool.eqb].
    rewrite select_below_none; [done|].
    apply Forall_imap. intros i d. split; [done|].
    unfold band_of. rewrite selectAll_Node. apply select_below_none.
    apply Forall_map_all. intros v. by split. }
  destruct (Hlines (Some [Fin 3])) as (i1 & Hi1 & Hp1 & Hl1).
  destruct (Hlines (Some [])) as (i2 & Hi2 & _ & Hl2).
  destruct (Hlines None) as (i3 & Hi3 & _ & Hl3).
  eexists. split; [exact Hp1|]. by rewrite Hl1, Hl2, Hl3.
Qed.






Lemma StronglySorted_seq (a n : nat) : StronglySorted lt (seq a n).
Proof.
  forget_parameters.
  revert a. induction n as [|n IH]; intros a; cbn [seq]; [constructor|].
  constructor; [apply IH|]. apply Forall_forall.
  intros x Hx%list_elem_of_In%in_seq. lia.
Qed.

Lemma StronglySorted_filter {A : Type} (R : A -> A -> Prop) (f : A -> bool)
    (l : list A) :
  StronglySorted R l -> StronglySorted R (List.filter f l).
Proof.
  forget_parameters.
  induction 1 as [|x l Hs IH Hx]; cbn [List.filter]; [constructor|].
  destruct (f x); [|done]. constructor; [done|].
  apply Forall_forall. intros z Hz%list_elem_of_In%filter_In.
  rewrite Forall_forall in Hx. apply Hx, list_elem_of_In, Hz.
Qed.

(** C3.  For a non-empty list of indices whose maximum has [d] decimal
    digits, the tick interval is [10^(d-1)/2].  [computedProps] computes
    it for the indices of the series, and the ticks it returns are
    exactly the indices that are integer multiples of the interval, in
    increasing order; when the largest index has a single digit the
    interval is one half and every index is a tick. *)
Theorem tick_interval_and_ticks (indices : list nat) (s : state)
    (fd : formData) (data : loc) (width height : Q) (arr : list series) :
  indices <> [] ->
  heap s !! data = Some arr ->
  arr <> [] ->
  (let d := String.length (Nat_toString (max_list indices)) in
   ((1 <= d)%nat /\ (max_list indices < 10 ^ d)%nat /\
    (max_list indices = 0%nat \/ (10 ^ (d - 1) <= max_list indices)%nat)) /\
   exists interval : Q,
     computeTickInterval indices = Ok interval /\
     (interval == inject_Z (10 ^ Z.of_nat (d - 1)) / 2)%Q) /\
  let d := String.length (Nat_toString (length arr - 1)) in
  exists (p : computed) (interval : Q),
    outcome (computedProps fd data width height) s = Ok p /\
    xDomain p = d3_range (length arr) /\
    max_list (xDomain p) = (length arr - 1)%nat /\
    computeTickInterval (xDomain p) = Ok interval /\
    (interval == inject_Z (10 ^ Z.of_nat (d - 1)) / 2)%Q /\
    (forall i : nat,
       In i (xTicks p) <->
       In i (xDomain p) /\
       exists k : Z, (inject_Z (Z.of_nat i) == inject_Z k * interval)%Q) /\
    StronglySorted lt (xTicks p) /\
    (d = 1%nat -> (interval == 1 # 2)%Q /\ xTicks p = xDomain p).
Proof.
  clear d3_linear_ticks getBBox_width getColorFromScheme.
  intros Hind H Hne. split.
  { intros d. split; [apply Nat_toString_length|].
    destruct (computeTickInterval_spec indices Hind) as (interval & Hi & Hq & _).
    by exists interval. }
  intros d.
  destruct (computedProps_run s fd data width height arr H Hne)
    as (interval & Hi & Hrun).
  rewrite Array_sort_length in Hi.
  set (sorted := Array_sort (comparator "color") arr) in *.
  assert (Hdom : d3_range (length arr) <> []) by by apply d3_range_nonempty.
  destruct (computeTickInterval_spec _ Hdom) as (interval' & Hi' & Hq & Hpos).
  assert (interval' = interval) as -> by congruence.
  assert (Hmax : max_list (d3_range (length arr)) = (length arr - 1)%nat).
  { destruct arr as [|a arr]; [done|]. cbn [length].
    rewrite max_list_d3_range. lia. }
  rewrite Hmax in Hq. fold d in Hq.
  exists (props_of data sorted width height interval), interval.
  unfold outcome. rewrite Hrun. cbn [fst xDomain xTicks props_of].
  assert (Hlen : length sorted = length arr) by apply Array_sort_length.
  rewrite Hlen.
  split; [reflexivity|]. split; [reflexivity|]. split; [exact Hmax|].
  split; [exact Hi|]. split; [exact Hq|]. split; [|split].
  - intros i. rewrite filter_In, (is_tick_spec _ _ Hpos). tauto.
  - apply StronglySorted_filter, StronglySorted_seq.
  - intros Hd. rewrite Hd in Hq.
    assert (Hhalf : (interval == 1 # 2)%Q) by (rewrite Hq; reflexivity).
    split; [exact Hhalf|]. apply filter_all_true. intros x _.
    by apply is_tick_half.
Qed.

Lemma rows_from_layout (legendWidth : Q) (widths : list Q) (cx cy : Q) :
  match rows_of (keys_from legendWidth cx cy widths) with
  | [] => True
  | row :: rows =>
      match row with
      | [] => True
      | k :: _ =>
          if Qeq_bool cy (key_y k) then row_positions cx row
          else row_positions 0 row
      end /\
      Forall (row_positions 0) rows
  end.
Proof.
  revert cx cy. induction widths as [|w ws IH]; intros cx cy; [done|].
  unfold keys_from. cbn [legend_place].
  set (wrap := Qleb legendWidth (cx + w)).
  set (x := if wrap then 0%Q else cx).
  set (yy := if wrap then (cy + paddingY)%Q else cy).
  assert (Hxy : (if wrap then (0%Q, (cy + paddingY)%Q) else (cx, cy)) = (x, yy)).
  { unfold x, yy. by destruct wrap. }
  rewrite Hxy. cbn [zip_with fst snd].
  fold (keys_from legendWidth (x + (w + paddingX)) yy ws).
  specialize (IH (x + (w + paddingX))%Q yy).
  assert (Hhead : forall rest,
            row_positions x (Placed w x yy :: rest) ->
            if Qeq_bool cy yy then row_positions cx (Placed w x yy :: rest)
            else row_positions 0 (Placed w x yy :: rest)).
  { intros rest Hr. unfold x, yy in *. destruct wrap.
    - assert (Hf : Qeq_bool cy (cy + paddingY) = false).
      { destruct (Qeq_bool cy (cy + paddingY)) eqn:E'; [|done].
        apply Qeq_bool_iff in E'. unfold paddingY in E'. lra. }
      by rewrite Hf.
    - by rewrite Qeq_bool_refl. }
  cbn [rows_of].
  destruct (rows_of (keys_from legendWidth (x + (w + paddingX)) yy ws))
    as [|[|k' row] rows].
  - split; [|done]. apply Hhead. cbn [row_positions key_x]. split; [lra|done].
  - split; [|done]. apply Hhead. cbn [row_positions key_x]. split; [lra|done].
  - destruct IH as [Hrow Hrows]. cbn [key_y].
    destruct (Qeq_bool yy (key_y k')) eqn:Ey.
    + split; [|done]. apply Hhead. cbn [row_positions key_x key_width] in *.
      split; [lra|]. exact Hrow.
    + split.
      * apply Hhead. cbn [row_positions key_x]. split; [lra|done].
      * constructor; [exact Hrow|exact Hrows].
Qed.

(** Every row starts at the left edge and its keys stand side by side,
    so that [row_width] is the extent the row occupies. *)
Lemma legend_rows_layout (legendWidth : Q) (widths : list Q) :
  Forall (row_positions 0) (rows_of (placed_keys legendWidth widths)).
Proof.
  unfold placed_keys. rewrite legend_adjustments_place.
  pose proof (rows_from_layout legendWidth widths 0 paddingY) as H.
  fold (keys_from legendWidth 0 paddingY widths).
  destruct (rows_of (keys_from legendWidth 0 paddingY widths))
    as [|row rows]; [constructor|].
  destruct H as [Hrow Hrows]. constructor; [|exact Hrows].
  destruct row as [|k row]; [done|].
  destruct (Qeq_bool paddingY (key_y k)); exact Hrow.
Qed.

(** C4, amended.  When no key is wider than the legend, no row of the
    placement occupies more than the legend width: every row starts at
    the left edge with its keys side by side, and the widths of its keys
    with the gaps of 16 between them stay within the legend width. *)
Theorem legend_rows_fit (legendWidth : Q) (widths : list Q) :
  Forall (fun w => (w <= legendWidth)%Q) widths ->
  Forall (fun row => row_positions 0 row /\ (row_width row <= legendWidth)%Q)
    (rows_of (placed_keys legendWidth widths)).
Proof.
  intros Hw. apply Forall_and. split; [apply legend_rows_layout|].
  unfold placed_keys. rewrite legend_adjustments_place.
  pose proof (rows_from_ok legendWidth widths 0 paddingY Hw) as H.
  fold (keys_from legendWidth 0 paddingY widths).
  pose proof (rows_of_nonempty (keys_from legendWidth 0 paddingY widths)) as Hn.
  destruct (rows_of (keys_from legendWidth 0 paddingY widths))
    as [|row rows]; [constructor|].
  destruct H as [Hrow Hrows]. constructor; [|exact Hrows].
  destruct row as [|k row]; [by inversion Hn|].
  unfold row_ok in Hrow. destruct (Qeq_bool paddingY (key_y k)); lra.
Qed.

(** C6, amended.  When two points of the dataset differ in [y], the
    difference of no two [y] values overflows, and the height is a
    number of double precision, the vertical scale has the domain
    [[min y, max y]] over all points and the range [[plotHeight, 0]]; it
    sends the minimum to [plotHeight] and the maximum to [0]. *)
Theorem vertical_scale_extremes (s : state) (fd : formData) (data : loc)
    (width height : Q) (arr : list series) (v1 v2 : point) :
  heap s !! data = Some arr ->
  In v1 (all_points arr) ->
  In v2 (all_points arr) ->
  ~ (y v1 == y v2)%Q ->
  (forall v w, In v (all_points arr) -> In w (all_points arr) ->
     in_double_range (y w - y v)) ->
  in_double_range height ->
  exists (p : computed) (lo hi : Q),
    outcome (computedProps fd data width height) s = Ok p /\
    yDomain p = (Fin lo, Fin hi) /\
    yScale p = d3_scale_linear (yDomain p) (Fin (plotHeight p), Fin 0) /\
    (exists v, In v (all_points arr) /\ y v = lo) /\
    (exists v, In v (all_points arr) /\ y v = hi) /\
    (forall v, In v (all_points arr) -> (lo <= y v <= hi)%Q) /\
    yScale p (Fin lo) =n= Fin (plotHeight p) /\
    yScale p (Fin hi) =n= Fin 0.
Proof.
  intros H Hv1 Hv2 Hdiff Hspread Hheight.
  assert (Hne : arr <> []).
  { intros ->. destruct Hv1. }
  destruct (computedProps_run s fd data width height arr H Hne)
    as (interval & _ & Hrun).
  set (sorted := Array_sort (comparator "color") arr) in *.
  assert (Hpts : forall v, In v (all_points sorted) <-> In v (all_points arr)).
  { intros v. apply all_points_perm, Array_sort_perm. }
  pose proof (yMin_spec sorted) as Hmin. pose proof (yMax_spec sorted) as Hmax.
  destruct (d3_min sorted _) as [lo|] eqn:Elo.
  2:{ apply Hpts in Hv1. rewrite Hmin in Hv1. destruct Hv1. }
  destruct (d3_max sorted _) as [hi|] eqn:Ehi.
  2:{ apply Hpts in Hv1. rewrite Hmax in Hv1. destruct Hv1. }
  destruct Hmin as ((vlo & Hvlo & Hylo) & Hlo).
  destruct Hmax as ((vhi & Hvhi & Hyhi) & Hhi).
  assert (Hlt : (lo < hi)%Q).
  { pose proof (Hlo v1 (proj2 (Hpts v1) Hv1)).
    pose proof (Hlo v2 (proj2 (Hpts v2) Hv2)).
    pose proof (Hhi v1 (proj2 (Hpts v1) Hv1)).
    pose proof (Hhi v2 (proj2 (Hpts v2) Hv2)).
    destruct (Qlt_le_dec lo hi); [done|]. exfalso. apply Hdiff. lra. }
  assert (Hd : in_double_range (hi - lo)).
  { rewrite <- Hylo, <- Hyhi. apply Hspread; by apply Hpts. }
  exists (props_of data sorted width height interval), lo, hi.
  unfold outcome. rewrite Hrun. cbn [fst].
  assert (Hdom : yDomain (props_of data sorted width height interval)
                 = (Fin lo, Fin hi)).
  { cbn [yDomain props_of]. by rewrite Elo, Ehi. }
  split; [reflexivity|]. split; [exact Hdom|].
  split; [reflexivity|].
  split; [exists vlo; split; [by apply Hpts|done]|].
  split; [exists vhi; split; [by apply Hpts|done]|].
  split.
  { intros v Hv. apply Hpts in Hv. split; [by apply Hlo|by apply Hhi]. }
  cbn [yScale props_of]. rewrite Elo, Ehi. cbn [Number_of].
  set (ph := plotHeight (props_of data sorted width height interval)).
  cbn [plotHeight props_of] in ph. fold ph.
  assert (Hph : in_double_range ph).
  { pose proof overflow_bound_large. destruct Hheight.
    unfold in_double_range, ph. cbn [top bottom]. split; lra. }
  destruct (d3_scale_linear_Fin lo hi ph lo Hlt ltac:(lra) Hd Hph)
    as (a & -> & Ea).
  destruct (d3_scale_linear_Fin lo hi ph hi Hlt ltac:(lra) Hd Hph)
    as (b & -> & Eb).
  cbn [num_eq]. split.
  - rewrite Ea. field. lra.
  - rewrite Eb. field. lra.
Qed.

(** C9.  [sortData] writes the sorted array back into the array it was
    given and returns that same array.  A render therefore leaves the
    caller's dataset sorted by the first-point color comparison, also
    when the render throws; no other array is touched, and the store
    differs from the one before whenever the sort moves a series. *)
Theorem render_sorts_dataset_in_place (s : state) (slice : slice_t)
    (json : json_t) (arr : list series) :
  heap s !! json_data json = Some arr ->
  let data := json_data json in
  let sorted := Array_sort (comparator "color") arr in
  let s' := final_state (scatCatViz slice json) s in
  outcome (sortData data "color") s = Ok data /\
  heap (final_state (sortData data "color") s) !! data = Some sorted /\
  heap s' !! data = Some sorted /\
  (forall l : loc, l <> data -> heap s' !! l = heap s !! l) /\
  (sorted <> arr -> heap s' <> heap s).
Proof.
  intros H data sorted s'.
  assert (Hheap : heap s' = <[data := sorted]> (heap s)).
  { unfold s', final_state.
    assert (arr = [] \/ arr <> []) as [->|Hne]
      by (destruct arr; [by left|by right]).
    - unfold sorted.
      by rewrite (scatCatViz_empty _ _ _ H), Array_sort_nil.
    - destruct (scatCatViz_run s slice json arr H Hne)
        as (interval & svgAttrs & a1 & a2 & l1 & l2 & Hi & Hrun).
      by rewrite Hrun. }
  unfold outcome, final_state. rewrite (sortData_run _ _ _ _ H).
  cbn [fst snd heap]. rewrite Hheap, !lookup_insert_eq.
  split; [done|]. split; [done|]. split; [done|]. split.
  - intros l Hl. by rewrite lookup_insert_ne.
  - intros Hs E. apply Hs.
    assert (Hl : <[data := sorted]> (heap s) !! data = heap s !! data)
      by (by rewrite E).
    rewrite lookup_insert_eq in Hl. unfold data in Hl. rewrite H in Hl.
    by injection Hl.
Qed.

(** C10.  For a series with an empty values array, [pickFirst] returns
    the default null, which coerces to the number zero: the comparator
    treats the series exactly as one whose first point's color coerces
    to zero, on either side of the comparison. *)
Theorem empty_series_compares_as_zero (a : series) :
  values a = [] ->
  pickFirst (values a) "color" JNull = JNull /\
  ToNumber JNull = Fin 0 /\
  sortKey "color" a = Fin 0 /\
  (forall b : series,
     comparator "color" a b = num_sub (Fin 0) (sortKey "color" b) /\
     comparator "color" b a = num_sub (sortKey "color" b) (Fin 0)) /\
  (forall z b : series,
     sortKey "color" z = Fin 0 ->
     comparator "color" a b = comparator "color" z b /\
     comparator "color" b a = comparator "color" b z).
Proof.
  intros H.
  assert (Hk : sortKey "color" a = Fin 0) by (unfold sortKey; by rewrite H).
  split; [by rewrite H|]. split; [done|]. split; [exact Hk|]. split.
  - intros b. unfold comparator. by rewrite Hk.
  - intros z b Hz. unfold comparator. by rewrite Hk, Hz.
Qed.

(** ** The keys of a set *)

Lemma array_index_toString (k : string) (n : N) :
  array_index k = Some n -> N_toString n = k.
Proof.
  unfold array_index. destruct k as [|c k]; [done|].
  destruct (parse_digits (String c k) 0) as [m|]; [|done].
  destruct (String.eqb (N_toString m) (String c k)) eqn:E; [|done].
  cbn [andb]. destruct (m <? 4294967295)%N; [|done].
  intros [= <-]. by apply String.eqb_eq.
Qed.

Lemma omap_array_index (keys : list string) :
  map N_toString (omap array_index keys) = List.filter is_array_index keys.
Proof.
  induction keys as [|k keys IH]; [done|].
  cbn [omap list_omap List.filter]. unfold is_array_index at 1.
  destruct (array_index k) as [n|] eqn:E; [|exact IH].
  cbn [map]. by rewrite IH, (array_index_toString k n E).
Qed.

Lemma filter_partition_perm {A : Type} (f : A -> bool) (l : list A) :
  List.filter f l ++ List.filter (fun x => negb (f x)) l ≡ₚ l.
Proof.
  induction l as [|x l IH]; [done|]. cbn [List.filter].
  destruct (f x); cbn [negb app].
  - by rewrite IH.
  - by rewrite <- Permutation_middle, IH.
Qed.

Lemma for_in_order_perm (keys : list string) : for_in_order keys ≡ₚ keys.
Proof.
  unfold for_in_order. rewrite merge_sort_Permutation, omap_array_index.
  apply filter_partition_perm.
Qed.

Lemma for_in_order_named (keys : list string) :
  List.filter named_key (for_in_order keys) = List.filter named_key keys.
Proof.
  unfold for_in_order, named_key. rewrite List.filter_app.
  assert (Hidx : List.filter (fun k => negb (is_array_index k))
                   (map N_toString (merge_sort N.le (omap array_index keys)))
                 = []).
  { pose proof (merge_sort_Permutation N.le (omap array_index keys)) as Hp.
    assert (Hall : Forall (fun n => is_array_index (N_toString n) = true)
                     (merge_sort N.le (omap array_index keys))).
    { apply Forall_forall. intros m Hm. rewrite Hp in Hm.
      apply list_elem_of_omap in Hm as (k & _ & Hk).
      rewrite (array_index_toString k m Hk). unfold is_array_index.
      by rewrite Hk. }
    clear Hp. induction Hall as [|m l' Hm _ IH']; [done|].
    cbn [map List.filter]. by rewrite Hm. }
  rewrite Hidx. cbn [app]. rewrite filter_filter_bool.
  apply List.filter_ext. intros k. by destruct (is_array_index k).
Qed.

Lemma for_in_order_indices (keys : list string) :
  omap array_index (for_in_order keys)
  = merge_sort N.le (omap array_index keys).
Proof.
  unfold for_in_order. rewrite omap_app.
  assert (H1 : omap array_index
                 (List.filter (fun k => negb (is_array_index k)) keys) = []).
  { induction keys as [|k keys IH]; [done|]. cbn [List.filter].
    unfold is_array_index at 1. destruct (array_index k) eqn:E; cbn [negb].
    - exact IH.
    - cbn [omap list_omap]. by rewrite E. }
  rewrite H1, app_nil_r.
  pose proof (merge_sort_Permutation N.le (omap array_index keys)) as Hp.
  assert (Hall : Forall (fun n => array_index (N_toString n) = Some n)
                   (merge_sort N.le (omap array_index keys))).
  { apply Forall_forall. intros m Hm. rewrite Hp in Hm.
    apply list_elem_of_omap in Hm as (k & _ & Hk).
    by rewrite (array_index_toString k m Hk). }
  clear Hp. induction Hall as [|m l Hm _ IH]; [done|].
  cbn [map omap list_omap fmap list_fmap]. rewrite Hm. by f_equal.
Qed.

(** The values of a set: the distinct members, array indices first in
    ascending order, then the other members as first seen. *)
Lemma d3_set_values_spec (array : list string) :
  d3_set_values array ≡ₚ first_seen array /\
  NoDup (d3_set_values array) /\
  length (d3_set_values array) = length (first_seen array) /\
  List.filter named_key (d3_set_values array)
    = List.filter named_key (first_seen array) /\
  StronglySorted N.le (omap array_index (d3_set_values array)).
Proof.
  unfold d3_set_values. rewrite insertion_keys_first_seen.
  pose proof (for_in_order_perm (first_seen array)) as Hp.
  split; [exact Hp|]. split; [|split; [|split]].
  - rewrite Hp. apply first_seen_NoDup.
  - by rewrite Hp.
  - apply for_in_order_named.
  - rewrite for_in_order_indices. apply StronglySorted_merge_sort; apply _.
Qed.

Lemma d3_set_values_id (array : list string) :
  Forall (fun k => is_array_index k = false) array ->
  d3_set_values array = first_seen array.
Proof.
  intros H.
  assert (Hall : forall l : list string,
            Forall (fun k => is_array_index k = false) l ->
            List.filter named_key l = l).
  { intros l Hl. apply filter_all_true. intros k Hk.
    rewrite Forall_forall in Hl. unfold named_key.
    by rewrite (Hl k (proj2 (list_elem_of_In _ _) Hk)). }
  destruct (d3_set_values_spec array) as (Hp & _ & _ & Hn & _).
  rewrite <- (Hall (d3_set_values array)), Hn.
  - apply Hall. apply Forall_forall. intros k Hk.
    rewrite Forall_forall in H. apply H.
    apply list_elem_of_In in Hk. apply (proj1 (first_seen_In _ _)) in Hk.
    by apply list_elem_of_In.
  - apply Forall_forall. intros k Hk. rewrite Hp in Hk.
    rewrite Forall_forall in H. apply H.
    apply list_elem_of_In in Hk. apply (proj1 (first_seen_In _ _)) in Hk.
    by apply list_elem_of_In.
Qed.

(** ** The legend keys of a rendered chart *)

Lemma concat_map_attr (attr : point -> jsval) (l : list series) :
  map ToString (concat (map (fun d => map attr (values d)) l))
  = map (fun v => ToString (attr v)) (all_points l).
Proof.
  unfold all_points. induction l as [|d l IH]; [done|].
  cbn [map concat]. rewrite !map_app, IH, map_map. reflexivity.
Qed.

Lemma select_below_color_keys (fd : formData) (p : computed)
    (adj : list (Q * Q)) :
  select_below "color" (imap (position_key adj) (legend_keys fd p))
  = imap (position_key adj) (map (color_key fd) (colorValues p)).
Proof.
  unfold legend_keys. rewrite imap_app, select_below_app.
  rewrite select_below_all, select_below_none; [by rewrite app_nil_r| |].
  - apply (Forall_imap_from
             (fun k => has_class "color" k = false /\ selectAll "color" k = [])).
    + apply Forall_map_all. intros d. by split.
    + intros i k Hk.
      by rewrite !(proj1 (position_key_class adj _ "color" k)),
        !(proj2 (position_key_class adj _ "color" k)).
  - apply (Forall_imap_from
             (fun k => has_class "color" k = true /\ selectAll "color" k = [])).
    + apply Forall_map_all. intros d. by split.
    + intros i k Hk.
      by rewrite !(proj1 (position_key_class adj _ "color" k)),
        !(proj2 (position_key_class adj _ "color" k)).
Qed.

Lemma select_below_shape_keys (fd : formData) (p : computed)
    (adj : list (Q * Q)) :
  select_below "shape" (imap (position_key adj) (legend_keys fd p))
  = imap (fun i => position_key adj (length (colorValues p) + i))
      (map (shape_key (shapeScale p)) (shapeValues p)).
Proof.
  unfold legend_keys. rewrite imap_app, select_below_app.
  rewrite select_below_none, select_below_all.
  - cbn [app]. apply imap_ext. intros i k _. cbn. by rewrite length_map.
  - apply (Forall_imap_from
             (fun k => has_class "shape" k = true /\ selectAll "shape" k = [])).
    + apply Forall_map_all. intros d. by split.
    + intros i k Hk. cbn.
      by rewrite !(proj1 (position_key_class adj _ "shape" k)),
        !(proj2 (position_key_class adj _ "shape" k)).
  - apply (Forall_imap_from
             (fun k => has_class "shape" k = false /\ selectAll "shape" k = [])).
    + apply Forall_map_all. intros d. by split.
    + intros i k Hk.
      by rewrite !(proj1 (position_key_class adj _ "shape" k)),
        !(proj2 (position_key_class adj _ "shape" k)).
Qed.

Lemma select_below_bands_none (cls : string) (fd : formData) (p : computed)
    (sorted : list series) :
  String.eqb cls "band" = false -> String.eqb cls "point" = false ->
  select_below cls (imap (band_of fd p) sorted) = [].
Proof.
  intros Hb Hp. apply select_below_none, Forall_imap. intros i d.
  unfold band_of, has_class. cbn [classes_of existsb]. rewrite Hb.
  split; [done|]. rewrite selectAll_Node. apply select_below_none.
  apply Forall_map_all. intros v. unfold has_class, selectAll. cbn.
  by rewrite Hp.
Qed.

Lemma position_key_children (adj : list (Q * Q)) (i : nat) (k : node) :
  children_of (position_key adj i k) = children_of k.
Proof.
  unfold position_key. destruct (adj !! i) as [[x yy]|]; [|done].
  by destruct k.
Qed.

Lemma legend_keys_rendered (s : state) (slice : slice_t) (json : json_t)
    (arr : list series) :
  heap s !! json_data json = Some arr ->
  arr <> [] ->
  let sorted := Array_sort (comparator "color") arr in
  let fd := slice_formData slice in
  let s' := final_state (scatCatViz slice json) s in
  exists (p : computed) (adj : list (Q * Q)),
    colorValues p
      = d3_set_values (map (fun v => ToString (color v)) (all_points sorted)) /\
    shapeValues p
      = d3_set_values (map (fun v => ToString (shape v)) (all_points sorted)) /\
    (forall v, shapeScale p v =
       match d3_scale_ordinal (shapeValues p) d3_svg_symbolTypes true
               (ToString v) with
       | Some t => JString t
       | None => JUndefined
       end) /\
    color_keys s'
      = imap (position_key adj) (map (color_key fd) (colorValues p)) /\
    shape_keys s'
      = imap (fun i => position_key adj (length (colorValues p) + i))
          (map (shape_key (shapeScale p)) (shapeValues p)).
Proof.
  intros H Hne sorted fd s'.
  destruct (selectAll_rendered s slice json arr H Hne)
    as (interval & _ & _ & Hsel).
  cbv zeta in Hsel. fold sorted fd s' in Hsel.
  eexists. eexists. split; [|split; [|split; [|split]]].
  4:{ unfold color_keys. rewrite Hsel by reflexivity.
      rewrite select_below_color_keys, select_below_bands_none by reflexivity.
      rewrite select_below_lines. cbn [String.eqb Ascii.eqb Bool.eqb].
      by rewrite !app_nil_r. }
  4:{ unfold shape_keys. rewrite Hsel by reflexivity.
      rewrite select_below_shape_keys, select_below_bands_none by reflexivity.
      rewrite select_below_lines. cbn [String.eqb Ascii.eqb Bool.eqb].
      by rewrite !app_nil_r. }
  - cbn [colorValues props_of]. by rewrite concat_map_attr.
  - cbn [shapeValues props_of]. by rewrite concat_map_attr.
  - intros v. reflexivity.
Qed.

Lemma shapeScale_position (sv : list string) (i : nat) (k : string) :
  NoDup sv ->
  sv !! i = Some k ->
  match d3_scale_ordinal sv d3_svg_symbolTypes true k with
  | Some t => JString t
  | None => JUndefined
  end = symbol_at i.
Proof.
  intros Hnd Hi. by rewrite (d3_scale_ordinal_lookup sv _ true i k Hnd Hi).
Qed.

(** C8, amended.  The legend has one color key per distinct string form
    of the points' color values and one shape key per distinct string
    form of their shape values.  Each list of keys holds the array
    indices among them first, in ascending order, and then the other
    keys as first seen in a scan of the points of the sorted series.  A
    shape key gets the symbol at its position in the list, cyclically;
    a color key gets the color that [getColorFromScheme] returns for
    its value. *)
Theorem legend_keys_match_values (s : state) (slice : slice_t) (json : json_t)
    (arr : list series) :
  heap s !! json_data json = Some arr ->
  let sorted := Array_sort (comparator "color") arr in
  let s' := final_state (scatCatViz slice json) s in
  let colors := map (fun v => ToString (color v)) (all_points sorted) in
  let shapes := map (fun v => ToString (shape v)) (all_points sorted) in
  let cv := d3_set_values colors in
  let sv := d3_set_values shapes in
  (map key_label (color_keys s') = map (fun d => Some (AStr d)) cv /\
   map key_label (shape_keys s') = map (fun d => Some (AStr d)) sv) /\
  (length (color_keys s') = length (first_seen colors) /\
   length (shape_keys s') = length (first_seen shapes)) /\
  (cv ≡ₚ first_seen colors /\ sv ≡ₚ first_seen shapes) /\
  (List.filter named_key cv = List.filter named_key (first_seen colors) /\
   List.filter named_key sv = List.filter named_key (first_seen shapes)) /\
  (StronglySorted N.le (omap array_index cv) /\
   StronglySorted N.le (omap array_index sv)) /\
  map key_visual (shape_keys s')
    = imap (fun i _ => Some (ASymbol (symbol_at i))) sv /\
  map key_visual (color_keys s')
    = map (fun d => Some (AVal (getColorFromScheme (JString d)
                                   (scheme (slice_formData slice))))) cv.
Proof.
  intros H sorted s' colors shapes cv sv.
  destruct (d3_set_values_spec colors) as (Hcp & Hcnd & Hcl & Hcn & Hci).
  destruct (d3_set_values_spec shapes) as (Hsp & Hsnd & Hsl & Hsn & Hsi).
  fold cv in Hcp, Hcnd, Hcl, Hcn, Hci. fold sv in Hsp, Hsnd, Hsl, Hsn, Hsi.
  assert (Hkeys :
    color_keys s' = [] /\ shape_keys s' = [] /\ cv = [] /\ sv = [] \/
    exists (adj : list (Q * Q)) (shapeScale : jsval -> jsval),
      (forall i k, sv !! i = Some k -> shapeScale (JString k) = symbol_at i) /\
      color_keys s'
        = imap (position_key adj)
            (map (color_key (slice_formData slice)) cv) /\
      shape_keys s'
        = imap (fun i => position_key adj (length cv + i))
            (map (shape_key shapeScale) sv)).
  { assert (arr = [] \/ arr <> []) as [->|Hne]
      by (destruct arr; [by left|by right]).
    - left. unfold s', final_state, color_keys, shape_keys, root.
      unfold cv, sv, colors, shapes, sorted.
      by rewrite (scatCatViz_empty _ _ _ H), Array_sort_nil.
    - right.
      destruct (legend_keys_rendered s slice json arr H Hne)
        as (p & adj & Hcv & Hsv & Hscale & Hck & Hsk).
      fold sorted colors cv in Hcv. fold sorted shapes sv in Hsv.
      fold s' in Hck, Hsk. rewrite Hcv in Hck, Hsk. rewrite Hsv in Hsk, Hscale.
      exists adj, (shapeScale p). split; [|by split].
      intros i k Hi. rewrite Hscale. cbn [ToString].
      by apply shapeScale_position. }
  split; [|split; [|split; [done|split; [done|split; [done|]]]]].
  - destruct Hkeys as [(-> & -> & -> & ->)|(adj & sc & _ & -> & ->)]; [done|].
    split; apply list_eq; intros i;
      rewrite !list_lookup_fmap, list_lookup_imap, list_lookup_fmap.
    + destruct (cv !! i); [|done]. cbn. unfold key_label.
      by rewrite position_key_children.
    + destruct (sv !! i); [|done]. cbn. unfold key_label.
      by rewrite position_key_children.
  - destruct Hkeys as [(-> & -> & Ec & Es)|(adj & sc & _ & -> & ->)].
    + by rewrite <- Hcl, <- Hsl, Ec, Es.
    + by rewrite !length_imap, !length_map.
  - destruct Hkeys as [(-> & -> & -> & ->)|(adj & sc & Hsc & -> & ->)]; [done|].
    split; apply list_eq; intros i;
      rewrite !list_lookup_fmap, !list_lookup_imap, ?list_lookup_fmap.
    + destruct (sv !! i) as [k|] eqn:E; [|done]. cbn. unfold key_visual.
      rewrite position_key_children. cbn. by rewrite (Hsc i k E).
    + destruct (cv !! i); [|done]. cbn. unfold key_visual.
      by rewrite position_key_children.
Qed.

(** ** Further properties of the renderer *)

Lemma scatCatViz_missing (s : state) (slice : slice_t) (json : json_t) :
  heap s !! json_data json = None ->
  exists e, scatCatViz slice json s = (Throw e, State (heap s) []).
Proof.
  intros H.
  destruct (computedProps_missing (State (heap s) []) (slice_formData slice)
              (json_data json) (slice_width slice) (slice_height slice) H)
    as [e He].
  exists e. unfold scatCatViz, bind at 1. unfold set_container at 1.
  unfold bind at 1. by rewrite He.
Qed.

(** The state a render of a non-empty dataset ends in. *)
Lemma scatCatViz_result (s : state) (slice : slice_t) (json : json_t)
    (arr : list series) :
  heap s !! json_data json = Some arr ->
  arr <> [] ->
  let sorted := Array_sort (comparator "color") arr in
  let fd := slice_formData slice in
  exists interval : Q,
    computeTickInterval (d3_range (length sorted)) = Ok interval /\
    let p := props_of (json_data json) sorted (slice_width slice)
               (slice_height slice) interval in
    scatCatViz slice json s =
      (Ok tt,
       State (<[json_data json := sorted]> (heap s))
         [Node "svg" []
            [("width", ANum (Fin (slice_width slice)));
             ("height", ANum (Fin (slice_height slice)))]
            [chart_group fd p sorted (json_yLines json);
             axis_label
               [("transform", AStr "rotate(-90)");
                ("x", ANum (Fin (0 - plotHeight p / 2)));
                ("y", ANum (Fin (left (padding p) / 5)))]
               (y_axis_label fd);
             axis_label
               [("x", ANum (Fin (plotWidth p / 2)));
                ("y", ANum (Fin (top (padding p) + plotHeight p
                                 + xlabelHeight p * (11 # 10))))]
               (x_axis_label fd)]]).
Proof.
  intros H Hne sorted fd.
  destruct (computedProps_run (State (heap s) []) (slice_formData slice)
              (json_data json) (slice_width slice) (slice_height slice)
              arr H Hne) as (interval & Hi & Hrun).
  exists interval. split; [exact Hi|].
  cbv zeta. unfold scatCatViz, bind at 1. unfold set_container at 1.
  unfold bind at 1. rewrite Hrun. fold sorted.
  unfold bind, read_array. cbn [heap container sortedData props_of].
  rewrite lookup_insert_eq. unfold set_container. cbn [heap container].
  reflexivity.
Qed.

(** A render of a non-empty dataset completes, and leaves in the
    container one [svg] element of the size of the slice that holds the
    chart group and the two axis labels of the form data. *)
Theorem render_completes (s : state) (slice : slice_t) (json : json_t)
    (arr : list series) :
  heap s !! json_data json = Some arr ->
  arr <> [] ->
  outcome (scatCatViz slice json) s = Ok tt /\
  exists g yLabel xLabel : node,
    container (final_state (scatCatViz slice json) s)
    = [Node "svg" []
         [("width", ANum (Fin (slice_width slice)));
          ("height", ANum (Fin (slice_height slice)))]
         [g; yLabel; xLabel]] /\
    tag_of g = "g" /\
    get_attribute "text" yLabel
      = Some (AVal (y_axis_label (slice_formData slice))) /\
    get_attribute "text" xLabel
      = Some (AVal (x_axis_label (slice_formData slice))).
Proof.
  intros H Hne.
  destruct (scatCatViz_result s slice json arr H Hne) as (interval & _ & Hrun).
  cbv zeta in Hrun. unfold outcome, final_state. rewrite Hrun.
  cbn [fst snd container]. split; [reflexivity|].
  do 3 eexists. split; [reflexivity|]. by repeat split.
Qed.

(** A render that throws leaves the container empty: the chart drawn
    before is gone. *)
Theorem failed_render_clears (s : state) (slice : slice_t) (json : json_t)
    (e : exn) :
  outcome (scatCatViz slice json) s = Throw e ->
  container (final_state (scatCatViz slice json) s) = [].
Proof.
  intros Hthrow. unfold outcome, final_state in *.
  destruct (heap s !! json_data json) as [arr|] eqn:H.
  - assert (arr = [] \/ arr <> []) as [->|Hne]
      by (destruct arr; [by left|by right]).
    + by rewrite (scatCatViz_empty _ _ _ H).
    + destruct (scatCatViz_run s slice json arr H Hne)
        as (interval & svgAttrs & a1 & a2 & l1 & l2 & _ & Hrun).
      rewrite Hrun in Hthrow. discriminate.
  - destruct (scatCatViz_missing s slice json H) as [e' He'].
    by rewrite He'.
Qed.

(** The chart depends on the state only through the sorted dataset. *)
Lemma scatCatViz_same_sorted (s1 s2 : state) (slice : slice_t) (json : json_t)
    (arr1 arr2 : list series) :
  heap s1 !! json_data json = Some arr1 ->
  heap s2 !! json_data json = Some arr2 ->
  arr1 <> [] ->
  Array_sort (comparator "color") arr1 = Array_sort (comparator "color") arr2 ->
  outcome (scatCatViz slice json) s1 = outcome (scatCatViz slice json) s2 /\
  container (final_state (scatCatViz slice json) s1)
    = container (final_state (scatCatViz slice json) s2) /\
  heap (final_state (scatCatViz slice json) s1)
    = <[json_data json := Array_sort (comparator "color") arr1]> (heap s1).
Proof.
  intros H1 H2 Hne Hsort.
  assert (Hne2 : arr2 <> []).
  { intros ->. apply Hne. eapply Array_sort_nil_inv.
    rewrite Hsort. apply Array_sort_nil. }
  destruct (scatCatViz_result s1 slice json arr1 H1 Hne) as (i1 & Hi1 & Hrun1).
  destruct (scatCatViz_result s2 slice json arr2 H2 Hne2) as (i2 & Hi2 & Hrun2).
  cbv zeta in Hrun1, Hrun2. rewrite <- Hsort in Hi2, Hrun2.
  assert (i2 = i1) as -> by congruence.
  unfold outcome, final_state. rewrite Hrun1, Hrun2.
  by repeat split.
Qed.

(** *** Rendering a dataset without ties *)

Section Unique.
Context {A : Type} (cmp : A -> A -> number).

(** An array in which every element compares less than the elements
    behind it has one sorted arrangement only. *)
Lemma sorted_unique (l1 l2 : list A) :
  l1 ≡ₚ l2 ->
  StronglySorted (may_precede cmp) l1 ->
  StronglySorted (cf_lt cmp) l2 ->
  l1 = l2.
Proof.
  forget_parameters.
  revert l2. induction l1 as [|y l1 IH]; intros l2 Hp H1 H2.
  - symmetry. by apply Permutation_nil.
  - destruct l2 as [|x l2].
    { symmetry in Hp. by apply Permutation_nil in Hp. }
    inversion H1 as [|? ? H1' Hy]; inversion H2 as [|? ? H2' Hx]; subst.
    assert (Hyx : y = x).
    { assert (Hyin : In y (x :: l2))
        by (apply (Permutation_in _ Hp); by left).
      destruct Hyin as [Hyin|Hyin]; [done|].
      assert (Hxin : In x (y :: l1))
        by (apply (Permutation_in _ (Permutation_sym Hp)); by left).
      destruct Hxin as [Hxin|Hxin]; [done|]. exfalso.
      rewrite Forall_forall in Hy, Hx.
      pose proof (Hy x (proj2 (list_elem_of_In _ _) Hxin)) as Hyx.
      pose proof (Hx y (proj2 (list_elem_of_In _ _) Hyin)) as Hxy.
      unfold may_precede in Hyx. unfold cf_lt in Hxy. congruence. }
    subst y. f_equal. apply IH; [|done|done].
    by apply Permutation_cons_inv in Hp.
Qed.

(** Without ties, a sorted array is strictly ordered. *)
Lemma sorted_strict (l0 l : list A) :
  consistent_comparison cmp l0 ->
  (forall a, In a l -> In a l0) ->
  (forall a b, In a l0 -> In b l0 -> cf_eq cmp a b -> a = b) ->
  NoDup l ->
  StronglySorted (may_precede cmp) l ->
  StronglySorted (cf_lt cmp) l.
Proof.
  forget_parameters.
  intros Hc Hin Hinj Hnd Hs.
  induction Hs as [|a l Hs IH Ha]; [constructor|].
  apply NoDup_cons in Hnd as [Hna Hnd].
  constructor.
  { apply IH; [|done]. intros b Hb. apply Hin. by right. }
  apply Forall_forall. intros b Hb. rewrite Forall_forall in Ha.
  pose proof (Ha b Hb) as Hab. unfold may_precede in Hab.
  assert (Ha0 : In a l0) by (apply Hin; by left).
  assert (Hb0 : In b l0) by (apply Hin; right; by apply list_elem_of_In).
  destruct (cf_cases cmp l0 a b Hc Ha0 Hb0)
    as [(Hlt & _)|[(_ & Heq & _)|(_ & _ & Hgt)]]; [done| |].
  - exfalso. apply Hna. by rewrite (Hinj a b Ha0 Hb0 Heq).
  - exfalso. pose proof (cf_gt_lt cmp l0 a b Hc Ha0 Hb0 Hgt) as Hba.
    unfold cf_lt in Hba. congruence.
Qed.

End Unique.

(** Sorting a dataset that is in strict order changes nothing: when the
    sort keys are finite and every series compares less than the series
    behind it, [sortData] returns the array and leaves the whole state
    as it was. *)
Theorem sortData_ordered_unchanged (s : state) (data : loc) (sortBy : string)
    (arr : list series) :
  heap s !! data = Some arr ->
  Forall (finite_key sortBy) arr ->
  StronglySorted (cf_lt (comparator sortBy)) arr ->
  sortData data sortBy s = (Ok data, s).
Proof.
  intros H Hfin Hs.
  assert (Hfix : Array_sort (comparator sortBy) arr = arr).
  { apply (sorted_unique (comparator sortBy)); [apply Array_sort_perm| |done].
    by apply Array_sort_ordered, comparator_consistent. }
  rewrite (sortData_run _ _ _ _ H), Hfix, (insert_id _ _ _ H). by destruct s.
Qed.

(** Rendering again redraws the same chart.  For a dataset of distinct
    series whose sort keys are finite and differ from one another, the
    second render leaves the state the first render left, whatever the
    container held before. *)
Theorem render_twice (s : state) (slice : slice_t) (json : json_t)
    (arr : list series) :
  heap s !! json_data json = Some arr ->
  Forall (finite_key "color") arr ->
  NoDup arr ->
  (forall a b, In a arr -> In b arr ->
     cf_eq (comparator "color") a b -> a = b) ->
  let s1 := final_state (scatCatViz slice json) s in
  final_state (scatCatViz slice json) s1 = s1 /\
  outcome (scatCatViz slice json) s1 = outcome (scatCatViz slice json) s.
Proof.
  intros H Hfin Hnd Hinj s1.
  assert (arr = [] \/ arr <> []) as [->|Hne]
    by (destruct arr; [by left|by right]).
  - unfold s1, final_state, outcome. rewrite (scatCatViz_empty _ _ _ H).
    cbn [fst snd].
    rewrite (scatCatViz_empty (State (<[json_data json := []]> (heap s)) [])
               slice json (lookup_insert_eq _ _ _)).
    cbn [fst snd heap]. by rewrite insert_insert_eq.
  - set (sorted := Array_sort (comparator "color") arr).
    assert (Hperm : sorted ≡ₚ arr) by apply Array_sort_perm.
    assert (Hfin' : Forall (finite_key "color") sorted) by by rewrite Hperm.
    assert (Hsorted : Array_sort (comparator "color") sorted = sorted).
    { apply (sorted_unique (comparator "color")); [apply Array_sort_perm| |].
      - by apply Array_sort_ordered, comparator_consistent.
      - apply (sorted_strict (comparator "color") arr).
        + by apply comparator_consistent.
        + intros a Ha. apply list_elem_of_In. rewrite <- Hperm.
          by apply list_elem_of_In.
        + exact Hinj.
        + by rewrite Hperm.
        + by apply Array_sort_ordered, comparator_consistent. }
    assert (Hs1 : heap s1 = <[json_data json := sorted]> (heap s)).
    { apply (scatCatViz_same_sorted s s slice json arr arr H H Hne eq_refl). }
    assert (Hl1 : heap s1 !! json_data json = Some sorted).
    { rewrite Hs1. apply lookup_insert_eq. }
    assert (Hne1 : sorted <> []).
    { intros E. apply Hne. eapply Array_sort_nil_inv, E. }
    destruct (scatCatViz_same_sorted s1 s slice json sorted arr Hl1 H Hne1
                Hsorted) as (Ho & Hc & Hh).
    split; [|exact Ho].
    destruct (final_state (scatCatViz slice json) s1) as [h1 c1] eqn:E1.
    cbn [container heap] in Hc, Hh. fold s1 in Hc. subst h1 c1.
    rewrite Hsorted, Hs1, insert_insert_eq. rewrite <- Hs1. by destruct s1.
Qed.

(** ** Ticks, positions and layout *)

Lemma inject_pow10 (k : nat) :
  inject_Z (Z.of_nat (10 ^ k)) = inject_Z (10 ^ Z.of_nat k).
Proof. forget_parameters. by rewrite Nat2Z.inj_pow. Qed.

(** For a domain whose largest index [m] is at least one, the tick
    interval lies between [m/20] and [m/2]; the ticks are indices of the
    domain, and index zero is always one of them. *)
Theorem tick_interval_bounds (data : list nat) :
  data <> [] ->
  (1 <= max_list data)%nat ->
  exists interval : Q,
    computeTickInterval data = Ok interval /\
    (2 * interval <= inject_Z (Z.of_nat (max_list data)))%Q /\
    (inject_Z (Z.of_nat (max_list data)) < 20 * interval)%Q /\
    (forall i, In i (List.filter (is_tick interval) data) -> In i data) /\
    (In 0%nat data -> In 0%nat (List.filter (is_tick interval) data)).
Proof.
  forget_parameters.
  intros Hne Hm.
  destruct (computeTickInterval_spec data Hne) as (interval & Hi & Hq & Hpos).
  destruct (Nat_toString_length (max_list data)) as (Hd & Hup & Hlow).
  set (d := String.length (Nat_toString (max_list data))) in *.
  destruct Hlow as [H0|Hlow]; [lia|].
  exists interval. split; [exact Hi|].
  assert (Hlo : (inject_Z (10 ^ Z.of_nat (d - 1))
                 <= inject_Z (Z.of_nat (max_list data)))%Q).
  { rewrite <- inject_pow10, <- Zle_Qle. lia. }
  assert (Hhi : (inject_Z (Z.of_nat (max_list data))
                 < 10 * inject_Z (10 ^ Z.of_nat (d - 1)))%Q).
  { change 10%Q with (inject_Z 10). rewrite <- inject_Z_mult.
    rewrite <- Z.pow_succ_r by lia. rewrite <- Nat2Z.inj_succ.
    replace (S (d - 1)) with d by lia.
    rewrite <- inject_pow10, <- Zlt_Qlt. lia. }
  assert (Hb : (2 * interval <= inject_Z (Z.of_nat (max_list data)))%Q /\
               (inject_Z (Z.of_nat (max_list data)) < 20 * interval)%Q).
  { revert Hq Hlo Hhi.
    generalize (inject_Z (10 ^ Z.of_nat (d - 1))).
    generalize (inject_Z (Z.of_nat (max_list data))).
    intros M P Hq Hlo Hhi.
    assert (H2 : (2 * interval == P)%Q) by (rewrite Hq; field).
    split; lra. }
  split; [apply Hb|]. split; [apply Hb|]. split.
  - intros i Hin. by apply filter_In in Hin as [Hin _].
  - intros H0. apply filter_In. split; [exact H0|].
    apply is_tick_spec; [exact Hpos|]. exists 0%Z. simpl. ring.
Qed.

Lemma list_find_seq_out (n i : nat) :
  (n <= i)%nat -> list_find (fun d => d = i) (seq 0 n) = None.
Proof.
  forget_parameters.
  intros Hi. apply list_find_None, Forall_forall.
  intros x Hx%elem_of_seq. lia.
Qed.

(** Positions of the ranks: one series stands in the middle of the plot
    width; two or more stand evenly spaced from [0] to the plot width.
    An index that is no rank has no position. *)
Theorem horizontal_positions (s : state) (fd : formData) (data : loc)
    (width height : Q) (arr : list series) :
  heap s !! data = Some arr ->
  arr <> [] ->
  exists p : computed,
    outcome (computedProps fd data width height) s = Ok p /\
    (plotWidth p == width - 80)%Q /\
    (length arr = 1%nat -> stands_at p 0 (plotWidth p / 2)) /\
    ((2 <= length arr)%nat ->
     forall i : nat, (i < length arr)%nat ->
       stands_at p i
         (plotWidth p * inject_Z (Z.of_nat i)
          / inject_Z (Z.of_nat (length arr) - 1))) /\
    (forall i : nat, (length arr <= i)%nat -> xScale p i = JUndefined).
Proof.
  intros H Hne.
  destruct (computedProps_run s fd data width height arr H Hne)
    as (interval & _ & Hrun).
  set (sorted := Array_sort (comparator "color") arr) in *.
  assert (Hlen : length sorted = length arr) by apply Array_sort_length.
  exists (props_of data sorted width height interval).
  unfold outcome. rewrite Hrun. split; [reflexivity|].
  split; [cbn [plotWidth props_of right left]; ring|].
  split; [|split].
  - intros H1.
    destruct (xScale_rank data sorted width height interval 0 ltac:(lia))
      as (x & Hx & Ex).
    exists x. split; [exact Hx|]. rewrite Ex, Hlen, H1. reflexivity.
  - intros H2 i Hi.
    destruct (xScale_rank data sorted width height interval i ltac:(lia))
      as (x & Hx & Ex).
    exists x. split; [exact Hx|]. rewrite Ex, Hlen.
    destruct (Nat.ltb_spec (length arr) 2) as [Hlt|_]; [lia|].
    field. intros E.
    assert (Hn : (0 < inject_Z (Z.of_nat (length arr) - 1))%Q).
    { change 0%Q with (inject_Z 0). rewrite <- Zlt_Qlt. lia. }
    lra.
  - intros i Hi. cbn [xScale props_of]. unfold d3_scale_ordinal.
    rewrite insertion_keys_first_seen.
    rewrite (first_seen_id (d3_range (length sorted))) by apply NoDup_seq.
    unfold d3_range. rewrite list_find_seq_out by lia. reflexivity.
Qed.

(** ** The vertical scale at the edges *)

Lemma d3_scale_linear_NaN (range : number * number) (x : number) :
  d3_scale_linear (NaN, NaN) range x = NaN.
Proof.
  forget_parameters.
  unfold d3_scale_linear, d3_uninterpolateNumber, d3_interpolateNumber.
  cbn [fst snd]. by destruct x as [|[]|q], range as [[|[]|r0] [|[]|r1]].
Qed.

(** When the series have no point at all, the domain of the vertical
    scale is undefined and the scale sends every value to NaN. *)
Theorem no_points_scale (s : state) (fd : formData) (data : loc)
    (width height : Q) (arr : list series) :
  heap s !! data = Some arr ->
  arr <> [] ->
  all_points arr = [] ->
  exists p : computed,
    outcome (computedProps fd data width height) s = Ok p /\
    yDomain p = (NaN, NaN) /\
    forall x : number, yScale p x = NaN.
Proof.
  intros H Hne Hnone.
  destruct (computedProps_run s fd data width height arr H Hne)
    as (interval & _ & Hrun).
  set (sorted := Array_sort (comparator "color") arr) in *.
  assert (Hsorted : all_points sorted = []).
  { destruct (all_points sorted) as [|v l] eqn:E; [done|].
    assert (Hv : In v (all_points arr)).
    { apply (all_points_perm sorted arr v (Array_sort_perm _ arr)).
      rewrite E. by left. }
    rewrite Hnone in Hv. destruct Hv. }
  pose proof (yMin_spec sorted) as Hmin. pose proof (yMax_spec sorted) as Hmax.
  destruct (d3_min sorted _) as [lo|] eqn:Elo.
  { destruct Hmin as ((v & Hv & _) & _). rewrite Hsorted in Hv. destruct Hv. }
  destruct (d3_max sorted _) as [hi|] eqn:Ehi.
  { destruct Hmax as ((v & Hv & _) & _). rewrite Hsorted in Hv. destruct Hv. }
  eexists. unfold outcome. rewrite Hrun. split; [reflexivity|].
  cbn [yDomain yScale props_of]. rewrite Elo, Ehi. cbn [Number_of].
  split; [reflexivity|]. intros x. apply d3_scale_linear_NaN.
Qed.

(** ** The row-wrapping pass at the edges *)

Lemma legend_place_no_room (legendWidth : Q) (widths : list Q) (cx cy : Q) :
  (legendWidth <= 0)%Q -> (0 <= cx)%Q ->
  Forall (fun w => (0 <= w)%Q) widths ->
  forall (i : nat) (pos : Q * Q),
    legend_place legendWidth cx cy widths !! i = Some pos ->
    (fst pos == 0)%Q /\
    (snd pos == cy + paddingY * (inject_Z (Z.of_nat i) + 1))%Q.
Proof.
  forget_parameters.
  intros Hlw Hcx Hw. revert cx cy Hcx.
  induction Hw as [|w ws Hw0 _ IH]; intros cx cy Hcx i pos Hi; [done|].
  cbn [legend_place] in Hi.
  assert (Hwrap : Qleb legendWidth (cx + w) = true) by (apply Qleb_true; lra).
  rewrite Hwrap in Hi. destruct i as [|i]; cbn in Hi.
  - injection Hi as <-. cbn [fst snd]. split; [reflexivity|]. simpl. ring.
  - apply IH in Hi as [Hx Hy]; [|unfold paddingX; lra].
    split; [exact Hx|]. rewrite Hy, Nat2Z.inj_succ. unfold Z.succ.
    rewrite inject_Z_plus. ring.
Qed.

(** In a legend without width (a container no wider than the padding)
    every key is wrapped: key [i] stands at the left edge of a row of
    its own, [20 * (i + 2)] below the top of the legend. *)
Theorem legend_without_room (legendWidth : Q) (widths : list Q) :
  (legendWidth <= 0)%Q ->
  Forall (fun w => (0 <= w)%Q) widths ->
  forall (i : nat) (pos : Q * Q),
    legend_adjustments legendWidth widths !! i = Some pos ->
    (fst pos == 0)%Q /\ (snd pos == 20 * (inject_Z (Z.of_nat i) + 2))%Q.
Proof.
  forget_parameters.
  intros Hlw Hw i pos Hi. rewrite legend_adjustments_place in Hi.
  destruct (legend_place_no_room legendWidth widths 0 paddingY Hlw
              ltac:(lra) Hw i pos Hi) as [Hx Hy].
  split; [exact Hx|]. rewrite Hy. unfold paddingY. ring.
Qed.

Lemma Qsum_gaps_nonneg (widths : list Q) :
  Forall (fun w => (0 <= w)%Q) widths ->
  (0 <= Qsum (map (fun w : Q => (w + paddingX)%Q) widths))%Q.
Proof.
  forget_parameters.
  induction 1 as [|w ws Hw _ IH]; cbn [map Qsum foldr]; [lra|].
  fold (Qsum (map (fun w : Q => (w + paddingX)%Q) ws)). unfold paddingX in *. lra.
Qed.

Lemma legend_place_fits (legendWidth : Q) (widths : list Q) (cx cy : Q) :
  Forall (fun w => (0 <= w)%Q) widths ->
  (cx + Qsum (map (fun w : Q => (w + paddingX)%Q) widths) - paddingX < legendWidth)%Q ->
  Forall (fun k => key_y k = cy) (keys_from legendWidth cx cy widths) /\
  row_positions cx (keys_from legendWidth cx cy widths).
Proof.
  forget_parameters.
  intros Hw. revert cx. induction Hw as [|w ws Hw0 Hws IH]; intros cx Hfit.
  - split; [constructor|done].
  - cbn [map Qsum foldr] in Hfit.
    fold (Qsum (map (fun w : Q => (w + paddingX)%Q) ws)) in Hfit.
    pose proof (Qsum_gaps_nonneg ws Hws) as Hrest.
    unfold keys_from. cbn [legend_place].
    assert (Hstay : Qleb legendWidth (cx + w) = false).
    { apply Qleb_false. unfold paddingX in *. lra. }
    rewrite Hstay. cbn [zip_with fst snd].
    fold (keys_from legendWidth (cx + (w + paddingX)) cy ws).
    destruct (IH (cx + (w + paddingX))%Q) as [Hy Hx]; [lra|].
    split; [by constructor|]. cbn [row_positions key_x key_width].
    split; [reflexivity|exact Hx].
Qed.

(** When the keys with the gaps between them are narrower than the
    legend, nothing is wrapped: all keys stand side by side on the
    first line. *)
Theorem legend_single_row (legendWidth : Q) (widths : list Q) :
  Forall (fun w => (0 <= w)%Q) widths ->
  (Qsum widths + paddingX * inject_Z (Z.of_nat (length widths) - 1)
   < legendWidth)%Q ->
  Forall (fun k => key_y k = paddingY) (placed_keys legendWidth widths) /\
  row_positions 0 (placed_keys legendWidth widths).
Proof.
  forget_parameters.
  intros Hw Hfit. unfold placed_keys. rewrite legend_adjustments_place.
  apply (legend_place_fits legendWidth widths 0 paddingY Hw).
  assert (Hsum : (Qsum (map (fun w : Q => (w + paddingX)%Q) widths)
                  == Qsum widths
                     + paddingX * inject_Z (Z.of_nat (length widths)))%Q).
  { clear. induction widths as [|w ws IH]; cbn [map Qsum foldr length].
    - simpl. ring.
    - fold (Qsum (map (fun w : Q => (w + paddingX)%Q) ws)). fold (Qsum ws).
      rewrite IH, Nat2Z.inj_succ. unfold Z.succ. rewrite inject_Z_plus. ring. }
  rewrite Hsum. unfold Zminus in Hfit. rewrite inject_Z_plus in Hfit.
  revert Hfit. generalize (inject_Z (Z.of_nat (length widths))).
  intros n Hfit. change (inject_Z (- (1))) with (- (1))%Q in Hfit.
  clear Hsum. revert Hfit. generalize (Qsum widths). intros t Hfit.
  unfold paddingX in *. lra.
Qed.

(** ** The marks and the keys of a rendered chart *)

Lemma find_set_attr (name : string) (value : attr_value)
    (a : list (string * attr_value)) :
  List.find (fun kv => String.eqb (fst kv) name)
    (List.filter (fun kv => negb (String.eqb (fst kv) name)) a
       ++ [(name, value)])
  = Some (name, value).
Proof.
  forget_parameters.
  induction a as [|[k v] a IH]; cbn [List.filter List.find app fst].
  - by rewrite String.eqb_refl.
  - destruct (String.eqb k name) eqn:E; cbn [negb]; [exact IH|].
    cbn [app List.find fst]. by rewrite E.
Qed.

Lemma get_attribute_set_attr (name : string) (value : attr_value) (n : node) :
  get_attribute name (set_attr name value n) = Some value.
Proof.
  forget_parameters.
  destruct n as [t c a ch]. unfold get_attribute, set_attr. cbn [attrs_of].
  by rewrite find_set_attr.
Qed.

Lemma select_below_keys (fd : formData) (p : computed) (adj : list (Q * Q)) :
  select_below "key" (imap (position_key adj) (legend_keys fd p))
  = imap (position_key adj) (legend_keys fd p).
Proof.
  apply select_below_all.
  apply (Forall_imap_from
           (fun k => has_class "key" k = true /\ selectAll "key" k = [])).
  - unfold legend_keys. apply Forall_app.
    split; apply Forall_map_all; intros d; by split.
  - intros i k Hk.
    by rewrite !(proj1 (position_key_class adj _ "key" k)),
      !(proj2 (position_key_class adj _ "key" k)).
Qed.

Lemma flat_map_all_points {B : Type} (g : point -> B) (l : list series) :
  flat_map (fun d => map g (values d)) l = map g (all_points l).
Proof.
  forget_parameters.
  unfold all_points. induction l as [|d l IH]; [done|].
  cbn [flat_map map concat]. by rewrite map_app, IH.
Qed.

(** The keys, the shape keys and the point marks of the rendered
    chart, in terms of the computed properties. *)
Lemma chart_rendered (s : state) (slice : slice_t) (json : json_t)
    (arr : list series) :
  heap s !! json_data json = Some arr ->
  arr <> [] ->
  let sorted := Array_sort (comparator "color") arr in
  let fd := slice_formData slice in
  let s' := final_state (scatCatViz slice json) s in
  exists interval : Q,
    let p := props_of (json_data json) sorted (slice_width slice)
               (slice_height slice) interval in
    let adj := legend_adjustments (legendWidth p)
                 (map getBBox_width (legend_keys fd p)) in
    outcome (computedProps fd (json_data json) (slice_width slice)
               (slice_height slice)) s = Ok p /\
    selectAll "key" (root s') = imap (position_key adj) (legend_keys fd p) /\
    shape_keys s'
      = imap (fun i => position_key adj (length (colorValues p) + i))
          (map (shape_key (shapeScale p)) (shapeValues p)) /\
    point_marks s' = map (point_mark fd p) (all_points sorted).
Proof.
  intros H Hne sorted fd s'.
  destruct (selectAll_rendered s slice json arr H Hne)
    as (interval & _ & Hp & Hsel).
  cbv zeta in Hsel, Hp. fold sorted fd s' in Hsel, Hp.
  exists interval. cbv zeta. split; [exact Hp|]. split; [|split].
  - rewrite Hsel by reflexivity.
    rewrite select_below_keys, select_below_bands_none by reflexivity.
    rewrite select_below_lines. cbn [String.eqb Ascii.eqb Bool.eqb].
    by rewrite !app_nil_r.
  - unfold shape_keys. rewrite Hsel by reflexivity.
    rewrite select_below_shape_keys, select_below_bands_none by reflexivity.
    rewrite select_below_lines. cbn [String.eqb Ascii.eqb Bool.eqb].
    by rewrite !app_nil_r.
  - unfold point_marks, band_groups. rewrite Hsel by reflexivity.
    rewrite select_below_keys_none by reflexivity.
    rewrite select_below_bands, select_below_lines. cbn [String.eqb app].
    rewrite app_nil_r, flat_map_points_bands. apply flat_map_all_points.
Qed.

(** Every key of the rendered legend is positioned: the legend holds
    one key per color value and per shape value, [fixUpLegend] computes
    one position per key, and key [i] carries the translation to
    position [i]. *)
Theorem legend_keys_positioned (s : state) (slice : slice_t) (json : json_t)
    (arr : list series) :
  heap s !! json_data json = Some arr ->
  arr <> [] ->
  let fd := slice_formData slice in
  let keys := selectAll "key" (root (final_state (scatCatViz slice json) s)) in
  exists p : computed,
    outcome (computedProps fd (json_data json) (slice_width slice)
               (slice_height slice)) s = Ok p /\
    length keys = (length (colorValues p) + length (shapeValues p))%nat /\
    let adj := legend_adjustments (legendWidth p)
                 (map getBBox_width (legend_keys fd p)) in
    length adj = length keys /\
    forall (i : nat) (k : node),
      keys !! i = Some k ->
      exists x y : Q,
        adj !! i = Some (x, y) /\
        get_attribute "transform" k
          = Some (ATranslate (JNumber (Fin x)) (JNumber (Fin y))).
Proof.
  intros H Hne fd keys.
  destruct (chart_rendered s slice json arr H Hne)
    as (interval & Hp & Hkeys & _).
  cbv zeta in Hp, Hkeys. fold fd keys in Hp, Hkeys.
  eexists. split; [exact Hp|]. rewrite Hkeys. cbv zeta.
  set (p := props_of _ _ _ _ _) in *.
  set (adj := legend_adjustments _ _).
  assert (Hlen : length adj = length (legend_keys fd p)).
  { unfold adj. by rewrite legend_adjustments_length, length_map. }
  split; [|split].
  - rewrite length_imap. unfold legend_keys.
    by rewrite length_app, !length_map.
  - by rewrite length_imap.
  - intros i k. rewrite list_lookup_imap.
    destruct (legend_keys fd p !! i) as [k0|] eqn:E; [|done].
    intros [= <-].
    destruct (adj !! i) as [[x yy]|] eqn:Ea.
    + exists x, yy. split; [done|]. unfold position_key. rewrite Ea.
      apply get_attribute_set_attr.
    + apply lookup_ge_None in Ea. apply lookup_lt_Some in E. lia.
Qed.

Lemma symbol_at_cycle (i : nat) : symbol_at (i + 6) = symbol_at i.
Proof.
  forget_parameters.
  unfold symbol_at.
  change (length d3_svg_symbolTypes) with 6%nat.
  replace (i + 6)%nat with (i + 1 * 6)%nat by lia.
  by rewrite Nat.Div0.mod_add.
Qed.

(** The marks and the legend agree on the symbols.  The point marks of
    the rendered chart are those of the points of the sorted series, in
    order; for every point the legend has a shape key labelled with the
    string form of the point's shape value, and this key shows the
    symbol of the point's mark.  The symbol is the one at the position
    of the value in the list of shape values, taken cyclically among the
    six symbol types. *)
Theorem mark_symbols_match_legend (s : state) (slice : slice_t) (json : json_t)
    (arr : list series) (v : point) :
  heap s !! json_data json = Some arr ->
  In v (all_points arr) ->
  let sorted := Array_sort (comparator "color") arr in
  let fd := slice_formData slice in
  let s' := final_state (scatCatViz slice json) s in
  exists p : computed,
    outcome (computedProps fd (json_data json) (slice_width slice)
               (slice_height slice)) s = Ok p /\
    point_marks s' = map (point_mark fd p) (all_points sorted) /\
    exists (i : nat) (k : node),
      shapeValues p !! i = Some (ToString (shape v)) /\
      shape_keys s' !! i = Some k /\
      key_label k = Some (AStr (ToString (shape v))) /\
      key_visual k = get_attribute "d" (point_mark fd p v) /\
      key_visual k = Some (ASymbol (symbol_at i)) /\
      symbol_at (i + 6) = symbol_at i.
Proof.
  intros H Hv sorted fd s'.
  assert (Hne : arr <> []) by (intros ->; destruct Hv).
  destruct (chart_rendered s slice json arr H Hne)
    as (interval & Hp & _ & Hsk & Hpm).
  cbv zeta in Hp, Hsk, Hpm. fold sorted fd s' in Hp, Hsk, Hpm.
  eexists. split; [exact Hp|]. split; [exact Hpm|].
  set (p := props_of _ _ _ _ _) in *.
  set (shapes := map (fun v => ToString (shape v)) (all_points sorted)).
  assert (Hsv : shapeValues p = d3_set_values shapes).
  { unfold p, shapes. cbn [shapeValues props_of]. by rewrite concat_map_attr. }
  destruct (d3_set_values_spec shapes) as (Hperm & Hnd & _).
  assert (Hin : ToString (shape v) ∈ shapeValues p).
  { rewrite Hsv, Hperm. apply list_elem_of_In, first_seen_In.
    unfold shapes. apply in_map_iff. exists v. split; [done|].
    by apply (all_points_perm sorted arr v (Array_sort_perm _ arr)). }
  apply list_elem_of_lookup in Hin as [i Hi].
  assert (Hscale : forall w : jsval,
            ToString w = ToString (shape v) -> shapeScale p w = symbol_at i).
  { intros w Hw.
    change (shapeScale p w) with
      (match d3_scale_ordinal (shapeValues p) d3_svg_symbolTypes true
               (ToString w) with
       | Some t => JString t
       | None => JUndefined
       end).
    rewrite Hw. apply shapeScale_position; [|exact Hi]. by rewrite Hsv. }
  exists i. eexists. split; [exact Hi|]. split.
  { rewrite Hsk, list_lookup_imap, list_lookup_fmap, Hi. reflexivity. }
  unfold key_label, key_visual. rewrite position_key_children.
  cbn [shape_key children_of point_mark get_attribute attrs_of List.find fst
       snd String.eqb Ascii.eqb Bool.eqb fmap option_fmap option_map].
  rewrite (Hscale (JString (ToString (shape v))) eq_refl).
  rewrite (Hscale (shape v) eq_refl).
  split; [done|]. split; [done|]. split; [done|]. apply symbol_at_cycle.
Qed.

(** ** The vertical positions of the marks *)

Lemma mark_offset_point_mark (fd : formData) (p : computed) (v : point) :
  mark_offset (point_mark fd p v)
  = match yScale p (Fin (y v)) with
    | Fin q => Some q
    | _ => None
    end.
Proof. reflexivity. Qed.

(** When all points have the same [y] (and the height is a number of
    double precision), every point mark of the rendered chart is drawn
    at the offset [plotHeight], on the lower edge of the plot. *)
Theorem flat_domain_marks (s : state) (slice : slice_t) (json : json_t)
    (arr : list series) (v0 : point) :
  heap s !! json_data json = Some arr ->
  In v0 (all_points arr) ->
  (forall v, In v (all_points arr) -> (y v == y v0)%Q) ->
  in_double_range (slice_height slice) ->
  let s' := final_state (scatCatViz slice json) s in
  exists p : computed,
    outcome (computedProps (slice_formData slice) (json_data json)
               (slice_width slice) (slice_height slice)) s = Ok p /\
    length (point_marks s') = total_points arr /\
    Forall (fun m => exists q : Q,
                       mark_offset m = Some q /\ (q == plotHeight p)%Q)
      (point_marks s').
Proof.
  intros H Hv0 Hflat Hheight s'.
  assert (Hne : arr <> []) by (intros ->; destruct Hv0).
  destruct (chart_rendered s slice json arr H Hne)
    as (interval & Hp & _ & _ & Hpm).
  cbv zeta in Hp, Hpm. fold s' in Hpm.
  set (sorted := Array_sort (comparator "color") arr) in *.
  set (p := props_of _ _ _ _ _) in *.
  assert (Hpts : forall v, In v (all_points sorted) <-> In v (all_points arr)).
  { intros v. apply all_points_perm, Array_sort_perm. }
  exists p. split; [exact Hp|]. rewrite Hpm. split.
  { assert (Hlen : forall l : list series,
              length (all_points l) = total_points l).
    { unfold all_points, total_points. induction l as [|d l IH]; [done|].
      cbn [map concat sum_list sum_list_with]. by rewrite length_app, IH. }
    rewrite length_map, Hlen.
    apply total_points_perm, Array_sort_perm. }
  pose proof (yMin_spec sorted) as Hmin. pose proof (yMax_spec sorted) as Hmax.
  apply Forall_forall. intros m Hm.
  apply list_elem_of_In, in_map_iff in Hm as (v & <- & Hv).
  rewrite mark_offset_point_mark.
  unfold p at 1. cbn [yScale props_of top bottom].
  destruct (d3_min sorted _) as [lo|] eqn:Elo.
  2:{ rewrite Hmin in Hv. destruct Hv. }
  destruct (d3_max sorted _) as [hi|] eqn:Ehi.
  2:{ rewrite Hmax in Hv. destruct Hv. }
  destruct Hmin as ((vlo & Hvlo & Hylo) & _).
  destruct Hmax as ((vhi & Hvhi & Hyhi) & _).
  cbn [Number_of].
  set (ph := (slice_height slice
              - (20 + 60 + slice_height slice * (7 # 100)
                 + slice_height slice * (3 # 100)))%Q).
  assert (Hph : in_double_range ph).
  { pose proof overflow_bound_large. destruct Hheight.
    unfold in_double_range, ph. split; lra. }
  pose proof (Hflat v (proj1 (Hpts v) Hv)) as Ev.
  pose proof (Hflat vlo (proj1 (Hpts vlo) Hvlo)) as Evlo.
  pose proof (Hflat vhi (proj1 (Hpts vhi) Hvhi)) as Evhi.
  rewrite Hylo in Evlo. rewrite Hyhi in Evhi.
  pose proof (d3_scale_linear_flat lo hi ph (y v) ltac:(lra) ltac:(lra) Hph)
    as Hscale.
  destruct (d3_scale_linear (Fin lo, Fin hi) (Fin ph, Fin 0) (Fin (y v)))
    as [|sg|q]; cbn [num_eq] in Hscale; [done|done|].
  exists q. split; [reflexivity|]. rewrite Hscale. reflexivity.
Qed.

(** When two points differ in [y], the difference of no two [y] values
    overflows and the plot height is positive (the container is higher
    than 800/9), every point mark is drawn within the plot height, and
    the mark of a point with a larger [y] is not drawn lower. *)
Theorem marks_within_plot (s : state) (slice : slice_t) (json : json_t)
    (arr : list series) (v1 v2 : point) :
  heap s !! json_data json = Some arr ->
  In v1 (all_points arr) ->
  In v2 (all_points arr) ->
  ~ (y v1 == y v2)%Q ->
  (forall v w, In v (all_points arr) -> In w (all_points arr) ->
     in_double_range (y w - y v)) ->
  (800 # 9 < slice_height slice)%Q ->
  in_double_range (slice_height slice) ->
  let fd := slice_formData slice in
  let s' := final_state (scatCatViz slice json) s in
  exists p : computed,
    outcome (computedProps fd (json_data json) (slice_width slice)
               (slice_height slice)) s = Ok p /\
    point_marks s'
      = map (point_mark fd p)
          (all_points (Array_sort (comparator "color") arr)) /\
    forall v w : point,
      In v (all_points arr) -> In w (all_points arr) ->
      exists a b : Q,
        mark_offset (point_mark fd p v) = Some a /\
        mark_offset (point_mark fd p w) = Some b /\
        (0 <= a <= plotHeight p)%Q /\
        ((y v <= y w)%Q -> (b <= a)%Q).
Proof.
  intros H Hv1 Hv2 Hdiff Hspread Hhigh Hheight fd s'.
  assert (Hne : arr <> []) by (intros ->; destruct Hv1).
  destruct (chart_rendered s slice json arr H Hne)
    as (interval & Hp & _ & _ & Hpm).
  cbv zeta in Hp, Hpm. fold s' fd in Hpm, Hp.
  set (sorted := Array_sort (comparator "color") arr) in *.
  set (p := props_of _ _ _ _ _) in *.
  assert (Hpts : forall v, In v (all_points sorted) <-> In v (all_points arr)).
  { intros v. apply all_points_perm, Array_sort_perm. }
  exists p. split; [exact Hp|]. split; [exact Hpm|].
  pose proof (yMin_spec sorted) as Hmin. pose proof (yMax_spec sorted) as Hmax.
  intros v w Hv Hw. rewrite !mark_offset_point_mark.
  unfold p at 1 2. cbn [yScale plotHeight props_of top bottom].
  unfold p. cbn [plotHeight props_of top bottom].
  destruct (d3_min sorted _) as [lo|] eqn:Elo.
  2:{ apply Hpts in Hv1. rewrite Hmin in Hv1. destruct Hv1. }
  destruct (d3_max sorted _) as [hi|] eqn:Ehi.
  2:{ apply Hpts in Hv1. rewrite Hmax in Hv1. destruct Hv1. }
  destruct Hmin as ((vlo & Hvlo & Hylo) & Hlo).
  destruct Hmax as ((vhi & Hvhi & Hyhi) & Hhi).
  cbn [Number_of].
  assert (Hlt : (lo < hi)%Q).
  { pose proof (Hlo v1 (proj2 (Hpts v1) Hv1)).
    pose proof (Hlo v2 (proj2 (Hpts v2) Hv2)).
    pose proof (Hhi v1 (proj2 (Hpts v1) Hv1)).
    pose proof (Hhi v2 (proj2 (Hpts v2) Hv2)).
    destruct (Qlt_le_dec lo hi); [done|]. exfalso. apply Hdiff. lra. }
  assert (Hd : in_double_range (hi - lo)).
  { rewrite <- Hylo, <- Hyhi. apply Hspread; by apply Hpts. }
  set (ph := (slice_height slice
              - (20 + 60 + slice_height slice * (7 # 100)
                 + slice_height slice * (3 # 100)))%Q).
  assert (Hph0 : (0 < ph)%Q) by (unfold ph; lra).
  assert (Hph : in_double_range ph).
  { pose proof overflow_bound_large. destruct Hheight.
    unfold in_double_range, ph. split; lra. }
  pose proof (Hlo v (proj2 (Hpts v) Hv)) as Hv_lo.
  pose proof (Hhi v (proj2 (Hpts v) Hv)) as Hv_hi.
  pose proof (Hlo w (proj2 (Hpts w) Hw)) as Hw_lo.
  pose proof (Hhi w (proj2 (Hpts w) Hw)) as Hw_hi.
  destruct (d3_scale_linear_Fin lo hi ph (y v) Hlt ltac:(lra) Hd Hph)
    as (a & -> & Ea).
  destruct (d3_scale_linear_Fin lo hi ph (y w) Hlt ltac:(lra) Hd Hph)
    as (b & -> & Eb).
  exists a, b. split; [reflexivity|]. split; [reflexivity|].
  set (tv := ((y v - lo) / (hi - lo))%Q) in *.
  set (tw := ((y w - lo) / (hi - lo))%Q) in *.
  assert (Etv : (tv * (hi - lo) == y v - lo)%Q) by (unfold tv; field; lra).
  assert (Etw : (tw * (hi - lo) == y w - lo)%Q) by (unfold tw; field; lra).
  assert (Htv0 : (0 <= tv)%Q) by (unfold tv; apply Qle_shift_div_l; lra).
  assert (Htv1 : (tv <= 1)%Q) by (unfold tv; apply Qle_shift_div_r; lra).
  split; [split; nra|].
  intros Hvw.
  assert (Htvw : (tv <= tw)%Q).
  { destruct (Qlt_le_dec tw tv) as [Hc|]; [|done]. exfalso.
    pose proof (Qmult_lt_compat_r tw tv (hi - lo) ltac:(lra) Hc). lra. }
  nra.
Qed.

(** ** The earlier version of the renderer *)

Lemma computedProps_earlier_run (s : state) (fd : formData) (data : loc)
    (width height : Q) (arr : list series) :
  heap s !! data = Some arr ->
  let sorted := Array_sort (comparator "color") arr in
  computedProps_earlier fd data width height s =
    (Ok (props_of_earlier data sorted width height),
     State (<[data := sorted]> (heap s)) (container s)).
Proof.
  intros H sorted.
  unfold computedProps_earlier, bind. rewrite (sortData_run _ _ _ _ H).
  unfold read_array. cbn [heap container]. rewrite lookup_insert_eq.
  cbn [heap container]. rewrite lookup_insert_eq. reflexivity.
Qed.

Lemma chart_group_earlier_structure (fd : formData) (p : computed)
    (sorted : list series) (yLines : option (list number)) :
  let xAttrs :=
    [("transform",
      ATranslate (JNumber (Fin 0))
        (JNumber (Fin (plotHeight p + top (padding p) / 2))))] in
  exists gAttrs (xAxisContent : list node),
    chart_group_earlier fd p sorted yLines =
      Node "g" [] gAttrs
        ([Node "g" ["y"; "axis"] []
            (d3_svg_axis (d3_linear_ticks (yDomain p)));
          Node "g" ["x"; "axis"] xAttrs xAxisContent;
          Node "g" ["legend"] [] []]
         ++ imap (band_of fd p) sorted ++ lines_of p yLines) /\
    (displayXAxis p = false -> xAxisContent = []) /\
    (forall cls, String.eqb cls "tick" = false ->
                 String.eqb cls "domain" = false ->
                 select_below cls xAxisContent = []).
Proof.
  intros xAttrs. unfold chart_group_earlier. cbv zeta.
  set (xAxis := if displayXAxis p then _ else _).
  assert (Hx : exists content,
             xAxis = Node "g" ["x"; "axis"] xAttrs content /\
             (displayXAxis p = false -> content = []) /\
             forall cls, String.eqb cls "tick" = false ->
                         String.eqb cls "domain" = false ->
                         select_below cls content = []).
  { unfold xAxis. destruct (displayXAxis p); cbn [append_children app].
    - eexists. split; [reflexivity|]. split; [done|].
      intros. by apply select_below_axis.
    - eexists. split; [reflexivity|]. done. }
  destruct Hx as (content & -> & Hoff & Hcontent).
  do 2 eexists. split; [|split; [exact Hoff|exact Hcontent]].
  cbn [append_children app].
  assert (Hg1 : forall cls,
            String.eqb cls "tick" = false -> String.eqb cls "domain" = false ->
            String.eqb cls "y" = false -> String.eqb cls "x" = false ->
            String.eqb cls "axis" = false -> String.eqb cls "legend" = false ->
            select_below cls
              [Node "g" ["y"; "axis"] []
                 (d3_svg_axis (d3_linear_ticks (yDomain p)));
               Node "g" ["x"; "axis"] xAttrs content;
               Node "g" ["legend"] [] []] = []).
  { intros cls Ht Hd Hy Hxx Ha Hl.
    rewrite !select_below_cons, !selectAll_Node, select_below_nil.
    rewrite (select_below_axis _ _ Ht Hd), (Hcontent _ Ht Hd).
    unfold has_class. cbn [classes_of existsb]. rewrite Hy, Hxx, Ha, Hl.
    reflexivity. }
  rewrite selectAll_Node, Hg1 by reflexivity.
  rewrite (map_d3_enter_nil (band_group fd p)).
  assert (Hbands : imap (band_group fd p) sorted = imap (band_of fd p) sorted).
  { apply imap_ext. intros. apply band_group_band_of. }
  rewrite Hbands.
  destruct yLines as [ys|]; [|done]. unfold lines_of.
  rewrite selectAll_Node.
  match goal with
  | |- context [select_below "line" (?a :: ?b :: ?c :: ?l)] =>
      change (a :: b :: c :: l) with ([a; b; c] ++ l)
  end.
  rewrite select_below_app, Hg1 by reflexivity.
  rewrite select_below_none.
  - by rewrite map_snd_d3_enter_nil.
  - apply Forall_imap. intros i d. split; [done|].
    unfold band_of. rewrite selectAll_Node. apply select_below_none.
    apply Forall_map_all. intros v. by split.
Qed.

Lemma scatCatViz_earlier_run (s : state) (slice : slice_t) (json : json_t)
    (arr : list series) :
  heap s !! json_data json = Some arr ->
  let sorted := Array_sort (comparator "color") arr in
  let p := props_of_earlier (json_data json) sorted (slice_width slice)
             (slice_height slice) in
  scatCatViz_earlier slice json s =
    (Ok tt,
     State (<[json_data json := sorted]> (heap s))
       [Node "svg" []
          [("width", ANum (Fin (slice_width slice)));
           ("height", ANum (Fin (slice_height slice)))]
          [chart_group_earlier (slice_formData slice) p sorted
             (json_yLines json)]]).
Proof.
  intros H sorted p.
  pose proof (computedProps_earlier_run (State (heap s) [])
                (slice_formData slice) (json_data json) (slice_width slice)
                (slice_height slice) arr H) as Hrun.
  cbv zeta in Hrun. fold sorted p in Hrun.
  unfold scatCatViz_earlier, bind at 1. unfold set_container at 1.
  unfold bind at 1. rewrite Hrun.
  unfold bind, read_array. cbn [heap container sortedData props_of_earlier p].
  rewrite lookup_insert_eq. unfold set_container. cbn [heap container].
  reflexivity.
Qed.

Lemma selectAll_earlier (s : state) (slice : slice_t) (json : json_t)
    (arr : list series) :
  heap s !! json_data json = Some arr ->
  let sorted := Array_sort (comparator "color") arr in
  let fd := slice_formData slice in
  let p := props_of_earlier (json_data json) sorted (slice_width slice)
             (slice_height slice) in
  forall cls : string,
    String.eqb cls "tick" = false -> String.eqb cls "domain" = false ->
    String.eqb cls "y" = false -> String.eqb cls "x" = false ->
    String.eqb cls "axis" = false -> String.eqb cls "legend" = false ->
    selectAll cls (root (final_state (scatCatViz_earlier slice json) s)) =
      select_below cls (imap (band_of fd p) sorted)
      ++ select_below cls (lines_of p (json_yLines json)).
Proof.
  intros H sorted fd p cls Ht Hd Hy Hx Ha Hl.
  unfold final_state, root.
  rewrite (scatCatViz_earlier_run s slice json arr H).
  cbn [snd container]. fold sorted fd p.
  destruct (chart_group_earlier_structure fd p sorted (json_yLines json))
    as (gAttrs & xc & -> & _ & Hxc).
  rewrite selectAll_Node, select_below_cons, selectAll_Node.
  rewrite !select_below_cons, !selectAll_Node, !select_below_app,
    !select_below_cons, !selectAll_Node, !select_below_nil.
  rewrite (select_below_axis _ _ Ht Hd), (Hxc _ Ht Hd).
  unfold has_class. cbn [classes_of existsb].
  rewrite Hy, Hx, Ha, Hl. cbn [orb app]. by rewrite !app_nil_r.
Qed.

(** The earlier version renders every dataset that is present, the
    empty one too: it returns normally, leaves the array sorted, and
    the container holds one [svg] element with the width and height of
    the slice and the chart group as its only child. *)
Theorem earlier_render_completes (s : state) (slice : slice_t) (json : json_t)
    (arr : list series) :
  heap s !! json_data json = Some arr ->
  let s' := final_state (scatCatViz_earlier slice json) s in
  outcome (scatCatViz_earlier slice json) s = Ok tt /\
  heap s' = <[json_data json := Array_sort (comparator "color") arr]> (heap s) /\
  exists g : node,
    container s' = [Node "svg" []
                      [("width", ANum (Fin (slice_width slice)));
                       ("height", ANum (Fin (slice_height slice)))] [g]] /\
    tag_of g = "g" /\
    get_attribute "transform" g
      = Some (ATranslate (JNumber (Fin 50)) (JNumber (Fin 20))).
Proof.
  intros H s'. unfold s', outcome, final_state.
  rewrite (scatCatViz_earlier_run s slice json arr H). cbn [fst snd heap container].
  split; [reflexivity|]. split; [reflexivity|].
  eexists. split; [reflexivity|].
  destruct (chart_group_earlier_structure (slice_formData slice)
              (props_of_earlier (json_data json)
                 (Array_sort (comparator "color") arr) (slice_width slice)
                 (slice_height slice))
              (Array_sort (comparator "color") arr) (json_yLines json))
    as (gAttrs & xc & Hg & _).
  split; [by rewrite Hg|]. reflexivity.
Qed.

(** The chart of the earlier version has one band per series, one
    point mark per point, one line per entry of [yLines], and no legend
    key; its x axis is an empty group, [height - 60] below the top of
    the chart group. *)
Theorem earlier_render_content (s : state) (slice : slice_t) (json : json_t)
    (arr : list series) :
  heap s !! json_data json = Some arr ->
  let s' := final_state (scatCatViz_earlier slice json) s in
  length (band_groups s') = length arr /\
  length (point_marks s') = total_points arr /\
  length (reference_lines s')
    = match json_yLines json with
      | Some ys => length ys
      | None => 0%nat
      end /\
  selectAll "key" (root s') = [] /\
  exists q : Q,
    selectAll "x" (root s')
      = [Node "g" ["x"; "axis"]
           [("transform", ATranslate (JNumber (Fin 0)) (JNumber (Fin q)))] []] /\
    (q == slice_height slice - 60)%Q.
Proof.
  intros H s'.
  pose proof (selectAll_earlier s slice json arr H) as Hsel.
  cbv zeta in Hsel. fold s' in Hsel.
  set (sorted := Array_sort (comparator "color") arr) in *.
  set (p := props_of_earlier _ _ _ _) in *.
  assert (Hb : band_groups s' = imap (band_of (slice_formData slice) p) sorted).
  { unfold band_groups. rewrite Hsel by reflexivity.
    rewrite select_below_bands, select_below_lines. cbn [String.eqb].
    by rewrite app_nil_r. }
  split; [|split; [|split; [|split]]].
  - rewrite Hb, length_imap. apply Array_sort_length.
  - unfold point_marks. rewrite Hb, flat_map_points_bands,
      length_flat_map_points.
    apply total_points_perm, Array_sort_perm.
  - unfold reference_lines. rewrite Hsel by reflexivity.
    rewrite select_below_bands_none by reflexivity.
    rewrite select_below_lines. cbn [String.eqb Ascii.eqb Bool.eqb app].
    unfold lines_of. destruct (json_yLines json); [by rewrite length_map|done].
  - rewrite Hsel by reflexivity.
    rewrite select_below_bands_none by reflexivity.
    rewrite select_below_lines. by cbn [String.eqb Ascii.eqb Bool.eqb app].
  - unfold s', final_state, root.
    rewrite (scatCatViz_earlier_run s slice json arr H).
    cbn [snd container]. fold sorted p.
    destruct (chart_group_earlier_structure (slice_formData slice) p sorted
                (json_yLines json)) as (gAttrs & xc & -> & Hoff & _).
    rewrite (Hoff eq_refl).
    rewrite selectAll_Node, select_below_cons, selectAll_Node.
    rewrite !select_below_cons, !selectAll_Node, !select_below_app,
      !select_below_cons, !selectAll_Node, !select_below_nil.
    rewrite (select_below_axis "x") by reflexivity.
    rewrite select_below_bands_none by reflexivity.
    rewrite select_below_lines.
    cbn [has_class classes_of existsb String.eqb Ascii.eqb Bool.eqb orb app].
    eexists. split; [reflexivity|].
    cbn [plotHeight padding top bottom p props_of_earlier]. field.
Qed.

End Renderer.

(** ** Implementations of the sort *)

#[export] Instance insertion_ArraySort : ArraySort :=
  {| Array_sort := @insertion_sort;
     Array_sort_perm := @insertion_sort_perm;
     Array_sort_ordered := @insertion_sort_ordered |}.


(** ** The renderer on concrete inputs *)

Abbreviation example_render w h yLines :=
  (scatCatViz digits_ToNumber integer_ToString named_color fixed_bbox no_ticks
     (example_slice w h) (Json 1%positive yLines)).

Abbreviation example_props w h :=
  (computedProps digits_ToNumber integer_ToString example_fd 1%positive w h).

Lemma example_state_lookup (data : list series) :
  heap (example_state data) !! 1%positive = Some data.
Proof. apply lookup_singleton_eq. Defined.

(** C5.  Rendering an empty list of series throws: the tick interval is
    computed from the maximum of an empty domain, which is undefined.
    The container is left empty.  The dataset of the specification's
    example renders to completion. *)
Theorem render_empty_dataset_throws :
  outcome (example_render 400 300 None) (example_state [])
    = Throw (TypeError "Cannot read property 'toString' of undefined") /\
  container (final_state (example_render 400 300 None) (example_state [])) = [] /\
  outcome (example_render 400 300 None) (example_state example_data) = Ok tt.
Proof.
  unfold outcome, final_state.
  rewrite (scatCatViz_empty digits_ToNumber integer_ToString named_color
             fixed_bbox no_ticks (example_state []) (example_slice 400 300)
             (Json 1%positive None) (example_state_lookup [])).
  split; [reflexivity|]. split; [reflexivity|].
  destruct (scatCatViz_run digits_ToNumber integer_ToString named_color
              fixed_bbox no_ticks (example_state example_data)
              (example_slice 400 300) (Json 1%positive None) example_data
              (example_state_lookup _) ltac:(discriminate))
    as (interval & svgAttrs & a1 & a2 & l1 & l2 & _ & Hrun).
  by rewrite Hrun.
Qed.




Lemma tick_interval_and_ticks_witness :
  [5; 3; 120]%nat <> [] /\
  heap (example_state example_data) !! 1%positive = Some example_data /\
  example_data <> [] /\
  (exists interval : Q,
     computeTickInterval [5; 3; 120]%nat = Ok interval /\
     (interval == inject_Z (10 ^ Z.of_nat (3 - 1)) / 2)%Q) /\
  exists (p : computed) (interval : Q),
    outcome (example_props 400 300) (example_state example_data) = Ok p /\
    computeTickInterval (xDomain p) = Ok interval /\
    (interval == 1 # 2)%Q /\
    xTicks p = xDomain p.
Proof.
  split; [discriminate|]. split; [apply example_state_lookup|].
  split; [discriminate|].
  destruct (tick_interval_and_ticks digits_ToNumber integer_ToString
              [5; 3; 120]%nat (example_state example_data) example_fd
              1%positive 400 300 example_data ltac:(discriminate)
              (example_state_lookup _) ltac:(discriminate))
    as ((_ & Hany) & p & interval & Hp & _ & _ & Hi & _ & _ & _ & Hone).
  split; [exact Hany|].
  exists p, interval. split; [exact Hp|]. split; [exact Hi|].
  exact (Hone eq_refl).
Defined.

(** With 250 series the maximum index has three digits: the interval is
    50 and every fiftieth index is a tick. *)
Example ticks_of_250_series :
  computeTickInterval (d3_range 250) = Ok (10 * (10 * 1) / 2)%Q /\
  List.filter (is_tick (10 * (10 * 1) / 2)) (d3_range 250)
    = [0; 50; 100; 150; 200]%nat.
Proof. split; vm_compute; reflexivity. Qed.

Lemma legend_rows_fit_witness :
  Forall (fun w => (w <= 120)%Q) [50; 50; 50]%Q /\
  Forall (fun row => row_positions 0 row /\ (row_width row <= 120)%Q)
    (rows_of (placed_keys 120 [50; 50; 50]%Q)).
Proof.
  assert (H : Forall (fun w => (w <= 120)%Q) [50; 50; 50]%Q)
    by (repeat constructor; vm_compute; discriminate).
  split; [exact H|]. exact (legend_rows_fit 120 [50; 50; 50]%Q H).
Defined.

(** C4, as stated, fails for a key wider than the legend: the key is
    moved to a row of its own, which it overflows. *)
Lemma wide_key_overflows_its_row :
  legend_adjustments 100 [200]%Q = [(0, 20 + 20)%Q] /\
  ~ Forall (fun row => (row_width row <= 100)%Q)
      (rows_of (placed_keys 100 [200]%Q)).
Proof.
  split; [reflexivity|]. intros H.
  change (rows_of (placed_keys 100 [200]%Q))
    with [[Placed 200 0 (20 + 20)]] in H.
  inversion H as [|row rows Hrow _]; subst.
  revert Hrow. vm_compute. intros Hc. by apply Hc.
Qed.

Lemma vertical_scale_extremes_witness :
  heap (example_state example_data) !! 1%positive = Some example_data /\
  In (mk_point 1 "a" "x") (all_points example_data) /\
  In (mk_point 5 "b" "y") (all_points example_data) /\
  ~ (y (mk_point 1 "a" "x") == y (mk_point 5 "b" "y"))%Q /\
  (forall v w, In v (all_points example_data) ->
     In w (all_points example_data) -> in_double_range (y w - y v)) /\
  in_double_range 300 /\
  exists (p : computed) (lo hi : Q),
    outcome (example_props 400 300) (example_state example_data) = Ok p /\
    yDomain p = (Fin lo, Fin hi) /\
    yScale p = d3_scale_linear (yDomain p) (Fin (plotHeight p), Fin 0) /\
    (exists v, In v (all_points example_data) /\ y v = lo) /\
    (exists v, In v (all_points example_data) /\ y v = hi) /\
    (forall v, In v (all_points example_data) -> (lo <= y v <= hi)%Q) /\
    yScale p (Fin lo) =n= Fin (plotHeight p) /\
    yScale p (Fin hi) =n= Fin 0.
Proof.
  assert (H1 : In (mk_point 1 "a" "x") (all_points example_data))
    by (left; reflexivity).
  assert (H2 : In (mk_point 5 "b" "y") (all_points example_data))
    by (right; left; reflexivity).
  assert (H3 : ~ (y (mk_point 1 "a" "x") == y (mk_point 5 "b" "y"))%Q)
    by (vm_compute; discriminate).
  assert (H4 : forall v w, In v (all_points example_data) ->
                 In w (all_points example_data) -> in_double_range (y w - y v))
    by (intros v w [<-|[<-|[]]] [<-|[<-|[]]]; split; by vm_compute).
  assert (H5 : in_double_range 300) by (split; by vm_compute).
  split; [apply example_state_lookup|]. split; [exact H1|].
  split; [exact H2|]. split; [exact H3|]. split; [exact H4|].
  split; [exact H5|].
  exact (vertical_scale_extremes digits_ToNumber integer_ToString
           (example_state example_data) example_fd 1%positive 400 300
           example_data _ _ (example_state_lookup _) H1 H2 H3 H4 H5).
Defined.

(** C6, as stated, fails when the difference of the extremes overflows:
    for the two points at [-2^1023] and [2^1023] the subtraction
    [max - min] gives an infinity, and the scale sends the maximum to
    NaN, not to [0]. *)
Lemma vertical_scale_overflows :
  ~ (- inject_Z (2 ^ 1023) == inject_Z (2 ^ 1023))%Q /\
  exists p : computed,
    outcome (example_props 400 300) (example_state far_apart_data) = Ok p /\
    yDomain p = (Fin (- inject_Z (2 ^ 1023)), Fin (inject_Z (2 ^ 1023))) /\
    yScale p (Fin (- inject_Z (2 ^ 1023))) =n= Fin (plotHeight p) /\
    yScale p (Fin (inject_Z (2 ^ 1023))) = NaN.
Proof.
  split; [vm_compute; discriminate|].
  destruct (computedProps_run digits_ToNumber integer_ToString
              (example_state far_apart_data) example_fd 1%positive 400 300
              far_apart_data (example_state_lookup _) ltac:(discriminate))
    as (interval & _ & Hrun).
  eexists. unfold outcome. rewrite Hrun. split; [reflexivity|].
  split; [reflexivity|]. split; by vm_compute.
Qed.

(** C7.  With an empty list of series and [yLines = [3]] the render
    throws in the tick computation, before the lines are appended: no
    line is drawn.  The earlier version of the renderer, which has no
    tick computation, draws the line. *)
Theorem reference_line_lost_on_empty_dataset :
  outcome (example_render 400 300 (Some [Fin 3])) (example_state [])
    = Throw (TypeError "Cannot read property 'toString' of undefined") /\
  reference_lines
    (final_state (example_render 400 300 (Some [Fin 3])) (example_state []))
    = [] /\
  length (reference_lines
            (final_state
               (scatCatViz_earlier digits_ToNumber integer_ToString named_color
                  no_ticks (example_slice 400 300)
                  (Json 1%positive (Some [Fin 3])))
               (example_state []))) = 1%nat.
Proof.
  unfold outcome, final_state.
  rewrite (scatCatViz_empty digits_ToNumber integer_ToString named_color
             fixed_bbox no_ticks (example_state []) (example_slice 400 300)
             (Json 1%positive (Some [Fin 3])) (example_state_lookup [])).
  split; [reflexivity|]. split; [reflexivity|].
  rewrite (scatCatViz_earlier_run digits_ToNumber integer_ToString named_color
             no_ticks (example_state []) (example_slice 400 300)
             (Json 1%positive (Some [Fin 3])) [] (example_state_lookup [])).
  reflexivity.
Qed.

Lemma reference_lines_drawn_witness :
  heap (example_state example_data) !! 1%positive = Some example_data /\
  example_data <> [] /\
  length (reference_lines
            (final_state (example_render 400 300 (Some [Fin 3]))
               (example_state example_data))) = 1%nat /\
  reference_lines
    (final_state (example_render 400 300 (Some []))
       (example_state example_data)) = [] /\
  reference_lines
    (final_state (example_render 400 300 None)
       (example_state example_data)) = [].
Proof.
  split; [apply example_state_lookup|]. split; [discriminate|].
  destruct (reference_lines_drawn digits_ToNumber integer_ToString named_color
              fixed_bbox no_ticks (example_state example_data)
              (example_slice 400 300) 1%positive example_data
              (example_state_lookup _) ltac:(discriminate))
    as (p & _ & H3 & H0 & Hnone).
  split; [|split; [exact H0|exact Hnone]].
  exact (f_equal length H3).
Defined.

Lemma legend_keys_match_values_witness :
  heap (example_state example_data) !! 1%positive = Some example_data /\
  map key_label
    (color_keys (final_state (example_render 400 300 None)
                   (example_state example_data)))
    = [Some (AStr "a"); Some (AStr "b")] /\
  map key_visual
    (shape_keys (final_state (example_render 400 300 None)
                   (example_state example_data)))
    = [Some (ASymbol (JString "circle")); Some (ASymbol (JString "cross"))].
Proof.
  split; [apply example_state_lookup|].
  pose proof (legend_keys_match_values digits_ToNumber integer_ToString
                named_color fixed_bbox no_ticks (example_state example_data)
                (example_slice 400 300) (Json 1%positive None) example_data
                (example_state_lookup _)) as H.
  split.
  - exact (proj1 (proj1 H)).
  - exact (proj1 (proj2 (proj2 (proj2 (proj2 (proj2 H)))))).
Defined.

(** C8, as stated, fails on two counts.  The fill of a color key does
    not go by its position: the keys at the same position of the
    example and of the example with the colors exchanged are filled
    differently, so no palette assigns the fills by position.  And the
    keys are not always in first-seen order: the colors "10" and "2",
    seen in this order, are listed as "2", "10". *)
Lemma legend_colors_not_by_position :
  ~ (exists palette : list (option attr_value),
       forall data : list series,
         In data [example_data; swapped_data] ->
         map key_visual
           (color_keys (final_state (example_render 400 300 None)
                          (example_state data)))
         = take 2 palette) /\
  map key_label
    (color_keys (final_state (example_render 400 300 None)
                   (example_state numeral_colors_data)))
    = [Some (AStr "2"); Some (AStr "10")] /\
  first_seen ["10"; "2"] = ["10"; "2"].
Proof.
  split; [|split; [vm_compute; reflexivity|reflexivity]].
  intros (palette & Hp).
  pose proof (Hp example_data ltac:(left; reflexivity)) as H1.
  pose proof (Hp swapped_data ltac:(right; left; reflexivity)) as H2.
  assert (E1 : map key_visual
                 (color_keys (final_state (example_render 400 300 None)
                                (example_state example_data)))
               = [Some (AVal (JString "a")); Some (AVal (JString "b"))])
    by (vm_compute; reflexivity).
  assert (E2 : map key_visual
                 (color_keys (final_state (example_render 400 300 None)
                                (example_state swapped_data)))
               = [Some (AVal (JString "b")); Some (AVal (JString "a"))])
    by (vm_compute; reflexivity).
  rewrite E1 in H1. rewrite E2 in H2. rewrite <- H2 in H1. discriminate.
Qed.

Lemma render_sorts_dataset_in_place_witness :
  heap (example_state unsorted_data) !! 1%positive = Some unsorted_data /\
  heap (final_state (example_render 400 300 None)
          (example_state unsorted_data)) !! 1%positive
    = Some [Series "g2" [mk_point 5 "1" "y"]; Series "g1" [mk_point 1 "2" "x"]] /\
  heap (final_state (example_render 400 300 None)
          (example_state unsorted_data))
    <> heap (example_state unsorted_data).
Proof.
  split; [apply example_state_lookup|].
  pose proof (render_sorts_dataset_in_place digits_ToNumber integer_ToString
                named_color fixed_bbox no_ticks (example_state unsorted_data)
                (example_slice 400 300) (Json 1%positive None) unsorted_data
                (example_state_lookup _)) as H.
  split.
  - exact (proj1 (proj2 (proj2 H))).
  - apply (proj2 (proj2 (proj2 (proj2 H)))). vm_compute. discriminate.
Defined.

Lemma empty_series_compares_as_zero_witness :
  values (Series "empty" []) = [] /\
  forall b : series,
    comparator digits_ToNumber "color" (Series "empty" []) b
      = num_sub (Fin 0) (sortKey digits_ToNumber "color" b) /\
    comparator digits_ToNumber "color" b (Series "empty" [])
      = num_sub (sortKey digits_ToNumber "color" b) (Fin 0).
Proof.
  split; [reflexivity|].
  exact (proj1 (proj2 (proj2 (proj2
           (empty_series_compares_as_zero digits_ToNumber
              (Series "empty" []) eq_refl))))).
Defined.

(** ** The further properties on concrete inputs *)

Lemma render_completes_witness :
  heap (example_state example_data) !! 1%positive = Some example_data /\
  example_data <> [] /\
  outcome (example_render 400 300 None) (example_state example_data) = Ok tt.
Proof.
  split; [apply example_state_lookup|]. split; [discriminate|].
  exact (proj1 (render_completes digits_ToNumber integer_ToString named_color
                  fixed_bbox no_ticks (example_state example_data)
                  (example_slice 400 300) (Json 1%positive None) example_data
                  (example_state_lookup _) ltac:(discriminate))).
Defined.

Lemma failed_render_clears_witness :
  outcome (example_render 400 300 None) (example_state [])
    = Throw (TypeError "Cannot read property 'toString' of undefined") /\
  container (final_state (example_render 400 300 None) (example_state [])) = [].
Proof.
  assert (H : outcome (example_render 400 300 None) (example_state [])
              = Throw (TypeError "Cannot read property 'toString' of undefined")).
  { unfold outcome.
    by rewrite (scatCatViz_empty digits_ToNumber integer_ToString named_color
                  fixed_bbox no_ticks (example_state [])
                  (example_slice 400 300) (Json 1%positive None)
                  (example_state_lookup [])). }
  split; [exact H|].
  exact (failed_render_clears digits_ToNumber integer_ToString named_color
           fixed_bbox no_ticks (example_state []) (example_slice 400 300)
           (Json 1%positive None) _ H).
Defined.

Lemma tick_interval_bounds_witness :
  d3_range 250 <> [] /\
  (1 <= max_list (d3_range 250))%nat /\
  exists interval : Q,
    computeTickInterval (d3_range 250) = Ok interval /\
    (2 * interval <= inject_Z (Z.of_nat (max_list (d3_range 250))))%Q /\
    (inject_Z (Z.of_nat (max_list (d3_range 250))) < 20 * interval)%Q.
Proof.
  assert (H1 : (1 <= max_list (d3_range 250))%nat) by (vm_compute; lia).
  split; [discriminate|]. split; [exact H1|].
  destruct (tick_interval_bounds (d3_range 250) ltac:(discriminate) H1)
    as (interval & Hi & Hlo & Hhi & _).
  exists interval. split; [exact Hi|]. split; [exact Hlo|exact Hhi].
Defined.

Lemma horizontal_positions_witness :
  heap (example_state example_data) !! 1%positive = Some example_data /\
  example_data <> [] /\
  exists p : computed,
    outcome (example_props 400 300) (example_state example_data) = Ok p /\
    stands_at p 1
      (plotWidth p * inject_Z (Z.of_nat 1)
       / inject_Z (Z.of_nat (length example_data) - 1)).
Proof.
  split; [apply example_state_lookup|]. split; [discriminate|].
  destruct (horizontal_positions digits_ToNumber integer_ToString
              (example_state example_data) example_fd 1%positive 400 300
              example_data (example_state_lookup _) ltac:(discriminate))
    as (p & Hp & _ & _ & Hmany & _).
  exists p. split; [exact Hp|]. apply Hmany; simpl; lia.
Defined.

Lemma no_points_scale_witness :
  heap (example_state [Series "g" []]) !! 1%positive = Some [Series "g" []] /\
  [Series "g" []] <> [] /\
  all_points [Series "g" []] = [] /\
  exists p : computed,
    outcome (example_props 400 300) (example_state [Series "g" []]) = Ok p /\
    yDomain p = (NaN, NaN) /\
    yScale p (Fin 3) = NaN.
Proof.
  split; [apply example_state_lookup|]. split; [discriminate|].
  split; [reflexivity|].
  destruct (no_points_scale digits_ToNumber integer_ToString
              (example_state [Series "g" []]) example_fd 1%positive 400 300
              [Series "g" []] (example_state_lookup _) ltac:(discriminate)
              eq_refl)
    as (p & Hp & Hd & Hs).
  exists p. split; [exact Hp|]. split; [exact Hd|apply Hs].
Defined.

Lemma legend_without_room_witness :
  (0 <= 0)%Q /\
  Forall (fun w => (0 <= w)%Q) [50; 50]%Q /\
  legend_adjustments 0 [50; 50]%Q !! 1%nat = Some (0, 60)%Q /\
  (fst (0, 60)%Q == 0)%Q /\
  (snd (0, 60)%Q == 20 * (inject_Z (Z.of_nat 1) + 2))%Q.
Proof.
  assert (H0 : (0 <= 0)%Q) by (vm_compute; discriminate).
  assert (Hw : Forall (fun w => (0 <= w)%Q) [50; 50]%Q)
    by (repeat constructor; vm_compute; discriminate).
  split; [exact H0|]. split; [exact Hw|]. split; [reflexivity|].
  exact (legend_without_room 0 [50; 50]%Q H0 Hw 1%nat (0, 60)%Q eq_refl).
Defined.

Lemma legend_single_row_witness :
  Forall (fun w => (0 <= w)%Q) [50; 50]%Q /\
  (Qsum [50; 50] + paddingX * inject_Z (Z.of_nat (length [50; 50]%Q) - 1)
   < 200)%Q /\
  Forall (fun k => key_y k = paddingY) (placed_keys 200 [50; 50]%Q) /\
  row_positions 0 (placed_keys 200 [50; 50]%Q).
Proof.
  assert (Hw : Forall (fun w => (0 <= w)%Q) [50; 50]%Q)
    by (repeat constructor; vm_compute; discriminate).
  split; [exact Hw|]. split; [reflexivity|].
  exact (legend_single_row 200 [50; 50]%Q Hw eq_refl).
Defined.

Lemma legend_keys_positioned_witness :
  heap (example_state example_data) !! 1%positive = Some example_data /\
  example_data <> [] /\
  exists p : computed,
    outcome (example_props 400 300) (example_state example_data) = Ok p /\
    length (selectAll "key"
              (root (final_state (example_render 400 300 None)
                       (example_state example_data))))
    = (length (colorValues p) + length (shapeValues p))%nat.
Proof.
  split; [apply example_state_lookup|]. split; [discriminate|].
  destruct (legend_keys_positioned digits_ToNumber integer_ToString named_color
              fixed_bbox no_ticks (example_state example_data)
              (example_slice 400 300) (Json 1%positive None) example_data
              (example_state_lookup _) ltac:(discriminate))
    as (p & Hp & Hlen & _).
  exists p. split; [exact Hp|exact Hlen].
Defined.

Lemma mark_symbols_match_legend_witness :
  heap (example_state example_data) !! 1%positive = Some example_data /\
  In (mk_point 5 "b" "y") (all_points example_data) /\
  exists (p : computed) (i : nat) (k : node),
    outcome (example_props 400 300) (example_state example_data) = Ok p /\
    shape_keys (final_state (example_render 400 300 None)
                  (example_state example_data)) !! i = Some k /\
    key_label k = Some (AStr "y") /\
    key_visual k
      = get_attribute "d" (point_mark named_color example_fd p
                             (mk_point 5 "b" "y")).
Proof.
  assert (Hin : In (mk_point 5 "b" "y") (all_points example_data))
    by (right; left; reflexivity).
  split; [apply example_state_lookup|]. split; [exact Hin|].
  destruct (mark_symbols_match_legend digits_ToNumber integer_ToString
              named_color fixed_bbox no_ticks (example_state example_data)
              (example_slice 400 300) (Json 1%positive None) example_data
              (mk_point 5 "b" "y") (example_state_lookup _) Hin)
    as (p & Hp & _ & i & k & _ & Hk & Hl & Hv & _).
  exists p, i, k. split; [exact Hp|]. split; [exact Hk|].
  split; [exact Hl|exact Hv].
Defined.

Lemma earlier_render_completes_witness :
  heap (example_state []) !! 1%positive = Some [] /\
  outcome (scatCatViz_earlier digits_ToNumber integer_ToString named_color
             no_ticks (example_slice 400 300) (Json 1%positive None))
    (example_state []) = Ok tt.
Proof.
  split; [apply example_state_lookup|].
  exact (proj1 (earlier_render_completes digits_ToNumber integer_ToString
                  named_color no_ticks (example_state [])
                  (example_slice 400 300) (Json 1%positive None) []
                  (example_state_lookup _))).
Defined.

Lemma earlier_render_content_witness :
  heap (example_state example_data) !! 1%positive = Some example_data /\
  length (point_marks
            (final_state
               (scatCatViz_earlier digits_ToNumber integer_ToString named_color
                  no_ticks (example_slice 400 300) (Json 1%positive (Some [Fin 3])))
               (example_state example_data))) = total_points example_data /\
  length (reference_lines
            (final_state
               (scatCatViz_earlier digits_ToNumber integer_ToString named_color
                  no_ticks (example_slice 400 300) (Json 1%positive (Some [Fin 3])))
               (example_state example_data))) = 1%nat.
Proof.
  split; [apply example_state_lookup|].
  destruct (earlier_render_content digits_ToNumber integer_ToString named_color
              no_ticks (example_state example_data) (example_slice 400 300)
              (Json 1%positive (Some [Fin 3])) example_data
              (example_state_lookup _))
    as (_ & Hm & Hl & _).
  split; [exact Hm|exact Hl].
Defined.

Lemma sortData_ordered_unchanged_witness :
  heap (example_state ordered_data) !! 1%positive = Some ordered_data /\
  Forall (finite_key digits_ToNumber "color") ordered_data /\
  StronglySorted (cf_lt (comparator digits_ToNumber "color")) ordered_data /\
  sortData digits_ToNumber 1%positive "color" (example_state ordered_data)
  = (Ok 1%positive, example_state ordered_data).
Proof.
  assert (Hfin : Forall (finite_key digits_ToNumber "color") ordered_data)
    by (repeat constructor; eexists; reflexivity).
  assert (Hs : StronglySorted (cf_lt (comparator digits_ToNumber "color"))
                 ordered_data)
    by (repeat constructor).
  split; [apply example_state_lookup|]. split; [exact Hfin|].
  split; [exact Hs|].
  exact (sortData_ordered_unchanged digits_ToNumber (example_state ordered_data)
           1%positive "color" ordered_data (example_state_lookup _) Hfin Hs).
Defined.

Lemma render_twice_witness :
  heap (example_state unsorted_data) !! 1%positive = Some unsorted_data /\
  Forall (finite_key digits_ToNumber "color") unsorted_data /\
  NoDup unsorted_data /\
  final_state (example_render 400 300 None)
    (final_state (example_render 400 300 None) (example_state unsorted_data))
  = final_state (example_render 400 300 None) (example_state unsorted_data).
Proof.
  assert (Hfin : Forall (finite_key digits_ToNumber "color") unsorted_data)
    by (repeat constructor; eexists; reflexivity).
  assert (Hnd : NoDup unsorted_data).
  { apply NoDup_cons. split; [|apply NoDup_singleton].
    intros Hin. apply list_elem_of_In in Hin. destruct Hin as [E|[]].
    discriminate E. }
  assert (Hinj : forall a b, In a unsorted_data -> In b unsorted_data ->
                   cf_eq (comparator digits_ToNumber "color") a b -> a = b).
  { intros a b [<-|[<-|[]]] [<-|[<-|[]]] Heq; try reflexivity;
      exfalso; vm_compute in Heq; discriminate Heq. }
  split; [apply example_state_lookup|]. split; [exact Hfin|].
  split; [exact Hnd|].
  exact (proj1 (render_twice digits_ToNumber integer_ToString named_color
                  fixed_bbox no_ticks (example_state unsorted_data)
                  (example_slice 400 300) (Json 1%positive None) unsorted_data
                  (example_state_lookup _) Hfin Hnd Hinj)).
Defined.

Lemma flat_domain_marks_witness :
  heap (example_state level_data) !! 1%positive = Some level_data /\
  In (mk_point 3 "a" "x") (all_points level_data) /\
  in_double_range 300 /\
  exists p : computed,
    outcome (example_props 400 300) (example_state level_data) = Ok p /\
    length (point_marks
              (final_state (example_render 400 300 None)
                 (example_state level_data))) = total_points level_data /\
    Forall (fun m => exists q : Q,
                       mark_offset m = Some q /\ (q == plotHeight p)%Q)
      (point_marks
         (final_state (example_render 400 300 None)
            (example_state level_data))).
Proof.
  assert (Hin : In (mk_point 3 "a" "x") (all_points level_data))
    by (left; reflexivity).
  assert (Hh : in_double_range 300) by (split; by vm_compute).
  split; [apply example_state_lookup|]. split; [exact Hin|].
  split; [exact Hh|].
  apply (flat_domain_marks digits_ToNumber integer_ToString named_color
           fixed_bbox no_ticks (example_state level_data)
           (example_slice 400 300) (Json 1%positive None) level_data
           (mk_point 3 "a" "x") (example_state_lookup _) Hin); [|exact Hh].
  intros v [<-|[<-|[]]]; reflexivity.
Defined.

Lemma marks_within_plot_witness :
  heap (example_state example_data) !! 1%positive = Some example_data /\
  ~ (1 == 5)%Q /\
  (800 # 9 < 300)%Q /\
  in_double_range 300 /\
  exists p : computed,
    outcome (example_props 400 300) (example_state example_data) = Ok p /\
    exists a b : Q,
      mark_offset (point_mark named_color example_fd p (mk_point 1 "a" "x"))
        = Some a /\
      mark_offset (point_mark named_color example_fd p (mk_point 5 "b" "y"))
        = Some b /\
      (0 <= a <= plotHeight p)%Q /\ (b <= a)%Q.
Proof.
  assert (Hd : ~ (1 == 5)%Q) by (intros H; discriminate H).
  assert (Hh : in_double_range 300) by (split; by vm_compute).
  assert (Hs : forall v w, In v (all_points example_data) ->
                 In w (all_points example_data) -> in_double_range (y w - y v))
    by (intros v w [<-|[<-|[]]] [<-|[<-|[]]]; split; by vm_compute).
  split; [apply example_state_lookup|]. split; [exact Hd|].
  split; [reflexivity|]. split; [exact Hh|].
  destruct (marks_within_plot digits_ToNumber integer_ToString named_color
              fixed_bbox no_ticks (example_state example_data)
              (example_slice 400 300) (Json 1%positive None) example_data
              (mk_point 1 "a" "x") (mk_point 5 "b" "y")
              (example_state_lookup _) ltac:(left; reflexivity)
              ltac:(right; left; reflexivity) Hd Hs eq_refl Hh)
    as (p & Hp & _ & Hall).
  exists p. split; [exact Hp|].
  destruct (Hall (mk_point 1 "a" "x") (mk_point 5 "b" "y")
              ltac:(left; reflexivity) ltac:(right; left; reflexivity))
    as (a & b & Ha & Hb & Hin & Hle).
  exists a, b. split; [exact Ha|]. split; [exact Hb|]. split; [exact Hin|].
  apply Hle. vm_compute. discriminate.
Defined.
